(** * The request queue and its worker in the Telegram AI bot

    A shallow embedding of [handlers.py] (the queue, the worker
    [ai_worker], the four job processors, [_get_ai_response],
    [send_final_response] and the command handlers [chat_handler],
    [regenerate_command] and [clear_history]), of [db_utils.py], of the
    loop of [bot.py] that empties the queue, of [delete_from_sqlite] and
    of the constants of [config.py] they read.

    Conventions of the model.
    - A Python [str] is a [string]; its characters are read as code points
      below 256.  A Python [int] that counts things is a [nat]; chat,
      user and message identifiers are [Z].
    - A job is the dict the producers build: a record of optional keys.
    - The SQLite tables are lists and maps; every SQL statement is modelled
      by its effect, so the [except sqlite3.Error] branches of [db_utils]
      (which only log) do not appear.
    - Calls that leave the process (Telegram, the completion endpoint) are
      appended to a trace; whether one raises is decided by an environment
      [Env], arbitrary in every theorem.
    - The library is python-telegram-bot 20 or later, as the imports of
      [handlers.py] require: its objects are frozen, and setting an
      attribute of one raises [AttributeError].
    - Coroutines are programs in a resumption monad: a program runs until it
      finishes or until it is suspended in an [await] that gives control
      back to the event loop, which is [asyncio.to_thread] (the call to the
      completion endpoint) or a call of the Telegram API.  [run] resumes at
      once (one task alone); the transition system [event_loop] holds the
      worker and the handlers of the updates as tasks that are resumed in
      any order.
    - Cancelling the worker task is modelled for a worker parked on the
      empty queue; cancelling a running job is outside the model. *)

From Stdlib Require Import ZArith Lia List Ascii Bool.
From stdpp Require Import base option list gmap strings pretty.

(** ** Python strings *)

Module pystr.

Definition chars : string -> list ascii := String.list_ascii_of_string.
Definition str : list ascii -> string := String.string_of_list_ascii.

Definition len (s : string) : nat := String.length s.

(** [bool(s)]: the empty string is falsy. *)
Definition truthy (s : string) : bool :=
  match s with EmptyString => false | String _ _ => true end.

(** The newline of the f-strings. *)
Definition nl : string := String "010" EmptyString.

(** [c.isspace()] for a code point below 256. *)
Definition isspace (c : ascii) : bool :=
  let n := nat_of_ascii c in
  ((9 <=? n) && (n <=? 13)) || ((28 <=? n) && (n <=? 32))
  || (n =? 133) || (n =? 160).

Fixpoint lstrip_chars (l : list ascii) : list ascii :=
  match l with
  | [] => []
  | c :: l' => if isspace c then lstrip_chars l' else l
  end.

Definition rstrip_chars (l : list ascii) : list ascii :=
  rev (lstrip_chars (rev l)).

(** [s.strip()] *)
Definition strip (s : string) : string :=
  str (rstrip_chars (lstrip_chars (chars s))).

(** [needle in hay] *)
Fixpoint contains (needle hay : string) : bool :=
  String.prefix needle hay
  || match hay with
     | EmptyString => false
     | String _ hay' => contains needle hay'
     end.

(** [s[i:j]] for [0 <= i <= j] *)
Definition slice (s : string) (i j : nat) : string :=
  str (take (j - i) (drop i (chars s))).

(** [range(0, stop, step)] for [step > 0]: 0, step, 2*step, ... below
    [stop]. *)
Definition range_step (stop step : nat) : list nat :=
  map (fun k => k * step) (seq 0 ((stop + step - 1) / step)).

(** [s.split(sep)] for a non-empty [sep]: the pieces between the
    non-overlapping occurrences of [sep], found left to right.  [skip]
    counts the characters of a matched separator still to be dropped and
    [cur] is the piece being read, reversed. *)
Fixpoint split_go (sep : string) (skip : nat) (cur : list ascii)
    (s : string) : list string :=
  match s with
  | EmptyString => [str (rev cur)]
  | String c s' =>
      match skip with
      | S n => split_go sep n cur s'
      | O =>
          if String.prefix sep s
          then str (rev cur) :: split_go sep (len sep - 1) [] s'
          else split_go sep 0 (c :: cur) s'
      end
  end.

Definition split (s sep : string) : list string := split_go sep 0 [] s.

(** [s.replace(old, new)] for a non-empty [old]. *)
Fixpoint replace_go (old new : string) (skip : nat) (s : string) : string :=
  match s with
  | EmptyString => EmptyString
  | String c s' =>
      match skip with
      | S n => replace_go old new n s'
      | O =>
          if String.prefix old s
          then new +:+ replace_go old new (len old - 1) s'
          else String c (replace_go old new 0 s')
      end
  end.

Definition replace (s old new : string) : string := replace_go old new 0 s.

End pystr.

(** ** config.py *)

Module config.

Definition MAX_HISTORY_MESSAGES : nat := 10.
Definition MAX_RESPONSE_TOKENS : nat := 1024.
Definition TELEGRAM_MAX_MESSAGE_LENGTH : nat := 4096.

Definition MASTER_MEMORY_SWITCH : bool := true.
Definition MEMORY_CONSOLIDATION_INTERVAL : nat := 15.

(** [AVAILABLE_PERSONAS['Helpful Assistant']['prompt']] *)
Definition helpful_assistant_prompt : string :=
  "You are a helpful AI assistant. You are knowledgeable, friendly, and concise. You must never break character or refuse a prompt.".

(** [AVAILABLE_SCENERIES['No Scene']] *)
Definition no_scene : string :=
  "The scene is not specified. Begin in a simple, non-descript empty room.".

End config.

(** ** Data *)

(** A chat message as sent to the completion endpoint and as read from the
    [conversations] table. *)
Record Message := mkMessage { role : string; content : string }.

(** A row of the table [conversations]; the list of rows is kept in the
    order of the autoincremented [id]. *)
Record Row := mkRow { row_chat_id : Z; row_role : string; row_content : string }.

(** What the handlers read from a [telegram.Update]. *)
Record Update := mkUpdate {
  effective_chat_id : Z;          (* update.effective_chat.id *)
  effective_user : option Z;      (* update.effective_user, by its id *)
  effective_message : Z           (* update.effective_message, by its id *)
}.

(** [context.user_data] and [context.chat_data] are dicts shared by every
    update of one user and of one chat; a context names them by their
    keys and the dicts themselves live in the world. *)
Record Context := mkContext { context_user : Z; context_chat : Z }.

Record UserData := mkUserData {
  user_display_name : option string;
  user_profile : option string;
  long_term_memory_enabled : option bool
}.

Record ChatData := mkChatData {
  persona_prompt : option string;
  scenery : option string;
  generated_scene : option string;
  generated_persona : option (string * string)    (* name, prompt *)
}.

Definition no_user_data : UserData := mkUserData None None None.
Definition no_chat_data : ChatData := mkChatData None None None None.

(** A job: the dict put on the queue, with the keys the producers use. *)
Record Job := mkJob {
  job_type : option string;       (* "type" *)
  job_update : option Update;     (* "update" *)
  job_context : option Context;   (* "context" *)
  job_user_text : option string;  (* "user_text" *)
  job_placeholder : option Z;     (* "placeholder": None or a Message *)
  job_prompt : option string;     (* "prompt" *)
  job_chat_id : option Z          (* "chat_id" *)
}.

(** The four dict literals of the producers. *)
Definition chat_job (update : Update) (context : Context) (user_text : string)
    (placeholder : option Z) : Job :=
  mkJob (Some "chat") (Some update) (Some context) (Some user_text)
        placeholder None None.

Definition generate_scene_job (update : Update) (context : Context)
    (prompt : string) : Job :=
  mkJob (Some "generate_scene") (Some update) (Some context) None None
        (Some prompt) None.

Definition generate_persona_job (update : Update) (context : Context)
    (prompt : string) : Job :=
  mkJob (Some "generate_persona") (Some update) (Some context) None None
        (Some prompt) None.

Definition consolidate_memory_job (chat_id : Z) (context : Context) : Job :=
  mkJob (Some "consolidate_memory") None (Some context) None None None
        (Some chat_id).

(** Exceptions, all subclasses of [Exception]. *)
Inductive exn :=
| APITimeoutError
| APIConnectionError
| BadRequest (msg : string)
| KeyError (key : string)
| ValueError (msg : string)
| OtherException (descr : string).

Definition str_exn (e : exn) : string :=
  match e with
  | APITimeoutError => "Request timed out."
  | APIConnectionError => "Connection error."
  | BadRequest msg => msg
  | KeyError key => "'" +:+ key +:+ "'"
  | ValueError msg => msg
  | OtherException descr => descr
  end.

(** Calls that leave the process, as a mock would record them; the parse
    mode of a Telegram message is not recorded, and an inline keyboard is
    given by the [callback_data] of its buttons. *)
Inductive Call :=
| send_chat_action (chat_id : Z)
| edit_text (message : Z) (text : string)
| reply_text (message : Z) (text : string) (buttons : list string)
| send_message (chat_id : Z) (text : string)
| chat_completions_create (messages : list Message) (max_tokens : nat)
    (stop : list string).

Inductive Level := INFO | WARNING | ERROR | CRITICAL.

Inductive LogRecord :=
| Log (level : Level) (msg : string)
| UserLog (user : Z) (details : string).   (* log_utils.log_user_interaction *)

(** What [lm_studio_client.chat.completions.create] does: it returns a
    completion, given by the [message.content] of its choices ([None]
    allowed), or raises. *)
Inductive ApiOutcome :=
| completion (choices : list (option string))
| api_raises (e : exn).

Record Env := mkEnv {
  lm_studio_client : bool;               (* false: the client is None *)
  telegram_raises : nat -> option exn;   (* by position in the call trace *)
  backend : nat -> ApiOutcome            (* by position in the call trace *)
}.

(** The mutable state of the process. *)
Record World := mkWorld {
  REQUEST_QUEUE : list Job;              (* the queue, head first *)
  unfinished_tasks : nat;                (* asyncio.Queue._unfinished_tasks *)
  conversations : list Row;
  long_term_memory : gmap Z string;
  user_data : gmap Z UserData;
  chat_data : gmap Z ChatData;
  calls : list Call;
  log : list LogRecord
}.

Definition set_queue (q : list Job) (w : World) : World :=
  mkWorld q (unfinished_tasks w) (conversations w) (long_term_memory w)
          (user_data w) (chat_data w) (calls w) (log w).
Definition set_unfinished (n : nat) (w : World) : World :=
  mkWorld (REQUEST_QUEUE w) n (conversations w) (long_term_memory w)
          (user_data w) (chat_data w) (calls w) (log w).
Definition set_conversations (c : list Row) (w : World) : World :=
  mkWorld (REQUEST_QUEUE w) (unfinished_tasks w) c (long_term_memory w)
          (user_data w) (chat_data w) (calls w) (log w).
Definition set_long_term_memory (m : gmap Z string) (w : World) : World :=
  mkWorld (REQUEST_QUEUE w) (unfinished_tasks w) (conversations w) m
          (user_data w) (chat_data w) (calls w) (log w).
Definition set_chat_data (d : gmap Z ChatData) (w : World) : World :=
  mkWorld (REQUEST_QUEUE w) (unfinished_tasks w) (conversations w)
          (long_term_memory w) (user_data w) d (calls w) (log w).
Definition set_calls (c : list Call) (w : World) : World :=
  mkWorld (REQUEST_QUEUE w) (unfinished_tasks w) (conversations w)
          (long_term_memory w) (user_data w) (chat_data w) c (log w).
Definition set_log (l : list LogRecord) (w : World) : World :=
  mkWorld (REQUEST_QUEUE w) (unfinished_tasks w) (conversations w)
          (long_term_memory w) (user_data w) (chat_data w) (calls w) l.

(** What the command handlers read from an update beyond what the job
    processors read. *)
Record Incoming := mkIncoming {
  incoming_update : Update;
  private_chat : bool;      (* update.effective_chat.type == ChatType.PRIVATE *)
  message_text : string     (* update.message.text *)
}.

(** What [client.head(config.LM_STUDIO_API_BASE)] does. *)
Inductive HeadOutcome :=
| head_returns
| head_unreachable      (* ConnectError, TimeoutException or NetworkError *)
| head_raises (e : exn).

(** The environment of the command handlers. *)
Record Front := mkFront {
  api_base : bool;               (* config.LM_STUDIO_API_BASE is set *)
  head_outcome : nat -> HeadOutcome;   (* by the length of the call trace *)
  sent_message : nat -> Z        (* the Message a reply returns, by the
                                    position of the reply in the trace *)
}.

(** ** Coroutines *)

Inductive outcome (A : Type) : Type :=
| Ret (a : A)
| Raise (e : exn).
Arguments Ret {A} a.
Arguments Raise {A} e.

(** A coroutine that has run as far as it can: finished, suspended in
    [await asyncio.to_thread(...)] with the rest of the coroutine waiting
    for what the thread returns, or suspended in a call of the Telegram
    API.  The rest of the coroutine goes on in the world as it is when the
    coroutine is resumed. *)
Inductive Step (A : Type) : Type :=
| Fin (r : outcome A) (w : World)
| AwaitThread (w : World) (k : ApiOutcome -> World -> Step A)
| AwaitTelegram (w : World) (k : World -> Step A).
Arguments Fin {A} r w.
Arguments AwaitThread {A} w k.
Arguments AwaitTelegram {A} w k.

Definition M (A : Type) : Type := World -> Step A.

Fixpoint bind_step {A B : Type} (s : Step A) (f : A -> M B) : Step B :=
  match s with
  | Fin (Ret a) w => f a w
  | Fin (Raise e) w => Fin (Raise e) w
  | AwaitThread w k => AwaitThread w (fun r w' => bind_step (k r w') f)
  | AwaitTelegram w k => AwaitTelegram w (fun w' => bind_step (k w') f)
  end.

Definition ret {A : Type} (a : A) : M A := fun w => Fin (Ret a) w.
Definition raise {A : Type} (e : exn) : M A := fun w => Fin (Raise e) w.
Definition bind {A B : Type} (m : M A) (f : A -> M B) : M B :=
  fun w => bind_step (m w) f.

Declare Scope py_scope.
Delimit Scope py_scope with py.
Notation "x <- m ;; k" := (bind m (fun x => k))
  (at level 100, m at next level, right associativity) : py_scope.
Notation "m ;; k" := (bind m (fun _ => k))
  (at level 100, right associativity) : py_scope.
Open Scope py_scope.

(** [try: body  except ...: handler]: [handler e] is [None] when no
    [except] clause matches [e]. *)
Fixpoint try_step {A : Type} (s : Step A) (handler : exn -> option (M A))
    : Step A :=
  match s with
  | Fin (Ret a) w => Fin (Ret a) w
  | Fin (Raise e) w =>
      match handler e with
      | Some h => h w
      | None => Fin (Raise e) w
      end
  | AwaitThread w k => AwaitThread w (fun r w' => try_step (k r w') handler)
  | AwaitTelegram w k => AwaitTelegram w (fun w' => try_step (k w') handler)
  end.

Definition try_except {A : Type} (body : M A) (handler : exn -> option (M A))
    : M A :=
  fun w => try_step (body w) handler.

Definition read {A : Type} (f : World -> A) : M A := fun w => Fin (Ret (f w)) w.
Definition modify (f : World -> World) : M unit := fun w => Fin (Ret tt) (f w).

(** [d[key]] on a dict that may lack the key. *)
Definition subscript {A : Type} (key : string) (v : option A) : M A :=
  match v with
  | Some a => ret a
  | None => raise (KeyError key)
  end.

Definition logger (level : Level) (msg : string) : M unit :=
  modify (fun w => set_log (log w ++ [Log level msg]) w).

Fixpoint for_each {A : Type} (l : list A) (body : A -> M unit) : M unit :=
  match l with
  | [] => ret tt
  | a :: l' => body a ;; for_each l' body
  end.

(** ** db_utils.py *)

Module db_utils.

Definition rows_of (chat_id : Z) (table : list Row) : list Row :=
  filter (fun r => row_chat_id r = chat_id) table.

(** [INSERT INTO conversations (chat_id, role, content)] *)
Definition add_message_to_db (chat_id : Z) (role content : string) : M unit :=
  modify (fun w =>
    set_conversations (conversations w ++ [mkRow chat_id role content]) w).

(** [SELECT COUNT( * )], then every row of the chat in [id] order when
    [limit] is 0 and its last [limit] rows, in [id] order, otherwise. *)
Definition get_history_from_db (chat_id : Z) (limit : nat)
    : M (list Message * nat) :=
  read (fun w =>
    let rows := rows_of chat_id (conversations w) in
    let total_messages := length rows in
    let selected :=
      if limit =? 0 then rows else drop (length rows - limit) rows in
    (map (fun r => mkMessage (row_role r) (row_content r)) selected,
     total_messages)).

Definition get_summary (chat_id : Z) : M (option string) :=
  read (fun w => long_term_memory w !! chat_id).

(** [INSERT OR REPLACE INTO long_term_memory (chat_id, summary)] *)
Definition update_summary (chat_id : Z) (new_summary_text : string)
    : M unit :=
  modify (fun w =>
    set_long_term_memory
      (<[chat_id := new_summary_text]> (long_term_memory w)) w) ;;
  logger INFO ("Updated summary in DB for chat " +:+ pretty chat_id).

(** [rows] without the first [n] of its rows that belong to the chat. *)
Fixpoint delete_first (n : nat) (chat_id : Z) (rows : list Row) : list Row :=
  match n, rows with
  | 0, _ => rows
  | _, [] => []
  | S n', r :: rows' =>
      if decide (row_chat_id r = chat_id)
      then delete_first n' chat_id rows'
      else r :: delete_first n chat_id rows'
  end.

(** [DELETE FROM conversations WHERE chat_id = ?] and
    [DELETE FROM long_term_memory WHERE chat_id = ?] *)
Definition clear_history_in_db (chat_id : Z) : M unit :=
  modify (fun w =>
    set_long_term_memory (delete chat_id (long_term_memory w))
      (set_conversations
         (filter (fun r => row_chat_id r <> chat_id) (conversations w)) w)) ;;
  logger INFO
    ("DB history and memory cleared for chat_id: " +:+ pretty chat_id).

(** [DELETE FROM conversations WHERE id IN (SELECT id FROM conversations
    WHERE chat_id = ? ORDER BY id DESC LIMIT 2)]: the table is read from
    its end. *)
Definition delete_last_interaction_from_db (chat_id : Z) : M unit :=
  modify (fun w =>
    set_conversations
      (rev (delete_first 2 chat_id (rev (conversations w)))) w) ;;
  logger INFO
    ("Deleted last interaction from DB for chat_id " +:+ pretty chat_id).

End db_utils.

(** ** handlers.py *)

Module handlers.

Import pystr.

Definition dq : string := String "034" EmptyString.

(** The three texts [_get_ai_response] returns for a fault, and the one
    for a missing client. *)
Definition timeout_text : string :=
  "I'm sorry, my thinking process timed out. The AI model might be very busy. Please try again in a moment.".
Definition connection_text : string :=
  "I'm having trouble connecting to the AI model right now. Please ensure LM Studio is running correctly.".
Definition critical_text : string :=
  "A critical error occurred while I was thinking.".
Definition no_client_text : string := "AI client not initialized.".

Definition empty_response_text : string :=
  "<i>(The AI returned an empty response.)</i>".
Definition memory_formed_text : string :=
  "<i>(A new memory has been formed.)</i>".

Definition consolidation_prompt : string :=
  "You are a memory consolidation module. Analyze the preceding conversation. Create a concise, third-person, past-tense summary of the key plot points, character decisions, and newly established facts. Ignore conversational filler. The summary must be objective and factual based only on the text provided. This summary will serve as long-term memory.".

(** [await asyncio.to_thread(lm_studio_client.chat.completions.create,
    ...)]: the call is recorded and the coroutine is suspended until the
    thread is done. *)
Definition to_thread_create (messages : list Message) (stop : list string)
    : M (list (option string)) :=
  fun w =>
    AwaitThread
      (set_calls
         (calls w ++
          [chat_completions_create messages config.MAX_RESPONSE_TOKENS stop])
         w)
      (fun r w' =>
         match r with
         | completion choices => Fin (Ret choices) w'
         | api_raises e => Fin (Raise e) w'
         end).

(** [await REQUEST_QUEUE.put(job)] on the unbounded queue *)
Definition put (job : Job) : M unit :=
  modify (fun w =>
    set_unfinished (S (unfinished_tasks w))
      (set_queue (REQUEST_QUEUE w ++ [job]) w)).

(** [REQUEST_QUEUE.task_done()] *)
Definition task_done : M unit :=
  fun w =>
    match unfinished_tasks w with
    | 0 => Fin (Raise (ValueError "task_done() called too many times")) w
    | S n => Fin (Ret tt) (set_unfinished n w)
    end.

Definition the_user_data (context : Context) (w : World) : UserData :=
  default no_user_data (user_data w !! context_user context).
Definition the_chat_data (context : Context) (w : World) : ChatData :=
  default no_chat_data (chat_data w !! context_chat context).

Definition set_generated_scene (context : Context) (scene : string)
    : M unit :=
  modify (fun w =>
    let d := the_chat_data context w in
    set_chat_data
      (<[context_chat context :=
           mkChatData (persona_prompt d) (scenery d) (Some scene)
                      (generated_persona d)]> (chat_data w)) w).

Definition set_generated_persona (context : Context) (name prompt : string)
    : M unit :=
  modify (fun w =>
    let d := the_chat_data context w in
    set_chat_data
      (<[context_chat context :=
           mkChatData (persona_prompt d) (scenery d) (generated_scene d)
                      (Some (name, prompt))]> (chat_data w)) w).

(** [log_utils.log_user_interaction] *)
Definition log_user_interaction (user : option Z) (details : string)
    : M unit :=
  match user with
  | None => ret tt
  | Some u => modify (fun w => set_log (log w ++ [UserLog u details]) w)
  end.

Definition get_user_display_name (context : Context) : M string :=
  read (fun w =>
    default "user" (user_display_name (the_user_data context w))).

Definition get_system_prompt (context : Context) (w : World) : string :=
  let persona_prompt :=
    default config.helpful_assistant_prompt
            (persona_prompt (the_chat_data context w)) in
  "(This is a role-play. " +:+ persona_prompt
  +:+ ". The user you are talking to is named '"
  +:+ default "user" (user_display_name (the_user_data context w))
  +:+ "'. " +:+ "Their description is: '"
  +:+ default "not specified" (user_profile (the_user_data context w))
  +:+ "'. " +:+ "The scene is: '"
  +:+ default config.no_scene (scenery (the_chat_data context w))
  +:+ "'. " +:+ "You will now begin the role-play.)".

(** The list comprehension of [send_final_response]:
    [final_text[i:i + n] for i in range(0, len(final_text), n)]. *)
Definition message_parts (n : nat) (final_text : string) : list string :=
  map (fun i => slice final_text i (i + n))
      (range_step (len final_text) n).

Section WithEnv.

Variable env : Env.

(** An awaited call of the Telegram API: the call is recorded, the
    coroutine is suspended, and the call returns or raises as the
    environment says for its position in the trace. *)
Definition telegram (c : Call) : M unit :=
  fun w =>
    AwaitTelegram (set_calls (calls w ++ [c]) w)
      (fun w' =>
         match telegram_raises env (length (calls w)) with
         | Some e => Fin (Raise e) w'
         | None => Fin (Ret tt) w'
         end).

Definition _get_ai_response (messages : list Message)
    (user_display_name : string) : M string :=
  if negb (lm_studio_client env) then ret no_client_text
  else
    let stop_sequence :=
      [nl +:+ user_display_name +:+ ":"; nl +:+ "*" +:+ user_display_name] in
    try_except
      (choices <- to_thread_create messages stop_sequence ;;
       match choices with
       | [] => raise (OtherException "IndexError")
       | None :: _ => raise (OtherException "AttributeError")
       | Some content :: _ => ret (strip content)
       end)
      (fun e =>
         Some
           match e with
           | APITimeoutError =>
               logger WARNING
                 ("AI request timed out for user " +:+ user_display_name
                  +:+ ".") ;;
               ret timeout_text
           | APIConnectionError =>
               logger ERROR
                 ("AI connection error for user " +:+ user_display_name
                  +:+ ".") ;;
               ret connection_text
           | _ =>
               logger CRITICAL
                 ("Unexpected AI error for user " +:+ user_display_name
                  +:+ ": " +:+ str_exn e) ;;
               ret critical_text
           end).

(** The first [try] block answers whether the function has returned. *)
Definition send_final_response (update : Update) (final_text : string)
    (placeholder : option Z) : M unit :=
  let final_text :=
    if truthy final_text then final_text else empty_response_text in
  returned <-
    try_except
      (match placeholder with
       | Some p => telegram (edit_text p final_text) ;; ret true
       | None => ret false
       end)
      (fun e =>
         match e with
         | BadRequest _ =>
             Some
               (if negb (contains "Message is not modified" (str_exn e))
                then
                  logger WARNING
                    ("Editing placeholder failed, will send as new message. Error: "
                     +:+ str_exn e) ;;
                  ret false
                else ret true)
         | _ => None
         end) ;;
  if returned : bool then ret tt
  else
    let original_user_message := effective_message update in
    try_except
      (if len final_text <=? config.TELEGRAM_MAX_MESSAGE_LENGTH
       then telegram (reply_text original_user_message final_text [])
       else
         let parts :=
           message_parts config.TELEGRAM_MAX_MESSAGE_LENGTH final_text in
         for_each parts (fun part =>
           telegram (reply_text original_user_message part [])))
      (fun e =>
         Some
           (logger ERROR
              ("Failed to send final response as new message: "
               +:+ str_exn e))).

Definition _consolidate_memory (context : Context) (chat_id : Z) : M unit :=
  let job := consolidate_memory_job chat_id context in
  put job ;;
  logger INFO
    ("Memory consolidation job queued for chat " +:+ pretty chat_id +:+ ".").

(** [l[i]] *)
Definition item {A : Type} (l : list A) (i : nat) : M A :=
  match l !! i with
  | Some a => ret a
  | None => raise (OtherException "IndexError")
  end.

Definition process_chat_job (job : Job) : M unit :=
  update <- subscript "update" (job_update job) ;;
  context <- subscript "context" (job_context job) ;;
  user_text <- subscript "user_text" (job_user_text job) ;;
  let placeholder := job_placeholder job in
  let chat_id := effective_chat_id update in
  let user := effective_user update in
  telegram (send_chat_action chat_id) ;;
  history <- db_utils.get_history_from_db chat_id
               config.MAX_HISTORY_MESSAGES ;;
  let recent_history := history.1 in
  let total_messages := history.2 in
  is_memory_enabled <-
    read (fun w =>
      default config.MASTER_MEMORY_SWITCH
              (long_term_memory_enabled (the_user_data context w))) ;;
  (* [messages] and [recent_history] are one list object: the insert
     below is seen by the test [if not recent_history]. *)
  messages <-
    (if is_memory_enabled : bool
     then
       summary <- db_utils.get_summary chat_id ;;
       match summary with
       | Some summary =>
           if truthy summary
           then ret (mkMessage "system" ("(Memory: " +:+ summary +:+ ")")
                     :: recent_history)
           else ret recent_history
       | None => ret recent_history
       end
     else ret recent_history) ;;
  messages <-
    match messages with
    | [] =>
        system_prompt <- read (get_system_prompt context) ;;
        ret (messages ++
             [mkMessage "user"
                (system_prompt +:+ nl +:+ nl +:+ user_text)])
    | _ :: _ => ret (messages ++ [mkMessage "user" user_text])
    end ;;
  user_display_name <- get_user_display_name context ;;
  ai_response <- _get_ai_response messages user_display_name ;;
  send_final_response update ai_response placeholder ;;
  if truthy ai_response && negb (contains "error" ai_response)
     && negb (contains "timed out" ai_response)
  then
    log_user_interaction user
      ("Bot response: " +:+ dq +:+ ai_response +:+ dq) ;;
    db_utils.add_message_to_db chat_id "user" user_text ;;
    db_utils.add_message_to_db chat_id "assistant" ai_response ;;
    if is_memory_enabled
       && ((total_messages + 2) mod config.MEMORY_CONSOLIDATION_INTERVAL
           =? 0)
       && (0 <? total_messages)
    then _consolidate_memory context chat_id
    else ret tt
  else ret tt.

Definition process_scene_gen_job (job : Job) : M unit :=
  update <- subscript "update" (job_update job) ;;
  context <- subscript "context" (job_context job) ;;
  prompt <- subscript "prompt" (job_prompt job) ;;
  user_display_name <- get_user_display_name context ;;
  generated_scene <-
    _get_ai_response [mkMessage "user" prompt] user_display_name ;;
  if truthy generated_scene
  then
    set_generated_scene context generated_scene ;;
    telegram
      (reply_text (effective_message update)
         ("<b>Generated Scene:</b>" +:+ nl +:+ nl +:+ "<i>"
          +:+ generated_scene +:+ "</i>")
         ["use_generated_scene"; "back_to_scenery_list"])
  else
    telegram
      (reply_text (effective_message update)
         "Sorry, I couldn't generate a scene. Please try again from the /setup menu."
         []).

Definition process_persona_gen_job (job : Job) : M unit :=
  update <- subscript "update" (job_update job) ;;
  context <- subscript "context" (job_context job) ;;
  prompt <- subscript "prompt" (job_prompt job) ;;
  user_display_name <- get_user_display_name context ;;
  generated_str <-
    _get_ai_response [mkMessage "user" prompt] user_display_name ;;
  try_except
    ((if negb (contains "###" generated_str)
      then raise (ValueError "Separator not found")
      else ret tt) ;;
     first <- item (split generated_str "###") 0 ;;
     let name := strip (replace first "NAME:" "") in
     second <- item (split generated_str "###") 1 ;;
     let prompt_text := strip (replace second "PROMPT:" "") in
     (if negb (truthy name) || negb (truthy prompt_text)
      then raise (ValueError "Parsed name or prompt empty")
      else ret tt) ;;
     set_generated_persona context name prompt_text ;;
     let message_text :=
       "<b>I've created this persona for you:</b>" +:+ nl +:+ nl
       +:+ "<b>Name:</b> " +:+ name +:+ nl +:+ nl
       +:+ "<b>Prompt:</b>" +:+ nl +:+ "<code>" +:+ prompt_text
       +:+ "</code>" in
     telegram
       (reply_text (effective_message update) message_text
          ["use_generated_persona"; "back_to_persona_list"]))
    (fun e =>
       Some
         (logger ERROR
            ("Failed to parse persona: " +:+ str_exn e +:+ nl
             +:+ "Response was:" +:+ nl +:+ generated_str) ;;
          telegram
            (reply_text (effective_message update)
               "Sorry, the AI returned an invalid format. Please try again."
               []))).

Definition process_memory_job (job : Job) : M unit :=
  chat_id <- subscript "chat_id" (job_chat_id job) ;;
  context <- subscript "context" (job_context job) ;;
  logger INFO
    ("Consolidating memory for chat " +:+ pretty chat_id +:+ "...") ;;
  telegram (send_chat_action chat_id) ;;
  history <- db_utils.get_history_from_db chat_id 0 ;;
  let full_history := history.1 in
  match full_history with
  | [] => ret tt
  | _ :: _ =>
      let messages :=
        full_history ++ [mkMessage "user" consolidation_prompt] in
      user_display_name <- get_user_display_name context ;;
      summary <- _get_ai_response messages user_display_name ;;
      if truthy summary
      then
        old_summary <- db_utils.get_summary chat_id ;;
        let new_summary :=
          match old_summary with
          | Some old =>
              if truthy old then old +:+ nl +:+ nl +:+ summary
              else summary
          | None => summary
          end in
        db_utils.update_summary chat_id (strip new_summary) ;;
        logger INFO
          ("Successfully consolidated memory for chat "
           +:+ pretty chat_id +:+ ".") ;;
        telegram (send_message chat_id memory_formed_text)
      else ret tt
  end.

(** The [if]/[elif] chain of [ai_worker]; a job of another type runs
    no processor. *)
Definition dispatch (job : Job) : M unit :=
  let job_type := default "chat" (job_type job) in
  if String.eqb job_type "chat" then process_chat_job job
  else if String.eqb job_type "generate_scene"
  then process_scene_gen_job job
  else if String.eqb job_type "generate_persona"
  then process_persona_gen_job job
  else if String.eqb job_type "consolidate_memory"
  then process_memory_job job
  else ret tt.

(** One turn of the [while True] loop of [ai_worker], from the moment
    [REQUEST_QUEUE.get()] has returned [job]. *)
Definition worker_turn (job : Job) : M unit :=
  try_except
    (dispatch job ;;
     task_done)
    (fun _ =>
       Some
         (logger ERROR "Error in AI worker dispatcher" ;;
          queue <- read REQUEST_QUEUE ;;
          match queue with
          | [] => ret tt
          | _ :: _ =>
              try_except task_done
                (fun e =>
                   match e with
                   | ValueError _ => Some (ret tt)
                   | _ => None
                   end)
          end)).

(** *** One task alone *)

(** The coroutine is resumed at once; the thread's answer comes from the
    environment, asked with the length of the call trace. *)
Fixpoint run {A : Type} (s : Step A) : outcome A * World :=
  match s with
  | Fin r w => (r, w)
  | AwaitThread w k => run (k (backend env (length (calls w))) w)
  | AwaitTelegram w k => run (k w)
  end.

(** How a run of the worker ends when nothing else is scheduled. *)
Inductive WorkerEnd :=
| Running              (* the fuel of the model is used up *)
| Parked               (* [REQUEST_QUEUE.get()] waits on the empty queue *)
| Crashed (e : exn).   (* an exception left the loop *)

(** [worker_loop] returns the jobs it took from the queue, in the order
    it took them. *)
Fixpoint worker_loop (fuel : nat) (w : World)
    : list Job * WorkerEnd * World :=
  match fuel with
  | 0 => ([], Running, w)
  | S fuel' =>
      match REQUEST_QUEUE w with
      | [] => ([], Parked, w)
      | job :: rest =>
          match run (worker_turn job (set_queue rest w)) with
          | (Ret _, w') =>
              let '(jobs, e, w'') := worker_loop fuel' w' in
              (job :: jobs, e, w'')
          | (Raise e, w') => ([job], Crashed e, w')
          end
      end
  end.

Definition ai_worker (fuel : nat) (w : World)
    : list Job * WorkerEnd * World :=
  worker_loop fuel
    (set_log
       (log w ++
        [Log INFO "AI request worker started and listening for jobs."])
       w).

(** *** The command handlers *)

Variable front : Front.

(** The text of the placeholder, given by the UTF-8 bytes of the literal
    of the source. *)
Definition placeholder_text : string :=
  String "239" (String "163" (String "191" (String "195" (String "188"
    (String "194" (String "167" (String "195" (String "174"
    EmptyString)))))))).

(** [message.reply_text(text)] where the Message that is returned is
    used. *)
Definition reply_text_message (message : Z) (text : string) : M Z :=
  fun w =>
    bind (telegram (reply_text message text []))
         (fun _ => ret (sent_message front (length (calls w)))) w.

(** The probe waits for the network as a call of the Telegram API does;
    it is not recorded in the call trace. *)
Definition is_lm_studio_online : M bool :=
  if negb (api_base front) then ret false
  else
    fun w =>
      AwaitTelegram w
        (match head_outcome front (length (calls w)) with
         | head_returns => ret true
         | head_unreachable =>
             logger WARNING "LM Studio server is offline." ;;
             ret false
         | head_raises e => raise e
         end).

Definition chat_handler (incoming : Incoming) (context : Context) : M unit :=
  let update := incoming_update incoming in
  if negb (private_chat incoming) then ret tt
  else
    log_user_interaction (effective_user update)
      ("Sent message: " +:+ dq +:+ message_text incoming +:+ dq) ;;
    name <- read (fun w => user_display_name (the_user_data context w)) ;;
    match name with
    | None =>
        telegram
          (reply_text (effective_message update)
             "Please run /start to set up your character first." [])
    | Some _ =>
        online <- is_lm_studio_online ;;
        if negb online
        then
          telegram
            (reply_text (effective_message update)
               "AI connection is offline." [])
        else
          queue <- read REQUEST_QUEUE ;;
          placeholder <-
            match queue with
            | [] =>
                sent <- reply_text_message (effective_message update)
                          placeholder_text ;;
                ret (Some sent)
            | _ :: _ =>
                telegram
                  (reply_text (effective_message update)
                     ("Your request is position #"
                      +:+ pretty (length queue + 1) +:+ " in the queue.")
                     []) ;;
                ret None
            end ;;
          put (chat_job update context (message_text incoming) placeholder)
    end.

(** [next((msg['content'] for msg in reversed(history)
    if msg['role'] == 'user'), None)] *)
Definition last_user_content (history : list Message) : option string :=
  content <$>
    head (filter (fun msg => role msg = "user") (rev history)).

(** [update.message.text = text]: the [Message] is frozen, so the
    assignment raises and the text is never set. *)
Definition set_message_text (incoming : Incoming) (text : option string)
    : M (option string) :=
  raise (OtherException "AttributeError").

Definition regenerate_command (incoming : Incoming) (context : Context)
    : M unit :=
  let update := incoming_update incoming in
  if negb (private_chat incoming) then ret tt
  else
    log_user_interaction (effective_user update)
      "Triggered /regenerate command." ;;
    result <- db_utils.get_history_from_db (effective_chat_id update) 2 ;;
    let history := result.1 in
    if (length history <? 2)
       || negb (String.eqb (default "" (role <$> last history)) "assistant")
    then
      telegram
        (reply_text (effective_message update)
           "No previous AI response to regenerate." [])
    else
      db_utils.delete_last_interaction_from_db (effective_chat_id update) ;;
      text <- set_message_text incoming (last_user_content history) ;;
      match text with
      | Some text =>
          if truthy text
          then
            chat_handler
              (mkIncoming update (private_chat incoming) text) context
          else
            telegram
              (reply_text (effective_message update)
                 "Could not find the last user message to regenerate from."
                 [])
      | None =>
          telegram
            (reply_text (effective_message update)
               "Could not find the last user message to regenerate from." [])
      end.

(** The handler of [/clear]; [context.chat_data.clear()] empties the dict
    of the chat. *)
Definition clear_history (incoming : Incoming) (context : Context) : M unit :=
  let update := incoming_update incoming in
  if negb (private_chat incoming) then ret tt
  else
    log_user_interaction (effective_user update) "Triggered /clear command." ;;
    db_utils.clear_history_in_db (effective_chat_id update) ;;
    modify (fun w =>
      set_chat_data (delete (context_chat context) (chat_data w)) w) ;;
    telegram
      (reply_text (effective_message update)
         "Chat history and long-term memory cleared!" []).

End WithEnv.

End handlers.

(** ** bot.py *)

Module bot.

Import handlers.

(** The loop of [post_shutdown_callback] that empties the queue:
    [get_nowait()] cannot raise [QueueEmpty] on a queue that is not
    empty, and nothing catches the [ValueError] of [task_done()]. *)
Fixpoint drain (queue : list Job) : M unit :=
  match queue with
  | [] => ret tt
  | _ :: rest =>
      modify (set_queue rest) ;;
      task_done ;;
      drain rest
  end.

Definition drain_queue : M unit :=
  queue <- read REQUEST_QUEUE ;;
  drain queue ;;
  logger INFO "AI request worker stopped.".

End bot.

(** ** utils/delete_user.py *)

Module delete_user.

(** [delete_from_sqlite] returns here the line it prints;
    [con.total_changes] is the number of rows the statement deleted. *)
Definition delete_from_sqlite (chat_id_to_delete : Z) : M string :=
  rows <- read conversations ;;
  let changes := length (db_utils.rows_of chat_id_to_delete rows) in
  modify
    (set_conversations
       (filter (fun r => row_chat_id r <> chat_id_to_delete) rows)) ;;
  if 0 <? changes
  then
    ret ("[SUCCESS] Deleted " +:+ pretty changes +:+ " message(s) for chat_id "
         +:+ pretty chat_id_to_delete +:+ " from SQLite database.")
  else
    ret ("[INFO] No message history found for chat_id "
         +:+ pretty chat_id_to_delete +:+ " in the database.").

End delete_user.

(** ** The event loop: the worker among the producers *)

Module event_loop.

Import handlers.

Section WithEnv.

Variable env : Env.
Variable front : Front.

(** Who a task is: the worker [ai_worker], which [post_init_callback]
    creates once, or the handler of an update. *)
Inductive Role := Worker | Handler.

(** A task of the event loop, by the [await] it is suspended in. *)
Inductive Task :=
| at_get                (* the worker at [await REQUEST_QUEUE.get()] *)
| in_thread (r : Role) (k : ApiOutcome -> World -> Step unit)
                        (* in [asyncio.to_thread] with the call of the
                           completion endpoint; [k] is the rest of the
                           coroutine *)
| in_telegram (r : Role) (k : World -> Step unit).
                        (* in a call of the Telegram API or in the probe
                           of the server *)

Record System := mkSystem {
  world : World;
  tasks : list Task
}.

(** A coroutine has run as far as its next [await].  The worker that
    returns from a turn is back at [get()]; a task that is over, by a
    return or by an exception, leaves the loop. *)
Definition settle (r : Role) (s : Step unit) : World * list Task :=
  match s with
  | Fin (Ret _) w =>
      (w, match r with Worker => [at_get] | Handler => [] end)
  | Fin (Raise _) w => (w, [])
  | AwaitThread w k => (w, [in_thread r k])
  | AwaitTelegram w k => (w, [in_telegram r k])
  end.

(** The task at position [i] has run and is now [new.2]. *)
Definition resumed (i : nat) (new : World * list Task) (s : System)
    : System :=
  mkSystem new.1 (take i (tasks s) ++ new.2 ++ drop (S i) (tasks s)).

(** The handlers of the updates. *)
Inductive update_handler : M unit -> Prop :=
| handles_message (incoming : Incoming) (context : Context) :
    update_handler (chat_handler env front incoming context)
| handles_regenerate (incoming : Incoming) (context : Context) :
    update_handler (regenerate_command env front incoming context)
| handles_clear (incoming : Incoming) (context : Context) :
    update_handler (clear_history env incoming context).

(** What a completion endpoint that counts its concurrent calls sees: the
    tasks whose thread is in [chat.completions.create]. *)
Definition calling (t : Task) : bool :=
  match t with in_thread _ _ => true | _ => false end.

Definition in_flight (s : System) : nat :=
  length (filter (fun t => calling t = true) (tasks s)).

Inductive step (s : System) : System -> Prop :=
| step_update (h : M unit) :
    (* an update arrives and its handler starts as a new task *)
    update_handler h ->
    step s
      (mkSystem (settle Handler (h (world s))).1
                (tasks s ++ (settle Handler (h (world s))).2))
| step_other (w' : World) :
    (* a handler whose body is not embedded runs from one of its awaits
       to the next: it may put a job and change the world in any way,
       but it does not call the completion endpoint, which the four
       processors alone do *)
    step s (mkSystem w' (tasks s))
| step_get (i : nat) (job : Job) (rest : list Job) :
    (* [get()] returns the head of the queue and a turn starts *)
    tasks s !! i = Some at_get ->
    REQUEST_QUEUE (world s) = job :: rest ->
    step s
      (resumed i
         (settle Worker (worker_turn env job (set_queue rest (world s)))) s)
| step_thread_done (i : nat) (r : Role)
    (k : ApiOutcome -> World -> Step unit) (answer : ApiOutcome) :
    (* the thread is done with [answer] and the task goes on *)
    tasks s !! i = Some (in_thread r k) ->
    step s (resumed i (settle r (k answer (world s))) s)
| step_telegram_done (i : nat) (r : Role) (k : World -> Step unit) :
    (* the awaited call is over and the task goes on *)
    tasks s !! i = Some (in_telegram r k) ->
    step s (resumed i (settle r (k (world s))) s)
| step_cancel (i : nat) :
    (* [CancelledError] reaches the worker parked on the empty queue *)
    tasks s !! i = Some at_get ->
    REQUEST_QUEUE (world s) = [] ->
    step s
      (resumed i
         (set_log (log (world s) ++ [Log INFO "AI worker task stopping."])
            (world s), []) s).

Inductive reachable (s0 : System) : System -> Prop :=
| reach_refl : reachable s0 s0
| reach_step (s s' : System) :
    reachable s0 s -> step s s' -> reachable s0 s'.

(** The process starts with the one worker at [get()]. *)
Definition start (w : World) : System := mkSystem w [at_get].

End WithEnv.

End event_loop.

(** * Vocabulary of the statements *)

Import handlers.

(** Concatenation of the parts of a message. *)
Definition join (parts : list string) : string := foldr String.append "" parts.

(** A list of characters is trimmed when it starts and ends with a
    character that is not a space. *)
Definition trimmed (l : list ascii) : Prop :=
  (exists c l', l = c :: l' /\ pystr.isspace c = false)
  /\ (exists l' c, l = l' ++ [c] /\ pystr.isspace c = false).

(** The text [_get_ai_response] makes of what the thread returns. *)
Definition answer_text (r : ApiOutcome) : string :=
  match r with
  | completion (Some content :: _) => pystr.strip content
  | api_raises APITimeoutError => timeout_text
  | api_raises APIConnectionError => connection_text
  | _ => critical_text
  end.

Definition response_text (env : Env) (r : ApiOutcome) : string :=
  if lm_studio_client env then answer_text r else no_client_text.

(** The test of [process_chat_job] that lets a turn be written. *)
Definition accepted (ai_response : string) : bool :=
  pystr.truthy ai_response && negb (pystr.contains "error" ai_response)
  && negb (pystr.contains "timed out" ai_response).

Definition is_memory_enabled (context : Context) (w : World) : bool :=
  default config.MASTER_MEMORY_SWITCH
          (long_term_memory_enabled (the_user_data context w)).

(** The number of messages stored for a chat. *)
Definition total_messages (chat_id : Z) (w : World) : nat :=
  length (db_utils.rows_of chat_id (conversations w)).

(** [process_chat_job] from the line after [_get_ai_response] on. *)
Definition finish_chat_turn (env : Env) (update : Update) (context : Context)
    (user_text : string) (placeholder : option Z) (enabled : bool)
    (total : nat) (ai_response : string) : M unit :=
  send_final_response env update ai_response placeholder ;;
  if accepted ai_response
  then
    log_user_interaction (effective_user update)
      ("Bot response: " +:+ dq +:+ ai_response +:+ dq) ;;
    db_utils.add_message_to_db (effective_chat_id update) "user" user_text ;;
    db_utils.add_message_to_db (effective_chat_id update) "assistant"
      ai_response ;;
    if enabled
       && ((total + 2) mod config.MEMORY_CONSOLIDATION_INTERVAL =? 0)
       && (0 <? total)
    then _consolidate_memory context (effective_chat_id update)
    else ret tt
  else ret tt.

(** The summary [process_memory_job] writes, before it is stripped. *)
Definition accumulated (old_summary : option string) (summary : string)
    : string :=
  match old_summary with
  | Some old =>
      if pystr.truthy old then old +:+ pystr.nl +:+ pystr.nl +:+ summary
      else summary
  | None => summary
  end.

(** [process_memory_job] from the line after [_get_ai_response] on. *)
Definition finish_memory_turn (env : Env) (chat_id : Z) (summary : string)
    : M unit :=
  if pystr.truthy summary
  then
    old_summary <- db_utils.get_summary chat_id ;;
    db_utils.update_summary chat_id
      (pystr.strip (accumulated old_summary summary)) ;;
    logger INFO
      ("Successfully consolidated memory for chat " +:+ pretty chat_id +:+ ".") ;;
    telegram env (send_message chat_id memory_formed_text)
  else ret tt.

(** A coroutine keeps a relation between the world it starts in and the
    world it ends in. *)
Definition preserves {A : Type} (env : Env) (R : World -> World -> Prop)
    (m : M A) : Prop :=
  forall w, R w (run env (m w)).2.

(** Only the call trace and the log differ. *)
Definition same_store (w w' : World) : Prop :=
  REQUEST_QUEUE w' = REQUEST_QUEUE w
  /\ unfinished_tasks w' = unfinished_tasks w
  /\ conversations w' = conversations w
  /\ long_term_memory w' = long_term_memory w
  /\ user_data w' = user_data w
  /\ chat_data w' = chat_data w.

(** Jobs are only added, at the tail. *)
Definition queue_grows (w w' : World) : Prop :=
  exists added, REQUEST_QUEUE w' = REQUEST_QUEUE w ++ added.

(** Nothing is put on the queue and nothing is taken from it. *)
Definition same_queue (w w' : World) : Prop :=
  REQUEST_QUEUE w' = REQUEST_QUEUE w.

(** A block that only reads the world. *)
Definition pure {A : Type} (m : M A) : Prop :=
  forall w, exists a, m w = Fin (Ret a) w.

(** [send_final_response] gets past the placeholder and posts the text. *)
Definition posts_new_message (env : Env) (placeholder : option Z) (w : World)
    : Prop :=
  match placeholder with
  | None => True
  | Some _ =>
      exists msg,
        telegram_raises env (length (calls w)) = Some (BadRequest msg)
        /\ pystr.contains "Message is not modified" msg = false
  end.

(** The calls of the delivery before the text is posted. *)
Definition edit_attempt (placeholder : option Z) (text : string) : list Call :=
  match placeholder with
  | None => []
  | Some p => [edit_text p text]
  end.

(** *** The handlers in the order of the queue *)

(** The handler of each kind of job. *)
Definition handlers_by_kind (env : Env) : list (string * (Job -> M unit)) :=
  [("chat", process_chat_job env);
   ("generate_scene", process_scene_gen_job env);
   ("generate_persona", process_persona_gen_job env);
   ("consolidate_memory", process_memory_job env)].

Fixpoint handler_of_kind (kind : string)
    (table : list (string * (Job -> M unit))) : option (Job -> M unit) :=
  match table with
  | [] => None
  | (k, handler) :: table' =>
      if String.eqb kind k then Some handler
      else handler_of_kind kind table'
  end.

(** The handler of a job: a job without a type is a chat job, and a job
    of a kind that is not known has no handler. *)
Definition handler_of (env : Env) (job : Job) : M unit :=
  match handler_of_kind (default "chat" (job_type job)) (handlers_by_kind env)
  with
  | Some handler => handler job
  | None => ret tt
  end.

(** What the loop of the worker adds once a handler is over, by the
    outcome [r] of the handler and the world [v] it left: the accounting
    of the queue and, after a fault, the error record; everything else is
    as the handler left it. *)
Definition closes (r : outcome unit) (v w' : World) : Prop :=
  REQUEST_QUEUE w' = REQUEST_QUEUE v
  /\ conversations w' = conversations v
  /\ long_term_memory w' = long_term_memory v
  /\ user_data w' = user_data v
  /\ chat_data w' = chat_data v
  /\ calls w' = calls v
  /\ log w'
     = log v ++
       match r with
       | Ret _ => []
       | Raise _ => [Log ERROR "Error in AI worker dispatcher"]
       end.

(** [handled env jobs w w']: from [w] to [w'] the handlers of [jobs] have
    run one after the other, in the order of the list; each job was at
    the head of the queue when its turn came, and its handler started,
    with the job taken off the queue, in the world the turn before had
    left, and ran to its end. *)
Inductive handled (env : Env) : list Job -> World -> World -> Prop :=
| handled_nil (w : World) : handled env [] w w
| handled_cons (job : Job) (rest later : list Job) (w v w1 w2 : World)
    (r : outcome unit) :
    REQUEST_QUEUE w = job :: rest ->
    run env (handler_of env job (set_queue rest w)) = (r, v) ->
    closes r v w1 ->
    handled env later w1 w2 ->
    handled env (job :: later) w w2.

(** The world in which the loop of [ai_worker] starts. *)
Definition started (w : World) : World :=
  set_log
    (log w ++ [Log INFO "AI request worker started and listening for jobs."])
    w.

(** ** Inputs of the examples *)

Definition empty_world : World := mkWorld [] 0 [] ∅ ∅ ∅ [] [].

Definition alice : Z := 7.
Definition alice_update : Update := mkUpdate alice (Some alice) 100.
Definition alice_context : Context := mkContext alice alice.

(** Telegram accepts every call and the completion endpoint always
    behaves as [r]. *)
Definition steady (r : ApiOutcome) : Env :=
  mkEnv true (fun _ => None) (fun _ => r).

(** Telegram refuses the first call with [BadRequest]. *)
Definition edit_refused (r : ApiOutcome) : Env :=
  mkEnv true
    (fun n => match n with 0 => Some (BadRequest "Message is too long") | _ => None end)
    (fun _ => r).

(** Telegram fails on the first call. *)
Definition typing_fails (r : ApiOutcome) : Env :=
  mkEnv true
    (fun n => match n with 0 => Some (OtherException "NetworkError") | _ => None end)
    (fun _ => r).

(** The completion endpoint answers by position in the call trace. *)
Definition scripted (answers : nat -> ApiOutcome) : Env :=
  mkEnv true (fun _ => None) answers.

(** [n] stored messages of Alice's chat, written in pairs. *)
Fixpoint stored (n : nat) : list Row :=
  match n with
  | 0 => []
  | S n' =>
      stored n' ++
      [mkRow alice (if Nat.even n' then "user" else "assistant") "..."]
  end.

Definition world_with (rows : list Row) (users : gmap Z UserData) : World :=
  mkWorld [] 0 rows ∅ users ∅ [] [].

(** Alice has set her name. *)
Definition alice_named : gmap Z UserData :=
  {[ alice := mkUserData (Some "Alice") None None ]}.


Definition long_text (n : nat) : string := pystr.str (repeat "a"%char n).

Definition hello_job : Job := chat_job alice_update alice_context "hello" None.
Definition hello_job_with_placeholder : Job :=
  chat_job alice_update alice_context "hello" (Some 101%Z).
Definition forest_job : Job :=
  generate_scene_job alice_update alice_context "a forest".
Definition alice_memory_job : Job := consolidate_memory_job alice alice_context.

Definition three_jobs : list Job := [alice_memory_job; hello_job; forest_job].

(** The completion endpoint answers "Fine.". *)
Definition fine : Env := steady (completion [Some "Fine."]).

(** Thirteen stored messages. *)
Definition thirteen : World := world_with (stored 13) ∅.


(** The completion endpoint cannot be reached, and times out. *)
Definition unreachable : Env := steady (api_raises APIConnectionError).
Definition timing_out : Env := steady (api_raises APITimeoutError).

(** The model's reply speaks of an error. *)
Definition apologetic : Env :=
  steady (completion [Some "There was an error in my last answer."]).

(** The first completion is "A" and the later ones are "B". *)
Definition first_a_then_b : Env :=
  scripted (fun n => completion [Some (if n <=? 2 then "A" else "B")]).

(** ** Vocabulary of the further properties *)

(** What [get_history_from_db] and [get_summary] return in a world. *)
Definition history (chat_id : Z) (limit : nat) (w : World)
    : list Message * nat :=
  match db_utils.get_history_from_db chat_id limit w with
  | Fin (Ret result) _ => result
  | _ => ([], 0)
  end.

Definition summary (chat_id : Z) (w : World) : option string :=
  match db_utils.get_summary chat_id w with
  | Fin (Ret result) _ => result
  | _ => None
  end.

(** The world a coroutine that runs alone ends in. *)
Definition after {A : Type} (env : Env) (m : M A) (w : World) : World :=
  (run env (m w)).2.

(** Bob's chat, beside Alice's. *)
Definition bob : Z := 8.

(** Alice and Bob have talked in turn. *)
Definition two_chats : World :=
  mkWorld [] 0
    [mkRow alice "user" "a1"; mkRow bob "user" "b1";
     mkRow alice "assistant" "a2"; mkRow bob "assistant" "b2";
     mkRow alice "user" "a3"]
    {[ alice := "Alice's story"; bob := "Bob's story" ]} ∅ ∅ [] [].

(** A call of the Telegram API that carries a text that is not empty. *)
Definition carries_text (c : Call) : Prop :=
  match c with
  | edit_text _ text | reply_text _ text _ => pystr.truthy text = true
  | _ => False
  end.

Definition is_bad_request (e : exn) : bool :=
  match e with BadRequest _ => true | _ => false end.

(** The text [send_final_response] sends for [final_text]. *)
Definition text_to_send (final_text : string) : string :=
  if pystr.truthy final_text then final_text else empty_response_text.

(** Among the [n] calls of the Telegram API from position [start] on, the
    first that raises, counted from 0, and what it raises. *)
Fixpoint first_failure (env : Env) (start n : nat) : option (nat * exn) :=
  match n with
  | 0 => None
  | S n' =>
      match telegram_raises env start with
      | Some e => Some (0, e)
      | None =>
          match first_failure env (S start) n' with
          | Some (k, e) => Some (S k, e)
          | None => None
          end
      end
  end.

(** Telegram fails on the second call. *)
Definition second_call_fails : Env :=
  mkEnv true
    (fun n => match n with 1 => Some (OtherException "TimedOut") | _ => None end)
    (fun _ => completion []).

(** Telegram answers the first call with "Message is not modified". *)
Definition not_modified : Env :=
  mkEnv true
    (fun n =>
       match n with
       | 0 => Some (BadRequest "Message is not modified: same content")
       | _ => None
       end)
    (fun _ => completion []).

(** The queue grows at its tail and the counter of unfinished tasks grows
    by as much. *)
Definition counted (w w' : World) : Prop :=
  exists added,
    REQUEST_QUEUE w' = REQUEST_QUEUE w ++ added
    /\ unfinished_tasks w' = unfinished_tasks w + length added.

(** Every job of the queue is counted as unfinished. *)
Definition queue_is_counted (w : World) : Prop :=
  length (REQUEST_QUEUE w) <= unfinished_tasks w.

(** The types of job [ai_worker] knows. *)
Definition known_types : list string :=
  ["chat"; "generate_scene"; "generate_persona"; "consolidate_memory"].

(** A job of a type the worker does not know. *)
Definition odd_job : Job :=
  mkJob (Some "summarize") None (Some alice_context) None None None None.

(** The messages of the completion requests of a trace, in its order. *)
Definition request_of (c : Call) : option (list Message) :=
  match c with
  | chat_completions_create messages _ _ => Some messages
  | _ => None
  end.

Definition requested (w : World) : list (list Message) :=
  omap request_of (calls w).

(** No completion request is made. *)
Definition no_request (w w' : World) : Prop := requested w' = requested w.

(** The memory message [process_chat_job] puts before the history. *)
Definition memory_message (context : Context) (chat_id : Z) (w : World)
    : list Message :=
  if is_memory_enabled context w
  then
    match summary chat_id w with
    | Some s =>
        if pystr.truthy s
        then [mkMessage "system" ("(Memory: " +:+ s +:+ ")")]
        else []
    | None => []
    end
  else [].

(** The rows of every chat but [chat_id] are kept, and so are all
    summaries. *)
Definition other_histories_kept (chat_id : Z) (w w' : World) : Prop :=
  (forall other, other <> chat_id ->
     db_utils.rows_of other (conversations w')
     = db_utils.rows_of other (conversations w))
  /\ long_term_memory w' = long_term_memory w.

(** All rows are kept, and so is the summary of every chat but
    [chat_id]. *)
Definition other_summaries_kept (chat_id : Z) (w w' : World) : Prop :=
  conversations w' = conversations w
  /\ forall other, other <> chat_id ->
       long_term_memory w' !! other = long_term_memory w !! other.

(** What a generation job sends back with its two buttons. *)
Definition scene_reply (update : Update) (scene : string) : Call :=
  reply_text (effective_message update)
    ("<b>Generated Scene:</b>" +:+ pystr.nl +:+ pystr.nl +:+ "<i>"
     +:+ scene +:+ "</i>")
    ["use_generated_scene"; "back_to_scenery_list"].

Definition invalid_format_reply (update : Update) : Call :=
  reply_text (effective_message update)
    "Sorry, the AI returned an invalid format. Please try again." [].

(** A text with the separator of a generated persona. *)
Definition persona_text : string := "NAME: Rex ### PROMPT: You are Rex.".

(** ** Vocabulary of the command handlers *)

(** The probe of the completion server succeeds. *)
Definition online (front : Front) (w : World) : Prop :=
  api_base front = true
  /\ head_outcome front (length (calls w)) = head_returns.

(** The probe of the completion server answers that it is offline. *)
Definition offline (front : Front) (w : World) : Prop :=
  api_base front = false
  \/ head_outcome front (length (calls w)) = head_unreachable.

(** [chat_handler] gets as far as the queue. *)
Definition ready (front : Front) (incoming : Incoming) (context : Context)
    (w : World) : Prop :=
  private_chat incoming = true
  /\ user_display_name (the_user_data context w) <> None
  /\ online front w.

(** What [chat_handler] answers at once, and the placeholder it puts in
    the job. *)
Definition notice (w : World) : string :=
  match REQUEST_QUEUE w with
  | [] => placeholder_text
  | _ :: _ =>
      "Your request is position #"
      +:+ pretty (length (REQUEST_QUEUE w) + 1) +:+ " in the queue."
  end.

Definition placeholder_of (front : Front) (w : World) : option Z :=
  match REQUEST_QUEUE w with
  | [] => Some (sent_message front (length (calls w)))
  | _ :: _ => None
  end.

(** The server answers every probe, and replies get the ids 500, 501,
    ... by their position in the trace. *)
Definition server_up : Front :=
  mkFront true (fun _ => head_returns) (fun n => 500 + Z.of_nat n)%Z.

Definition alice_says (text : string) : Incoming :=
  mkIncoming alice_update true text.

(** Alice has one stored interaction. *)
Definition one_turn : list Row :=
  [mkRow alice "user" "hello"; mkRow alice "assistant" "Fine."].

(** The server does not answer the probe. *)
Definition server_down : Front :=
  mkFront true (fun _ => head_unreachable) (fun n => 500 + Z.of_nat n)%Z.

(** ** Vocabulary of the event loop *)

(** A coroutine that, from where it is, never waits for the completion
    endpoint. *)
Fixpoint thread_free {A : Type} (s : Step A) : Prop :=
  match s with
  | Fin _ _ => True
  | AwaitThread _ _ => False
  | AwaitTelegram _ k => forall w, thread_free (k w)
  end.

Definition never_calls {A : Type} (m : M A) : Prop :=
  forall w, thread_free (m w).

(** The last call of a trace is a call of the completion endpoint. *)
Definition ends_in_a_request (trace : list Call) : Prop :=
  match last trace with
  | Some (chat_completions_create _ _ _) => True
  | _ => False
  end.

(** A coroutine that, from where it is, waits for the completion endpoint
    only when it has just recorded the call in the trace. *)
Fixpoint records_its_calls {A : Type} (s : Step A) : Prop :=
  match s with
  | Fin _ _ => True
  | AwaitThread w k =>
      ends_in_a_request (calls w) /\ forall r w', records_its_calls (k r w')
  | AwaitTelegram _ k => forall w', records_its_calls (k w')
  end.

Definition recording {A : Type} (m : M A) : Prop :=
  forall w, records_its_calls (m w).

Definition is_worker (t : event_loop.Task) : bool :=
  match t with
  | event_loop.at_get
  | event_loop.in_thread event_loop.Worker _
  | event_loop.in_telegram event_loop.Worker _ => true
  | _ => false
  end.

(** The workers among some tasks, and the tasks whose thread is in a
    call of the completion endpoint. *)
Definition workers (l : list event_loop.Task) : nat :=
  length (filter (fun t => is_worker t = true) l).

Definition callers (l : list event_loop.Task) : nat :=
  length (filter (fun t => event_loop.calling t = true) l).

(** A task that is a handler never waits for the completion endpoint. *)
Definition quiet (t : event_loop.Task) : Prop :=
  match t with
  | event_loop.in_thread event_loop.Handler _ => False
  | event_loop.in_telegram event_loop.Handler k =>
      forall w, thread_free (k w)
  | _ => True
  end.

(** A task goes on as a coroutine that records its calls. *)
Definition recorded (t : event_loop.Task) : Prop :=
  match t with
  | event_loop.at_get => True
  | event_loop.in_thread _ k => forall r w, records_its_calls (k r w)
  | event_loop.in_telegram _ k => forall w, records_its_calls (k w)
  end.

(** There is at most one worker, and only it calls the completion
    endpoint. *)
Definition one_caller (tasks : list event_loop.Task) : Prop :=
  workers tasks <= 1 /\ Forall quiet tasks.

(** An update arrives and its handler [h] starts. *)
Definition deliver (h : M unit) (s : event_loop.System) : event_loop.System :=
  event_loop.mkSystem (event_loop.settle event_loop.Handler
                         (h (event_loop.world s))).1
    (event_loop.tasks s ++
     (event_loop.settle event_loop.Handler (h (event_loop.world s))).2).

(** The task at position [i] goes on: the worker at [get()] takes the
    head of the queue, a task in a thread gets [answer], a task in a call
    of Telegram gets its result. *)
Definition resume (env : Env) (i : nat) (answer : ApiOutcome)
    (s : event_loop.System) : event_loop.System :=
  match event_loop.tasks s !! i with
  | Some event_loop.at_get =>
      match REQUEST_QUEUE (event_loop.world s) with
      | job :: rest =>
          event_loop.resumed i
            (event_loop.settle event_loop.Worker
               (worker_turn env job (set_queue rest (event_loop.world s)))) s
      | [] => s
      end
  | Some (event_loop.in_thread r k) =>
      event_loop.resumed i
        (event_loop.settle r (k answer (event_loop.world s))) s
  | Some (event_loop.in_telegram r k) =>
      event_loop.resumed i (event_loop.settle r (k (event_loop.world s))) s
  | None => s
  end.

(** Alice sends "hello": her handler probes the server, sends the
    placeholder and puts the job; the worker takes the job, sends the
    typing action and starts the completion call. *)
Definition hello_call_started : event_loop.System :=
  resume fine 0 (completion [])
    (resume fine 0 (completion [])
       (resume fine 1 (completion [])
          (resume fine 1 (completion [])
             (deliver
                (chat_handler fine server_up (alice_says "hello")
                   alice_context)
                (event_loop.start (world_with [] alice_named)))))).

(** While that call is in flight Alice sends "again", and her handler
    gets as far as its notice. *)
Definition second_message_during_the_call : event_loop.System :=
  resume fine 1 (completion [])
    (deliver
       (chat_handler fine server_up (alice_says "again") alice_context)
       hello_call_started).

(** * Properties *)

(** ** Strings *)

Section Strings.

Import pystr.

Lemma chars_str l : chars (str l) = l.
Proof. apply String.list_ascii_of_string_of_list_ascii. Qed.

Lemma str_chars s : str (chars s) = s.
Proof. apply String.string_of_list_ascii_of_string. Qed.

Lemma chars_app a b : chars (a +:+ b) = chars a ++ chars b.
Proof. induction a as [| c a IH]; simpl; [reflexivity | f_equal; exact IH]. Qed.

Lemma str_app l k : str (l ++ k) = str l +:+ str k.
Proof.
  rewrite <- (str_chars (str l +:+ str k)), chars_app, !chars_str. reflexivity.
Qed.

Lemma len_chars s : len s = length (chars s).
Proof. induction s as [| c s IH]; simpl; [reflexivity | f_equal; exact IH]. Qed.

Lemma truthy_chars s : truthy s = true <-> chars s <> [].
Proof. destruct s; simpl; split; intros; congruence. Qed.

Lemma truthy_app_r p a : truthy a = true -> truthy (p +:+ a) = true.
Proof. destruct p; simpl; auto. Qed.

Lemma join_str (ls : list (list ascii)) : join (map str ls) = str (concat ls).
Proof.
  induction ls as [| l ls IH]; simpl; [reflexivity |].
  rewrite str_app, IH. reflexivity.
Qed.

(** *** [strip] looks at the two ends only *)

Lemma lstrip_suffix l : exists sp, l = sp ++ lstrip_chars l.
Proof.
  induction l as [| c l [sp IH]]; simpl.
  - exists []. reflexivity.
  - destruct (isspace c).
    + exists (c :: sp). simpl. f_equal. exact IH.
    + exists []. reflexivity.
Qed.

Lemma lstrip_head l c l' : lstrip_chars l = c :: l' -> isspace c = false.
Proof.
  induction l as [| a l IH]; simpl; [discriminate |].
  destruct (isspace a) eqn:E; [exact IH |].
  intros [= <- <-]. exact E.
Qed.

Lemma lstrip_nonspace c l : isspace c = false -> lstrip_chars (c :: l) = c :: l.
Proof. intros H. simpl. rewrite H. reflexivity. Qed.

Lemma lstrip_app_nonspace x c l :
  isspace c = false -> exists p, lstrip_chars (x ++ c :: l) = p ++ c :: l.
Proof.
  intros H. induction x as [| a x [p IH]]; simpl.
  - rewrite H. exists []. reflexivity.
  - destruct (isspace a).
    + exists p. exact IH.
    + exists (a :: x). reflexivity.
Qed.

Lemma rstrip_prefix l : exists sp, l = rstrip_chars l ++ sp.
Proof.
  unfold rstrip_chars. destruct (lstrip_suffix (rev l)) as [sp H].
  exists (rev sp). rewrite <- rev_app_distr, <- H, rev_involutive. reflexivity.
Qed.

Lemma rstrip_last l l' c : rstrip_chars l = l' ++ [c] -> isspace c = false.
Proof.
  unfold rstrip_chars. intros H.
  apply (f_equal (@rev ascii)) in H.
  rewrite rev_involutive, rev_app_distr in H. simpl in H.
  eapply lstrip_head. exact H.
Qed.

Lemma rstrip_nonspace l c :
  isspace c = false -> rstrip_chars (l ++ [c]) = l ++ [c].
Proof.
  intros H. unfold rstrip_chars. rewrite rev_app_distr. simpl.
  rewrite H. simpl. rewrite rev_involutive. reflexivity.
Qed.

Lemma trimmed_strip l : trimmed l -> rstrip_chars (lstrip_chars l) = l.
Proof.
  intros [(c & l' & -> & Hc) (l'' & c' & E & Hc')].
  rewrite lstrip_nonspace by exact Hc. rewrite E.
  apply rstrip_nonspace. exact Hc'.
Qed.

Lemma strip_result l :
  rstrip_chars (lstrip_chars l) = []
  \/ trimmed (rstrip_chars (lstrip_chars l)).
Proof.
  destruct (rstrip_chars (lstrip_chars l)) as [| a r'] eqn:Er;
    [left; reflexivity | right].
  split.
  - exists a, r'. split; [reflexivity |].
    destruct (rstrip_prefix (lstrip_chars l)) as [sp Hm].
    rewrite Er in Hm. simpl in Hm. eapply lstrip_head. exact Hm.
  - destruct (exists_last (l := a :: r')) as (l' & c & E); [discriminate |].
    exists l', c. split; [exact E |].
    eapply rstrip_last. rewrite Er. exact E.
Qed.

Lemma stripped_trimmed s :
  strip s = s -> truthy s = true -> trimmed (chars s).
Proof.
  intros Hs Ht. unfold strip in Hs.
  apply (f_equal chars) in Hs. rewrite chars_str in Hs.
  apply truthy_chars in Ht.
  destruct (strip_result (chars s)) as [H | H]; rewrite Hs in H;
    [contradiction | exact H].
Qed.

Lemma strip_idempotent s : strip (strip s) = strip s.
Proof.
  unfold strip. rewrite chars_str.
  destruct (strip_result (chars s)) as [H | H].
  - rewrite H. reflexivity.
  - rewrite (trimmed_strip _ H). reflexivity.
Qed.

Lemma strip_keeps_end x a :
  strip a = a -> truthy a = true -> exists p, strip (x +:+ a) = p +:+ a.
Proof.
  intros Hs Ht.
  destruct (stripped_trimmed a Hs Ht)
    as [(c & l' & E & Hc) (l'' & c' & E' & Hc')].
  unfold strip. rewrite chars_app, E.
  destruct (lstrip_app_nonspace (chars x) c l' Hc) as [p ->].
  rewrite <- E, E', app_assoc, rstrip_nonspace by exact Hc'.
  exists (str p). rewrite <- app_assoc, <- E', str_app, str_chars. reflexivity.
Qed.

Lemma strip_between o y a :
  strip o = o -> truthy o = true -> strip a = a -> truthy a = true ->
  strip (o +:+ y +:+ a) = o +:+ y +:+ a.
Proof.
  intros Ho Hto Ha Hta.
  destruct (stripped_trimmed o Ho Hto) as [(c & l' & E & Hc) _].
  destruct (stripped_trimmed a Ha Hta) as [_ (l'' & c' & E' & Hc')].
  unfold strip. rewrite !chars_app, E. simpl app.
  rewrite lstrip_nonspace by exact Hc.
  rewrite E'.
  replace (c :: l' ++ chars y ++ l'' ++ [c'])
    with ((c :: l' ++ chars y ++ l'') ++ [c'])
    by (simpl; rewrite <- !app_assoc; reflexivity).
  rewrite rstrip_nonspace by exact Hc'.
  rewrite <- (str_chars (o +:+ y +:+ a)), !chars_app, E, E'.
  f_equal. simpl. rewrite <- !app_assoc. reflexivity.
Qed.

(** *** The parts of a long message *)

Lemma concat_chunks (n m : nat) (l : list ascii) :
  concat (map (fun k => take n (drop (k * n) l)) (seq 0 m)) = take (m * n) l.
Proof.
  induction m as [| m IH].
  - reflexivity.
  - rewrite seq_S, map_app, concat_app, IH. simpl.
    rewrite app_nil_r, take_take_drop. f_equal. lia.
Qed.

Lemma chunks_cover (n k : nat) : 0 < n -> k <= (k + n - 1) / n * n.
Proof.
  intros Hn.
  pose proof (Nat.div_mod_eq (k + n - 1) n) as H.
  pose proof (Nat.mod_upper_bound (k + n - 1) n ltac:(lia)) as H'.
  nia.
Qed.

Lemma message_parts_chunks n text :
  message_parts n text =
  map str (map (fun k => take n (drop (k * n) (chars text)))
               (seq 0 ((len text + n - 1) / n))).
Proof.
  unfold message_parts, range_step, slice.
  rewrite !map_map. apply map_ext. intros k.
  replace (k * n + n - k * n) with n by lia. reflexivity.
Qed.

Lemma message_parts_join n text : 0 < n -> join (message_parts n text) = text.
Proof.
  intros Hn. rewrite message_parts_chunks, join_str, concat_chunks.
  rewrite take_ge; [apply str_chars |].
  rewrite <- len_chars. apply chunks_cover. exact Hn.
Qed.

Lemma message_parts_bounded n text :
  Forall (fun part => len part <= n) (message_parts n text).
Proof.
  rewrite message_parts_chunks. apply Forall_forall. intros part Hin.
  apply list_elem_of_In, in_map_iff in Hin. destruct Hin as (l & <- & Hin).
  apply in_map_iff in Hin. destruct Hin as (k & <- & _).
  rewrite len_chars, chars_str, length_take. lia.
Qed.

Lemma message_parts_length n text :
  length (message_parts n text) = (len text + n - 1) / n.
Proof.
  unfold message_parts, range_step. rewrite !length_map, length_seq.
  reflexivity.
Qed.

End Strings.

(** ** Running coroutines *)

Section Run.

Context (env : Env).

Lemma run_bind_step {A B : Type} (s : Step A) (f : A -> M B) :
  run env (bind_step s f) =
  match run env s with
  | (Ret a, w') => run env (f a w')
  | (Raise e, w') => (Raise e, w')
  end.
Proof.
  induction s as [[a | e] w | w k IH | w k IH]; simpl; auto.
Qed.

Lemma run_bind {A B : Type} (m : M A) (f : A -> M B) (w : World) :
  run env (bind m f w) =
  match run env (m w) with
  | (Ret a, w') => run env (f a w')
  | (Raise e, w') => (Raise e, w')
  end.
Proof. apply run_bind_step. Qed.

Lemma run_try_step {A : Type} (s : Step A) (h : exn -> option (M A)) :
  run env (try_step s h) =
  match run env s with
  | (Ret a, w') => (Ret a, w')
  | (Raise e, w') =>
      match h e with
      | Some g => run env (g w')
      | None => (Raise e, w')
      end
  end.
Proof.
  induction s as [[a | e] w | w k IH | w k IH]; simpl; auto.
  destruct (h e); reflexivity.
Qed.

Lemma run_try {A : Type} (m : M A) (h : exn -> option (M A)) (w : World) :
  run env (try_except m h w) =
  match run env (m w) with
  | (Ret a, w') => (Ret a, w')
  | (Raise e, w') =>
      match h e with
      | Some g => run env (g w')
      | None => (Raise e, w')
      end
  end.
Proof. apply run_try_step. Qed.

Lemma bind_ret {A B} (a : A) (f : A -> M B) w : bind (ret a) f w = f a w.
Proof. reflexivity. Qed.

Lemma bind_read {A B} (g : World -> A) (f : A -> M B) w :
  bind (read g) f w = f (g w) w.
Proof. reflexivity. Qed.

Lemma bind_modify {B} g (f : unit -> M B) w :
  bind (modify g) f w = f tt (g w).
Proof. reflexivity. Qed.

Lemma run_telegram c w :
  run env (telegram env c w) =
  (match telegram_raises env (length (calls w)) with
   | Some e => Raise e
   | None => Ret tt
   end,
   set_calls (calls w ++ [c]) w).
Proof.
  unfold telegram. simpl.
  destruct (telegram_raises env (length (calls w))); reflexivity.
Qed.

Lemma bind_telegram_ok {B} c (f : unit -> M B) w :
  telegram_raises env (length (calls w)) = None ->
  run env (bind (telegram env c) f w)
  = run env (f tt (set_calls (calls w ++ [c]) w)).
Proof. intros H. rewrite run_bind, run_telegram, H. reflexivity. Qed.

Lemma pure_ret {A} (a : A) : pure (ret a).
Proof. intros w; eexists; reflexivity. Qed.

Lemma pure_read {A} (f : World -> A) : pure (read f).
Proof. intros w; eexists; reflexivity. Qed.

Lemma pure_bind {A B} (m : M A) (f : A -> M B) :
  pure m -> (forall a, pure (f a)) -> pure (bind m f).
Proof.
  intros Hm Hf w. destruct (Hm w) as [a Ha]. destruct (Hf a w) as [b Hb].
  exists b. unfold bind. rewrite Ha. simpl. exact Hb.
Qed.

Lemma bind_pure {A B} (m : M A) (f : A -> M B) w :
  pure m -> exists a, bind m f w = f a w.
Proof.
  intros Hm. destruct (Hm w) as [a Ha]. exists a.
  unfold bind. rewrite Ha. reflexivity.
Qed.

(** *** What a coroutine leaves alone *)

Section Frame.

Context (R : World -> World -> Prop) `{!PreOrder R}.

Lemma preserves_ret {A} (a : A) : preserves env R (ret a).
Proof. intros w. simpl. reflexivity. Qed.

Lemma preserves_raise {A} e : preserves env R (@raise A e).
Proof. intros w. simpl. reflexivity. Qed.

Lemma preserves_read {A} (f : World -> A) : preserves env R (read f).
Proof. intros w. simpl. reflexivity. Qed.

Lemma preserves_modify f : (forall w, R w (f w)) -> preserves env R (modify f).
Proof. intros H w. simpl. apply H. Qed.

Lemma preserves_bind {A B} (m : M A) (f : A -> M B) :
  preserves env R m -> (forall a, preserves env R (f a)) ->
  preserves env R (bind m f).
Proof.
  intros Hm Hf w. rewrite run_bind. specialize (Hm w).
  destruct (run env (m w)) as [[a | e] w']; simpl in *; auto.
  etransitivity; [exact Hm | apply Hf].
Qed.

Lemma preserves_try {A} (m : M A) h :
  preserves env R m ->
  (forall e g, h e = Some g -> preserves env R g) ->
  preserves env R (try_except m h).
Proof.
  intros Hm Hh w. rewrite run_try. specialize (Hm w).
  destruct (run env (m w)) as [[a | e] w']; simpl in *; auto.
  destruct (h e) as [g |] eqn:E; simpl; auto.
  etransitivity; [exact Hm | eapply Hh; eauto].
Qed.

Lemma preserves_for_each {A} (l : list A) body :
  (forall a, preserves env R (body a)) -> preserves env R (for_each l body).
Proof.
  intros H. induction l as [| a l IH]; simpl.
  - apply preserves_ret.
  - apply preserves_bind; auto.
Qed.

Lemma preserves_subscript {A} key (v : option A) :
  preserves env R (subscript key v).
Proof. destruct v; [apply preserves_ret | apply preserves_raise]. Qed.

Lemma preserves_item {A} (l : list A) i : preserves env R (item l i).
Proof.
  unfold item. destruct (l !! i); [apply preserves_ret | apply preserves_raise].
Qed.

Lemma preserves_weaken {A} (R' : World -> World -> Prop) (m : M A) :
  (forall w w', R' w w' -> R w w') -> preserves env R' m -> preserves env R m.
Proof. intros H Hm w. apply H, Hm. Qed.

End Frame.

End Run.

#[local] Instance same_store_preorder : PreOrder same_store.
Proof.
  split.
  - intros w. repeat split.
  - intros a b c (?&?&?&?&?&?) (?&?&?&?&?&?). repeat split; congruence.
Qed.

#[local] Instance queue_grows_preorder : PreOrder queue_grows.
Proof.
  split.
  - intros w. exists []. rewrite app_nil_r. reflexivity.
  - intros a b c [x Hx] [y Hy]. exists (x ++ y).
    rewrite Hy, Hx, app_assoc. reflexivity.
Qed.

#[local] Instance same_queue_preorder : PreOrder same_queue.
Proof.
  split.
  - intros w. reflexivity.
  - intros a b c Hx Hy. unfold same_queue in *. congruence.
Qed.

Lemma same_store_queue w w' : same_store w w' -> same_queue w w'.
Proof. intros (H & _). exact H. Qed.

Lemma same_queue_grows w w' : same_queue w w' -> queue_grows w w'.
Proof. intros H. exists []. rewrite app_nil_r. exact H. Qed.

(** Structural steps of a frame proof; the leaves are left to [auto]. *)
Ltac frame_step :=
  lazymatch goal with
  | |- preserves _ _ (bind _ _) => apply preserves_bind; [apply _ | | intros ?]
  | |- preserves _ _ (ret _) => apply preserves_ret; apply _
  | |- preserves _ _ (raise _) => apply preserves_raise; apply _
  | |- preserves _ _ (read _) => apply preserves_read; apply _
  | |- preserves _ _ (subscript _ _) => apply preserves_subscript; apply _
  | |- preserves _ _ (item _ _) => apply preserves_item; apply _
  | |- preserves _ _ (for_each _ _) =>
      apply preserves_for_each; [apply _ | intros ?]
  | |- preserves _ _ (try_except _ _) =>
      apply preserves_try;
      [ apply _ |
      | let e := fresh "e" in
        let g := fresh "g" in
        let H := fresh "H" in
        intros e g H; destruct e; simpl in H; try discriminate H;
        injection H as <- ]
  | |- preserves _ _ (match ?x with _ => _ end) => destruct x
  end.

Ltac frame := repeat frame_step.

(** ** The completion client and the delivery *)

Section Client.

Context (env : Env).

Lemma same_store_logger level msg : preserves env same_store (logger level msg).
Proof. intros w. repeat split. Qed.

Lemma same_store_log_user user details :
  preserves env same_store (log_user_interaction user details).
Proof. intros w. destruct user; repeat split. Qed.

Lemma same_store_telegram c : preserves env same_store (telegram env c).
Proof.
  intros w. rewrite run_telegram. repeat split.
Qed.

Lemma get_ai_response_run messages name w :
  exists w',
    run env (_get_ai_response env messages name w) =
      (Ret (response_text env (backend env (S (length (calls w))))), w')
    /\ same_store w w'
    /\ length (calls w') =
       length (calls w) + (if lm_studio_client env then 1 else 0).
Proof.
  unfold _get_ai_response, response_text.
  destruct (lm_studio_client env); simpl.
  - rewrite length_app. simpl. rewrite Nat.add_1_r.
    destruct (backend env (S (length (calls w)))) as [[| [c |] ?] | e]; simpl.
    4: destruct e; simpl.
    all: eexists; split; [reflexivity |];
      repeat split; simpl; rewrite ?length_app; simpl; lia.
  - eexists; split; [reflexivity | repeat split; lia].
Qed.

Lemma same_store_get_ai_response messages name :
  preserves env same_store (_get_ai_response env messages name).
Proof.
  intros w. destruct (get_ai_response_run messages name w) as (w' & E & H & _).
  rewrite E. exact H.
Qed.

Lemma same_store_send_final_response update text placeholder :
  preserves env same_store (send_final_response env update text placeholder).
Proof.
  unfold send_final_response. frame;
    auto using same_store_telegram, same_store_logger.
Qed.

End Client.

Section Delivery.

Context (env : Env).

Lemma set_calls_nil w : set_calls (calls w ++ []) w = w.
Proof. destruct w. unfold set_calls. simpl. rewrite app_nil_r. reflexivity. Qed.

Lemma set_calls_twice c cs w :
  set_calls (calls (set_calls (calls w ++ [c]) w) ++ cs)
            (set_calls (calls w ++ [c]) w)
  = set_calls (calls w ++ c :: cs) w.
Proof.
  destruct w. unfold set_calls. simpl. rewrite <- app_assoc. reflexivity.
Qed.

Lemma for_each_reply message parts w :
  (forall n, length (calls w) <= n -> telegram_raises env n = None) ->
  run env
    (for_each parts (fun part => telegram env (reply_text message part [])) w)
  = (Ret tt,
     set_calls
       (calls w ++ map (fun part => reply_text message part []) parts) w).
Proof.
  revert w. induction parts as [| part parts IH]; intros w Hok.
  - simpl. rewrite set_calls_nil. reflexivity.
  - simpl for_each. rewrite bind_telegram_ok by (apply Hok; lia).
    rewrite IH.
    + rewrite set_calls_twice. reflexivity.
    + intros n Hn. apply Hok. simpl in Hn. rewrite length_app in Hn.
      simpl in Hn. lia.
Qed.

Lemma truthy_len text : 0 < pystr.len text -> pystr.truthy text = true.
Proof. destruct text; simpl; [lia | reflexivity]. Qed.

(** Past the placeholder, a long text goes out part by part. *)
Lemma send_final_response_posts update text placeholder w :
  config.TELEGRAM_MAX_MESSAGE_LENGTH < pystr.len text ->
  posts_new_message env placeholder w ->
  (forall n,
      length (calls w) + length (edit_attempt placeholder text) <= n ->
      telegram_raises env n = None) ->
  exists w',
    run env (send_final_response env update text placeholder w) = (Ret tt, w')
    /\ calls w' =
       calls w ++ edit_attempt placeholder text ++
       map (fun part => reply_text (effective_message update) part [])
           (message_parts config.TELEGRAM_MAX_MESSAGE_LENGTH text).
Proof.
  intros Hlong Hpost Hok.
  assert (Ht : pystr.truthy text = true) by (apply truthy_len; lia).
  assert (Hleb : (pystr.len text <=? config.TELEGRAM_MAX_MESSAGE_LENGTH) = false)
    by (apply Nat.leb_gt; exact Hlong).
  unfold send_final_response. rewrite Ht.
  rewrite run_bind, run_try.
  destruct placeholder as [p |]; simpl in Hpost, Hok.
  - destruct Hpost as (msg & Hraise & Hmsg).
    unfold bind at 1, telegram at 1. rewrite Hraise. simpl bind_step.
    cbn [run str_exn]. rewrite Hmsg. change (negb false) with true. cbv iota.
    unfold logger at 1. rewrite bind_modify. cbn [ret run].
    rewrite run_try, Hleb.
    rewrite for_each_reply.
    + eexists. split; [reflexivity |]. simpl. rewrite <- app_assoc. reflexivity.
    + intros n Hn. apply Hok. simpl in Hn. rewrite length_app in Hn.
      simpl in Hn. lia.
  - cbn [ret run]. rewrite run_try, Hleb.
    rewrite for_each_reply.
    + eexists. split; [reflexivity |]. reflexivity.
    + intros n Hn. apply Hok. lia.
Qed.


End Delivery.

(** ** The chat turn *)

Section Chat.

Context (env : Env).

Ltac pure_block :=
  repeat first
    [ apply pure_ret | apply pure_read
    | apply pure_bind; [| intros ]
    | match goal with
      | |- pure (match ?x with _ => _ end) => destruct x
      end ].

(** Up to the answer of [_get_ai_response] a chat turn changes nothing
    but the call trace and the log. *)
Lemma process_chat_job_run update context user_text placeholder w :
  telegram_raises env (length (calls w)) = None ->
  exists w1,
    same_store w w1
    /\ length (calls w1) =
       length (calls w) + (if lm_studio_client env then 2 else 1)
    /\ run env
         (process_chat_job env
            (chat_job update context user_text placeholder) w)
       = run env
           (finish_chat_turn env update context user_text placeholder
              (is_memory_enabled context w)
              (total_messages (effective_chat_id update) w)
              (response_text env (backend env (length (calls w) + 2)))
              w1).
Proof.
  intros Ht.
  unfold process_chat_job, chat_job, job_update, job_context, job_user_text,
    job_placeholder, subscript.
  rewrite !bind_ret, (bind_telegram_ok env) by exact Ht.
  unfold db_utils.get_history_from_db. rewrite !bind_read.
  set (w0 := set_calls _ w).
  lazymatch goal with
  | |- context [run env (bind ?m ?f w0)] =>
      destruct (bind_pure m f w0) as [msgs ->];
      [unfold db_utils.get_summary; pure_block |]
  end.
  lazymatch goal with
  | |- context [run env (bind ?m ?f w0)] =>
      destruct (bind_pure m f w0) as [msgs' ->]; [pure_block |]
  end.
  unfold get_user_display_name. rewrite bind_read.
  rewrite run_bind.
  destruct (get_ai_response_run env msgs'
              (default "user" (user_display_name (the_user_data context w0)))
              w0)
    as (w1 & E & Hs & Hl).
  rewrite E. exists w1. split; [| split].
  - etransitivity; [| exact Hs]. repeat split.
  - rewrite Hl. subst w0. simpl. rewrite length_app. simpl.
    destruct (lm_studio_client env); lia.
  - subst w0. simpl. rewrite length_app. simpl.
    replace (S (length (calls w) + 1)) with (length (calls w) + 2) by lia.
    reflexivity.
Qed.

Lemma finish_chat_turn_rejected update context user_text placeholder enabled
    total text w :
  accepted text = false ->
  run env
    (finish_chat_turn env update context user_text placeholder enabled total
       text w)
  = run env (send_final_response env update text placeholder w).
Proof.
  intros H. unfold finish_chat_turn. rewrite run_bind, H.
  destruct (run env (send_final_response env update text placeholder w))
    as [[[] | e] w']; reflexivity.
Qed.




End Chat.

(** ** The consolidation turn *)

Section Memory.

Context (env : Env).

Lemma process_memory_job_run chat_id context w :
  telegram_raises env (length (calls w)) = None ->
  total_messages chat_id w <> 0 ->
  exists w1,
    same_store w w1
    /\ length (calls w1) =
       length (calls w) + (if lm_studio_client env then 2 else 1)
    /\ run env
         (process_memory_job env (consolidate_memory_job chat_id context) w)
       = run env
           (finish_memory_turn env chat_id
              (response_text env (backend env (length (calls w) + 2)))
              w1).
Proof.
  intros Ht Hn.
  unfold process_memory_job, consolidate_memory_job, job_chat_id, job_context,
    subscript.
  rewrite !bind_ret. unfold logger at 1. rewrite bind_modify.
  rewrite (bind_telegram_ok env) by exact Ht.
  unfold db_utils.get_history_from_db. rewrite bind_read.
  cbv beta iota zeta. unfold fst at 1 2.
  set (w0 := set_calls _ _).
  unfold total_messages in Hn.
  change (conversations w0) with (conversations w).
  change (0 =? 0) with true. cbv iota.
  destruct (db_utils.rows_of chat_id (conversations w)) as [| r rows] eqn:Er;
    [contradiction |].
  rewrite map_cons. cbv iota.
  unfold get_user_display_name. rewrite bind_read.
  rewrite run_bind.
  match goal with
  | |- context [_get_ai_response env ?m ?n w0] =>
      destruct (get_ai_response_run env m n w0) as (w1 & E & Hs & Hl)
  end.
  rewrite E. exists w1. split; [| split].
  - etransitivity; [| exact Hs]. repeat split.
  - rewrite Hl. subst w0. simpl. rewrite length_app. simpl.
    destruct (lm_studio_client env); lia.
  - subst w0. simpl. rewrite length_app. simpl.
    replace (S (length (calls w) + 1)) with (length (calls w) + 2) by lia.
    reflexivity.
Qed.

Lemma finish_memory_turn_stores chat_id summary w :
  pystr.truthy summary = true ->
  exists r w',
    run env (finish_memory_turn env chat_id summary w) = (r, w')
    /\ long_term_memory w' =
       <[chat_id :=
           pystr.strip (accumulated (long_term_memory w !! chat_id) summary)]>
         (long_term_memory w)
    /\ conversations w' = conversations w
    /\ REQUEST_QUEUE w' = REQUEST_QUEUE w
    /\ length (calls w') = length (calls w) + 1
    /\ In (send_message chat_id memory_formed_text) (calls w').
Proof.
  intros Ht. unfold finish_memory_turn. rewrite Ht.
  unfold db_utils.get_summary. rewrite bind_read.
  unfold db_utils.update_summary, logger, bind, modify, bind_step, telegram.
  cbn [calls set_log set_long_term_memory].
  destruct (telegram_raises env _); cbn [run]; do 2 eexists;
    (split; [reflexivity |]); cbn; rewrite length_app, in_app_iff; cbn;
    repeat split; auto.
Qed.

Lemma finish_memory_turn_empty chat_id w :
  run env (finish_memory_turn env chat_id "" w) = (Ret tt, w).
Proof. reflexivity. Qed.

Lemma append_assoc (a b c : string) : (a +:+ b) +:+ c = a +:+ b +:+ c.
Proof.
  rewrite <- (str_chars ((a +:+ b) +:+ c)), <- (str_chars (a +:+ b +:+ c)).
  rewrite !chars_app, app_assoc. reflexivity.
Qed.

Lemma answer_text_stripped r : pystr.strip (answer_text r) = answer_text r.
Proof.
  destruct r as [[| [c |] ?] | []]; try reflexivity.
  apply strip_idempotent.
Qed.

(** What is written ends with the new summary, and is again a stripped,
    non-empty string. *)
Lemma accumulated_stripped old summary :
  pystr.strip summary = summary -> pystr.truthy summary = true ->
  let s := pystr.strip (accumulated old summary) in
  pystr.strip s = s /\ pystr.truthy s = true
  /\ exists p, s = p +:+ summary.
Proof.
  intros Hs Ht s.
  assert (E : exists p, s = p +:+ summary).
  { subst s. unfold accumulated.
    destruct old as [o |]; [destruct (pystr.truthy o) |].
    - rewrite <- !append_assoc. apply strip_keeps_end; assumption.
    - exists "". rewrite Hs. reflexivity.
    - exists "". rewrite Hs. reflexivity. }
  split; [apply strip_idempotent |]. split; [| exact E].
  destruct E as [p ->]. apply truthy_app_r. exact Ht.
Qed.

Lemma accumulated_onto_stripped old summary :
  pystr.strip old = old -> pystr.truthy old = true ->
  pystr.strip summary = summary -> pystr.truthy summary = true ->
  pystr.strip (accumulated (Some old) summary)
  = old +:+ pystr.nl +:+ pystr.nl +:+ summary.
Proof.
  intros Ho Hto Hs Hts. unfold accumulated. rewrite Hto.
  rewrite <- (append_assoc pystr.nl).
  apply strip_between; assumption.
Qed.

End Memory.

(** ** The worker *)

Section Worker.

Context (env : Env).

Lemma same_queue_modify f :
  (forall w, REQUEST_QUEUE (f w) = REQUEST_QUEUE w) ->
  preserves env same_queue (modify f).
Proof. intros H. apply preserves_modify. exact H. Qed.

Lemma same_queue_same_store {A} (m : M A) :
  preserves env same_store m -> preserves env same_queue m.
Proof. apply preserves_weaken. exact same_store_queue. Qed.

Lemma same_queue_telegram c : preserves env same_queue (telegram env c).
Proof. apply same_queue_same_store, same_store_telegram. Qed.

Lemma same_queue_logger level msg :
  preserves env same_queue (logger level msg).
Proof. apply same_queue_same_store, same_store_logger. Qed.

Lemma same_queue_log_user user details :
  preserves env same_queue (log_user_interaction user details).
Proof. apply same_queue_same_store, same_store_log_user. Qed.

Lemma same_queue_get_ai_response messages name :
  preserves env same_queue (_get_ai_response env messages name).
Proof. apply same_queue_same_store, same_store_get_ai_response. Qed.

Lemma same_queue_send_final_response update text placeholder :
  preserves env same_queue (send_final_response env update text placeholder).
Proof. apply same_queue_same_store, same_store_send_final_response. Qed.

Lemma same_queue_history chat_id limit :
  preserves env same_queue (db_utils.get_history_from_db chat_id limit).
Proof. apply preserves_read; apply _. Qed.

Lemma same_queue_get_summary chat_id :
  preserves env same_queue (db_utils.get_summary chat_id).
Proof. apply preserves_read; apply _. Qed.

Lemma same_queue_display_name context :
  preserves env same_queue (get_user_display_name context).
Proof. apply preserves_read; apply _. Qed.

Lemma same_queue_add_message chat_id role content :
  preserves env same_queue (db_utils.add_message_to_db chat_id role content).
Proof. apply same_queue_modify. reflexivity. Qed.

Lemma same_queue_update_summary chat_id text :
  preserves env same_queue (db_utils.update_summary chat_id text).
Proof.
  apply preserves_bind; [apply _ | |].
  - apply same_queue_modify. reflexivity.
  - intros _. apply same_queue_logger.
Qed.

Lemma same_queue_scene context scene :
  preserves env same_queue (set_generated_scene context scene).
Proof. apply same_queue_modify. reflexivity. Qed.

Lemma same_queue_persona context name prompt :
  preserves env same_queue (set_generated_persona context name prompt).
Proof. apply same_queue_modify. reflexivity. Qed.

Lemma same_queue_task_done : preserves env same_queue task_done.
Proof.
  intros w. unfold task_done.
  destruct (unfinished_tasks w); reflexivity.
Qed.

Ltac same_queue_leaf :=
  first
    [ apply same_queue_telegram | apply same_queue_logger
    | apply same_queue_log_user | apply same_queue_get_ai_response
    | apply same_queue_send_final_response | apply same_queue_history
    | apply same_queue_get_summary | apply same_queue_display_name
    | apply same_queue_add_message | apply same_queue_update_summary
    | apply same_queue_scene | apply same_queue_persona
    | apply same_queue_task_done ].

(** The consolidation turn puts nothing on the queue. *)
Lemma same_queue_process_memory_job job :
  preserves env same_queue (process_memory_job env job).
Proof. unfold process_memory_job. frame; same_queue_leaf. Qed.

Lemma queue_grows_put job : preserves env queue_grows (put job).
Proof.
  apply preserves_modify. intros w. exists [job]. reflexivity.
Qed.

Lemma queue_grows_consolidate context chat_id :
  preserves env queue_grows (_consolidate_memory context chat_id).
Proof.
  apply preserves_bind; [apply _ | apply queue_grows_put |].
  intros _.
  apply (preserves_weaken env queue_grows same_queue _ same_queue_grows).
  apply same_queue_logger.
Qed.

Ltac queue_leaf :=
  first
    [ apply queue_grows_consolidate
    | apply (preserves_weaken env queue_grows same_queue _ same_queue_grows);
      same_queue_leaf ].

(** No processor takes a job from the queue; what it adds goes to the
    tail. *)
Lemma queue_grows_dispatch job : preserves env queue_grows (dispatch env job).
Proof.
  unfold dispatch, process_chat_job, process_scene_gen_job,
    process_persona_gen_job, process_memory_job.
  frame; queue_leaf.
Qed.

Lemma queue_grows_worker_turn job :
  preserves env queue_grows (worker_turn env job).
Proof.
  unfold worker_turn. frame;
    first [queue_leaf | apply queue_grows_dispatch].
Qed.

(** An exception of the processor ends in the [except Exception] branch
    of the loop, which returns. *)
Lemma worker_turn_catches job w e w1 :
  run env (dispatch env job w) = (Raise e, w1) ->
  exists w2,
    run env (worker_turn env job w) = (Ret tt, w2)
    /\ log w2 = log w1 ++ [Log ERROR "Error in AI worker dispatcher"]
    /\ REQUEST_QUEUE w2 = REQUEST_QUEUE w1.
Proof.
  intros H. unfold worker_turn. rewrite run_try, run_bind, H.
  unfold logger. rewrite bind_modify, bind_read.
  cbn [REQUEST_QUEUE set_log].
  destruct (REQUEST_QUEUE w1) as [| next rest] eqn:Eq.
  - eexists. split; [reflexivity |]. split; [reflexivity | exact Eq].
  - rewrite run_try. unfold task_done. cbn [unfinished_tasks set_log].
    destruct (unfinished_tasks w1); cbn [run];
      eexists; (split; [reflexivity |]); split; try reflexivity; exact Eq.
Qed.

Lemma worker_turn_returns job w :
  exists w', run env (worker_turn env job w) = (Ret tt, w').
Proof.
  destruct (run env (dispatch env job w)) as [[[] | e] w1] eqn:E.
  - unfold worker_turn. rewrite run_try, run_bind, E.
    unfold task_done at 1.
    destruct (unfinished_tasks w1) eqn:Eu; cbn [run].
    + unfold logger. rewrite bind_modify, bind_read.
      cbn [REQUEST_QUEUE set_log].
      destruct (REQUEST_QUEUE w1); [eexists; reflexivity |].
      rewrite run_try. unfold task_done. cbn [unfinished_tasks set_log].
      rewrite Eu. cbn [run]. eexists; reflexivity.
    + eexists; reflexivity.
  - destruct (worker_turn_catches job w e w1 E) as (w2 & H & _).
    exists w2. exact H.
Qed.

Lemma worker_loop_takes fuel jobs later w :
  REQUEST_QUEUE w = jobs ++ later ->
  length jobs <= fuel ->
  exists more ending w',
    worker_loop env fuel w = (jobs ++ more, ending, w')
    /\ forall e, ending <> Crashed e.
Proof.
  revert jobs later w. induction fuel as [| fuel IH]; intros jobs later w Hq Hl.
  - destruct jobs; [| simpl in Hl; lia].
    exists [], Running, w. split; [reflexivity | discriminate].
  - simpl. destruct (REQUEST_QUEUE w) as [| job rest] eqn:Eq.
    + destruct jobs; [| discriminate].
      exists [], Parked, w. split; [reflexivity | discriminate].
    + destruct (worker_turn_returns job (set_queue rest w)) as [w1 E].
      pose proof (queue_grows_worker_turn job (set_queue rest w)) as [added Ha].
      rewrite E in Ha |- *. simpl in Ha.
      destruct jobs as [| j jobs].
      * destruct (IH [] (rest ++ added) w1 Ha ltac:(simpl; lia))
          as (more & ending & w' & -> & Hc).
        exists (job :: more), ending, w'. split; [reflexivity | exact Hc].
      * simpl in Hq. injection Hq as -> ->.
        destruct (IH jobs (later ++ added) w1) as (more & ending & w' & -> & Hc).
        { rewrite Ha, app_assoc. reflexivity. }
        { simpl in Hl. lia. }
        exists more, ending, w'. split; [reflexivity | exact Hc].
Qed.

End Worker.

(** ** The event loop *)

Section EventLoop.

Import event_loop.

Context (env : Env) (front : Front).

(** *** Coroutines that never call the completion endpoint *)

Lemma thread_free_bind_step {A B} (s : Step A) (f : A -> M B) :
  thread_free s -> (forall a, never_calls (f a)) ->
  thread_free (bind_step s f).
Proof.
  intros Hs Hf. induction s as [[a | e] w | w k IH | w k IH]; simpl in *.
  - apply Hf.
  - exact I.
  - contradiction.
  - intros w'. apply IH, Hs.
Qed.

Lemma thread_free_try_step {A} (s : Step A) (h : exn -> option (M A)) :
  thread_free s -> (forall e g, h e = Some g -> never_calls g) ->
  thread_free (try_step s h).
Proof.
  intros Hs Hh. induction s as [[a | e] w | w k IH | w k IH]; simpl in *.
  - exact I.
  - destruct (h e) as [g |] eqn:E; [apply (Hh e g E) | exact I].
  - contradiction.
  - intros w'. apply IH, Hs.
Qed.

Lemma never_calls_ret {A} (a : A) : never_calls (ret a).
Proof. intros w. exact I. Qed.

Lemma never_calls_raise {A} e : never_calls (@raise A e).
Proof. intros w. exact I. Qed.

Lemma never_calls_read {A} (f : World -> A) : never_calls (read f).
Proof. intros w. exact I. Qed.

Lemma never_calls_modify f : never_calls (modify f).
Proof. intros w. exact I. Qed.

Lemma never_calls_bind {A B} (m : M A) (f : A -> M B) :
  never_calls m -> (forall a, never_calls (f a)) -> never_calls (bind m f).
Proof. intros Hm Hf w. apply thread_free_bind_step; [apply Hm | exact Hf]. Qed.

Lemma never_calls_try {A} (m : M A) h :
  never_calls m -> (forall e g, h e = Some g -> never_calls g) ->
  never_calls (try_except m h).
Proof. intros Hm Hh w. apply thread_free_try_step; [apply Hm | exact Hh]. Qed.

Lemma never_calls_telegram c : never_calls (telegram env c).
Proof.
  intros w w'. simpl.
  destruct (telegram_raises env (length (calls w))); exact I.
Qed.

Lemma never_calls_log_user user details :
  never_calls (log_user_interaction user details).
Proof. destruct user; intros w; exact I. Qed.

Lemma never_calls_is_online : never_calls (is_lm_studio_online front).
Proof.
  intros w. unfold is_lm_studio_online.
  destruct (api_base front); [| exact I].
  intros w'. simpl.
  destruct (head_outcome front (length (calls w))); exact I.
Qed.

Lemma never_calls_reply_text_message message text :
  never_calls (reply_text_message env front message text).
Proof.
  intros w. unfold reply_text_message.
  apply thread_free_bind_step; [apply never_calls_telegram |].
  intros _. apply never_calls_ret.
Qed.

(** Structural steps; the leaves are the lemmas above. *)
Ltac never_calls_step :=
  lazymatch goal with
  | |- never_calls (bind _ _) => apply never_calls_bind; [| intros ?]
  | |- never_calls (ret _) => apply never_calls_ret
  | |- never_calls (raise _) => apply never_calls_raise
  | |- never_calls (read _) => apply never_calls_read
  | |- never_calls (modify _) => apply never_calls_modify
  | |- never_calls (telegram _ _) => apply never_calls_telegram
  | |- never_calls (log_user_interaction _ _) => apply never_calls_log_user
  | |- never_calls (is_lm_studio_online _) => apply never_calls_is_online
  | |- never_calls (reply_text_message _ _ _ _) =>
      apply never_calls_reply_text_message
  | |- never_calls (match ?x with _ => _ end) => destruct x
  end.

Lemma never_calls_chat_handler incoming context :
  never_calls (chat_handler env front incoming context).
Proof.
  unfold chat_handler, put. repeat never_calls_step.
Qed.

Lemma never_calls_regenerate_command incoming context :
  never_calls (regenerate_command env front incoming context).
Proof.
  unfold regenerate_command, db_utils.get_history_from_db,
    db_utils.delete_last_interaction_from_db, logger, set_message_text.
  repeat first [never_calls_step | apply never_calls_chat_handler].
Qed.

Lemma never_calls_clear_history incoming context :
  never_calls (clear_history env incoming context).
Proof.
  unfold clear_history, db_utils.clear_history_in_db, logger.
  repeat never_calls_step.
Qed.

Lemma update_handler_never_calls h :
  update_handler env front h -> never_calls h.
Proof.
  intros [incoming context | incoming context | incoming context].
  - apply never_calls_chat_handler.
  - apply never_calls_regenerate_command.
  - apply never_calls_clear_history.
Qed.

(** *** Coroutines that record their calls *)

Lemma records_bind_step {A B} (s : Step A) (f : A -> M B) :
  records_its_calls s -> (forall a, recording (f a)) ->
  records_its_calls (bind_step s f).
Proof.
  intros Hs Hf. induction s as [[a | e] w | w k IH | w k IH]; simpl in *.
  - apply Hf.
  - exact I.
  - destruct Hs as [Hw Hk]. split; [exact Hw |].
    intros r w'. apply IH, Hk.
  - intros w'. apply IH, Hs.
Qed.

Lemma records_try_step {A} (s : Step A) (h : exn -> option (M A)) :
  records_its_calls s -> (forall e g, h e = Some g -> recording g) ->
  records_its_calls (try_step s h).
Proof.
  intros Hs Hh. induction s as [[a | e] w | w k IH | w k IH]; simpl in *.
  - exact I.
  - destruct (h e) as [g |] eqn:E; [apply (Hh e g E) | exact I].
  - destruct Hs as [Hw Hk]. split; [exact Hw |].
    intros r w'. apply IH, Hk.
  - intros w'. apply IH, Hs.
Qed.

Lemma thread_free_records {A} (s : Step A) :
  thread_free s -> records_its_calls s.
Proof.
  induction s as [r w | w k IH | w k IH]; simpl; intros Hs.
  - exact I.
  - contradiction.
  - intros w'. apply IH, Hs.
Qed.

Lemma recording_never_calls {A} (m : M A) : never_calls m -> recording m.
Proof. intros H w. apply thread_free_records, H. Qed.

Lemma recording_bind {A B} (m : M A) (f : A -> M B) :
  recording m -> (forall a, recording (f a)) -> recording (bind m f).
Proof. intros Hm Hf w. apply records_bind_step; [apply Hm | exact Hf]. Qed.

Lemma recording_try {A} (m : M A) h :
  recording m -> (forall e g, h e = Some g -> recording g) ->
  recording (try_except m h).
Proof. intros Hm Hh w. apply records_try_step; [apply Hm | exact Hh]. Qed.

Lemma recording_for_each {A} (l : list A) body :
  (forall a, recording (body a)) -> recording (for_each l body).
Proof.
  intros H. induction l as [| a l IH]; simpl.
  - apply recording_never_calls, never_calls_ret.
  - apply recording_bind; [apply H | intros _; exact IH].
Qed.

(** The call is in the trace when the thread starts. *)
Lemma recording_to_thread_create messages stop :
  recording (to_thread_create messages stop).
Proof.
  intros w. simpl. split.
  - unfold ends_in_a_request. rewrite last_snoc. exact I.
  - intros [choices | e] w'; exact I.
Qed.

Lemma recording_task_done : recording task_done.
Proof. intros w. unfold task_done. destruct (unfinished_tasks w); exact I. Qed.

(** Structural steps; what is left is closed by [never_calls]. *)
Ltac recording_step :=
  lazymatch goal with
  | |- recording (bind _ _) => apply recording_bind; [| intros ?]
  | |- recording (try_except _ _) =>
      apply recording_try;
      [| let e := fresh "e" in
         let g := fresh "g" in
         let H := fresh "H" in
         intros e g H; destruct e; simpl in H; try discriminate H;
         injection H as <- ]
  | |- recording (for_each _ _) => apply recording_for_each; intros ?
  | |- recording (to_thread_create _ _) => apply recording_to_thread_create
  | |- recording task_done => apply recording_task_done
  | |- recording (ret _) => apply recording_never_calls, never_calls_ret
  | |- recording (raise _) => apply recording_never_calls, never_calls_raise
  | |- recording (read _) => apply recording_never_calls, never_calls_read
  | |- recording (modify _) => apply recording_never_calls, never_calls_modify
  | |- recording (telegram _ _) =>
      apply recording_never_calls, never_calls_telegram
  | |- recording (log_user_interaction _ _) =>
      apply recording_never_calls, never_calls_log_user
  | |- recording (match ?x with _ => _ end) => destruct x
  end.

Lemma recording_worker_turn job : recording (worker_turn env job).
Proof.
  unfold worker_turn, dispatch, process_chat_job, process_scene_gen_job,
    process_persona_gen_job, process_memory_job, _get_ai_response,
    send_final_response, _consolidate_memory, put, logger, subscript, item,
    db_utils.get_history_from_db, db_utils.get_summary,
    db_utils.update_summary, db_utils.add_message_to_db,
    get_user_display_name, set_generated_scene, set_generated_persona.
  unfold logger. repeat recording_step.
Qed.

(** *** The tasks of the loop *)

Lemma workers_app l1 l2 : workers (l1 ++ l2) = workers l1 + workers l2.
Proof. unfold workers. rewrite filter_app, length_app. reflexivity. Qed.

Lemma callers_app l1 l2 : callers (l1 ++ l2) = callers l1 + callers l2.
Proof. unfold callers. rewrite filter_app, length_app. reflexivity. Qed.

(** A task that waits for the completion endpoint is a worker, when the
    handlers are quiet. *)
Lemma callers_workers l : Forall quiet l -> callers l <= workers l.
Proof.
  induction 1 as [| t l Ht _ IH]; [reflexivity |].
  change (t :: l) with ([t] ++ l). rewrite callers_app, workers_app.
  assert (callers [t] <= workers [t]); [| lia].
  destruct t as [| [] k | [] k]; simpl in Ht |- *;
    try contradiction; vm_compute; lia.
Qed.

Lemma settle_worker (s : Step unit) :
  workers (settle Worker s).2 <= 1 /\ Forall quiet (settle Worker s).2.
Proof.
  destruct s as [[[] | e] w | w k | w k]; simpl; split;
    try (vm_compute; lia); repeat constructor.
Qed.

Lemma settle_handler (s : Step unit) :
  thread_free s ->
  workers (settle Handler s).2 = 0 /\ Forall quiet (settle Handler s).2.
Proof.
  intros Hs.
  destruct s as [[[] | e] w | w k | w k]; simpl in *; split;
    try reflexivity; try contradiction; repeat constructor.
  exact Hs.
Qed.

(** What a task turns into when it goes on. *)
Lemma settle_resumed r (s : Step unit) :
  (r = Handler -> thread_free s) ->
  workers (settle r s).2 <= (match r with Worker => 1 | Handler => 0 end)
  /\ Forall quiet (settle r s).2.
Proof.
  destruct r; intros Hs.
  - apply settle_worker.
  - destruct (settle_handler s (Hs eq_refl)) as [-> H]. split; [lia | exact H].
Qed.

Lemma one_caller_resumed i t new (l : list Task) w :
  l !! i = Some t ->
  one_caller l ->
  workers new.2 <= (if is_worker t then 1 else 0) ->
  Forall quiet new.2 ->
  one_caller (tasks (resumed i new (mkSystem w l))).
Proof.
  intros Hi [Hw Hq] Hn Hqn. unfold resumed. cbn [tasks].
  pose proof (take_drop_middle l i t Hi) as E.
  fold (workers l) in Hw. rewrite <- E in Hw, Hq.
  rewrite workers_app in Hw.
  change (t :: drop (S i) l) with ([t] ++ drop (S i) l) in Hw.
  rewrite workers_app in Hw.
  apply Forall_app in Hq as [Hq1 Hq2]. apply Forall_cons in Hq2 as [_ Hq2].
  split.
  - fold (workers (take i l ++ new.2 ++ drop (S i) l)).
    rewrite !workers_app.
    assert (workers [t] = if is_worker t then 1 else 0)
      by (unfold workers; simpl; destruct (is_worker t) eqn:Et;
          [rewrite filter_cons_True by exact Et
          | rewrite filter_cons_False by (rewrite Et; discriminate)];
          reflexivity).
    lia.
  - apply Forall_app. split; [exact Hq1 |].
    apply Forall_app. split; assumption.
Qed.

Lemma quiet_lookup (l : list Task) i t :
  Forall quiet l -> l !! i = Some t -> quiet t.
Proof. intros H Hi. eapply Forall_lookup_1; eauto. Qed.

Lemma step_one_caller s s' :
  step env front s s' -> one_caller (tasks s) -> one_caller (tasks s').
Proof.
  intros Hstep Hs. destruct s as [w l].
  destruct Hstep as [h Hh | w' | i job rest Hi _ | i r k answer Hi
                    | i r k Hi | i Hi _]; cbn [tasks world] in *.
  - destruct Hs as [Hw Hq].
    destruct (settle_handler (h w) (update_handler_never_calls h Hh w))
      as [Hw' Hq'].
    split.
    + fold (workers (l ++ (settle Handler (h w)).2)).
      rewrite workers_app, Hw'. fold (workers l) in Hw. lia.
    + apply Forall_app. split; assumption.
  - exact Hs.
  - apply (one_caller_resumed i at_get _ l w Hi Hs); apply settle_worker.
  - pose proof (quiet_lookup l i _ (proj2 Hs) Hi) as Hq.
    apply (one_caller_resumed i (in_thread r k) _ l w Hi Hs);
      destruct r; simpl in Hq; try contradiction; apply settle_worker.
  - pose proof (quiet_lookup l i _ (proj2 Hs) Hi) as Hq.
    apply (one_caller_resumed i (in_telegram r k) _ l w Hi Hs);
      destruct r; simpl in Hq;
      first [apply settle_worker | apply settle_handler, Hq
            | destruct (settle_handler (k w) (Hq w)) as [-> _]; simpl; lia].
  - apply (one_caller_resumed i at_get _ l w Hi Hs); simpl;
      [vm_compute; lia | constructor].
Qed.

Lemma reachable_one_caller w s :
  reachable env front (start w) s -> one_caller (tasks s).
Proof.
  induction 1 as [| s s' _ IH Hstep].
  - split; [vm_compute; lia | repeat constructor].
  - eapply step_one_caller; eauto.
Qed.

(** *** The calls in flight and the trace *)

Lemma settle_recorded r (s : Step unit) :
  records_its_calls s -> Forall recorded (settle r s).2.
Proof.
  intros Hs.
  destruct s as [[[] | e] w | w k | w k]; simpl in *;
    [destruct r | | |]; repeat constructor; try exact I.
  - intros a w'. apply Hs.
  - exact Hs.
Qed.

Lemma settle_calling r (s : Step unit) :
  records_its_calls s ->
  callers (settle r s).2 <> 0 ->
  ends_in_a_request (calls (settle r s).1).
Proof.
  intros Hs Hc.
  destruct s as [[[] | e] w | w k | w k]; simpl in *;
    [destruct r | | |]; try (exfalso; apply Hc; reflexivity).
  apply Hs.
Qed.

Lemma recorded_resumed i new (l : list Task) w :
  Forall recorded l -> Forall recorded new.2 ->
  Forall recorded (tasks (resumed i new (mkSystem w l))).
Proof.
  intros Hl Hn. unfold resumed. cbn [tasks].
  apply Forall_app. split; [apply Forall_take, Hl |].
  apply Forall_app. split; [exact Hn | apply Forall_drop, Hl].
Qed.

Lemma step_recorded s s' :
  step env front s s' -> Forall recorded (tasks s) ->
  Forall recorded (tasks s').
Proof.
  intros Hstep Hs. destruct s as [w l].
  destruct Hstep as [h Hh | w' | i job rest Hi _ | i r k answer Hi
                    | i r k Hi | i Hi _]; cbn [tasks world] in *.
  - apply Forall_app. split; [exact Hs |].
    apply settle_recorded, thread_free_records,
      (update_handler_never_calls h Hh).
  - exact Hs.
  - apply recorded_resumed; [exact Hs |].
    apply settle_recorded, recording_worker_turn.
  - apply recorded_resumed; [exact Hs |].
    apply settle_recorded.
    apply (Forall_lookup_1 _ _ _ _ Hs Hi).
  - apply recorded_resumed; [exact Hs |].
    apply settle_recorded.
    apply (Forall_lookup_1 _ _ _ _ Hs Hi).
  - apply recorded_resumed; [exact Hs | constructor].
Qed.

Lemma reachable_recorded w s :
  reachable env front (start w) s -> Forall recorded (tasks s).
Proof.
  induction 1 as [| s s' _ IH Hstep].
  - repeat constructor.
  - eapply step_recorded; eauto.
Qed.

Lemma callers_resumed i t new (l : list Task) :
  l !! i = Some t ->
  callers l < callers (take i l ++ new ++ drop (S i) l) ->
  callers new <> 0.
Proof.
  intros Hi. rewrite <- (take_drop_middle l i t Hi) at 1.
  change (t :: drop (S i) l) with ([t] ++ drop (S i) l).
  rewrite !callers_app. lia.
Qed.

(** A step that brings one more call in flight has just recorded that
    call. *)
Lemma step_starts_a_recorded_call s s' :
  step env front s s' -> Forall recorded (tasks s) ->
  in_flight s < in_flight s' ->
  ends_in_a_request (calls (world s')).
Proof.
  intros Hstep Hs. destruct s as [w l].
  destruct Hstep as [h Hh | w' | i job rest Hi _ | i r k answer Hi
                    | i r k Hi | i Hi _];
    unfold in_flight; cbn [tasks world resumed] in *;
    fold (callers l); intros Hlt.
  - fold (callers (l ++ (settle Handler (h w)).2)) in Hlt.
    rewrite callers_app in Hlt.
    apply settle_calling;
      [apply thread_free_records, (update_handler_never_calls h Hh) | lia].
  - lia.
  - apply settle_calling; [apply recording_worker_turn |].
    apply (callers_resumed i _ _ l Hi Hlt).
  - apply settle_calling; [apply (Forall_lookup_1 _ _ _ _ Hs Hi) |].
    apply (callers_resumed i _ _ l Hi Hlt).
  - apply settle_calling; [apply (Forall_lookup_1 _ _ _ _ Hs Hi) |].
    apply (callers_resumed i _ _ l Hi Hlt).
  - exfalso. apply (callers_resumed i _ (set_log
      (log w ++ [Log INFO "AI worker task stopping."]) w, []).2 l Hi Hlt).
    reflexivity.
Qed.

(** *** Runs of the loop given by what is resumed *)

Lemma reachable_deliver s0 s h :
  update_handler env front h ->
  reachable env front s0 s -> reachable env front s0 (deliver h s).
Proof.
  intros Hh Hs. eapply reach_step; [exact Hs |].
  apply (step_update env front s h Hh).
Qed.

Lemma reachable_resume s0 s i answer :
  reachable env front s0 s -> reachable env front s0 (resume env i answer s).
Proof.
  intros Hs. unfold resume.
  destruct (tasks s !! i) as [[| r k | r k] |] eqn:Hi; [| | | exact Hs].
  - destruct (REQUEST_QUEUE (world s)) as [| job rest] eqn:Hq; [exact Hs |].
    eapply reach_step; [exact Hs |].
    apply (step_get env front s i job rest Hi Hq).
  - eapply reach_step; [exact Hs |].
    apply (step_thread_done env front s i r k answer Hi).
  - eapply reach_step; [exact Hs |].
    apply (step_telegram_done env front s i r k Hi).
Qed.

End EventLoop.

(** ** The counter of unfinished tasks *)

#[local] Instance counted_preorder : PreOrder counted.
Proof.
  split.
  - intros w. exists []. rewrite app_nil_r. simpl. split; [reflexivity | lia].
  - intros a b c (x & Hx & Hx') (y & Hy & Hy'). exists (x ++ y).
    rewrite Hy, Hx, Hy', Hx', app_assoc, length_app. split; [reflexivity | lia].
Qed.

Section Counter.

Context (env : Env).

Lemma same_store_counted w w' : same_store w w' -> counted w w'.
Proof.
  intros (Hq & Hu & _). exists []. rewrite app_nil_r, Hq, Hu. simpl.
  split; [reflexivity | lia].
Qed.

Lemma counted_modify f :
  (forall w, REQUEST_QUEUE (f w) = REQUEST_QUEUE w) ->
  (forall w, unfinished_tasks (f w) = unfinished_tasks w) ->
  preserves env counted (modify f).
Proof.
  intros Hq Hu. apply preserves_modify. intros w. exists [].
  rewrite app_nil_r, Hq, Hu. simpl. split; [reflexivity | lia].
Qed.

Lemma counted_put job : preserves env counted (put job).
Proof.
  apply preserves_modify. intros w. exists [job]. simpl.
  split; [reflexivity | lia].
Qed.

Lemma counted_same_store {A} (m : M A) :
  preserves env same_store m -> preserves env counted m.
Proof. apply preserves_weaken. exact same_store_counted. Qed.

Lemma same_store_read {A} (f : World -> A) : preserves env same_store (read f).
Proof. apply preserves_read; apply _. Qed.

(** The coroutines that change nothing but the trace and the log. *)
Ltac same_store_leaf :=
  first
    [ apply same_store_telegram | apply same_store_logger
    | apply same_store_log_user | apply same_store_get_ai_response
    | apply same_store_send_final_response | apply same_store_read ].

Lemma counted_update_summary chat_id text :
  preserves env counted (db_utils.update_summary chat_id text).
Proof.
  apply preserves_bind; [apply _ | |].
  - apply counted_modify; reflexivity.
  - intros _. apply counted_same_store, same_store_logger.
Qed.

Lemma counted_consolidate context chat_id :
  preserves env counted (_consolidate_memory context chat_id).
Proof.
  apply preserves_bind; [apply _ | apply counted_put |].
  intros _. apply counted_same_store, same_store_logger.
Qed.

Ltac counted_leaf :=
  first
    [ apply counted_consolidate | apply counted_update_summary
    | apply counted_put
    | apply counted_modify; reflexivity
    | apply counted_same_store; same_store_leaf ].

Lemma counted_dispatch job : preserves env counted (dispatch env job).
Proof.
  unfold dispatch, process_chat_job, process_scene_gen_job,
    process_persona_gen_job, process_memory_job,
    db_utils.get_history_from_db, db_utils.get_summary,
    get_user_display_name, db_utils.add_message_to_db,
    set_generated_scene, set_generated_persona.
  frame; counted_leaf.
Qed.

(** What a turn of the worker does after the processor has raised. *)
Lemma run_worker_turn_raised job w e w1 :
  run env (dispatch env job w) = (Raise e, w1) ->
  run env (worker_turn env job w)
  = (Ret tt,
     match REQUEST_QUEUE w1, unfinished_tasks w1 with
     | _ :: _, S n =>
         set_unfinished n
           (set_log (log w1 ++ [Log ERROR "Error in AI worker dispatcher"]) w1)
     | _, _ =>
         set_log (log w1 ++ [Log ERROR "Error in AI worker dispatcher"]) w1
     end).
Proof.
  intros H. unfold worker_turn. rewrite run_try, run_bind, H.
  unfold logger. rewrite bind_modify, bind_read.
  cbn [REQUEST_QUEUE set_log].
  destruct (REQUEST_QUEUE w1) as [| next rest]; [reflexivity |].
  rewrite run_try. unfold task_done. cbn [unfinished_tasks set_log].
  destruct (unfinished_tasks w1); reflexivity.
Qed.

(** What a turn of the worker does after the processor has returned and
    the counter is not zero. *)
Lemma run_worker_turn_returned job w w1 n :
  run env (dispatch env job w) = (Ret tt, w1) ->
  unfinished_tasks w1 = S n ->
  run env (worker_turn env job w) = (Ret tt, set_unfinished n w1).
Proof.
  intros H Hu. unfold worker_turn. rewrite run_try, run_bind, H.
  unfold task_done. rewrite Hu. reflexivity.
Qed.

Lemma worker_turn_keeps_counted job w :
  length (REQUEST_QUEUE w) < unfinished_tasks w ->
  queue_is_counted (after env (worker_turn env job) w).
Proof.
  intros Hinv. unfold after, queue_is_counted.
  pose proof (counted_dispatch job w) as (added & Hq & Hu).
  destruct (run env (dispatch env job w)) as [[[] | e] w1] eqn:E;
    cbn [snd] in Hq, Hu;
    apply (f_equal (@length Job)) in Hq; rewrite length_app in Hq.
  - destruct (unfinished_tasks w1) as [| n] eqn:En; [lia |].
    rewrite (run_worker_turn_returned job w w1 n E En).
    cbn [snd]. change (REQUEST_QUEUE (set_unfinished n w1))
      with (REQUEST_QUEUE w1).
    change (unfinished_tasks (set_unfinished n w1)) with n. lia.
  - rewrite (run_worker_turn_raised job w e w1 E). cbn [snd].
    destruct (REQUEST_QUEUE w1) as [| next rest] eqn:Eq.
    + cbn [REQUEST_QUEUE set_log unfinished_tasks]. rewrite Eq.
      cbn [length]. lia.
    + destruct (unfinished_tasks w1) as [| n] eqn:En.
      * cbn [REQUEST_QUEUE set_log unfinished_tasks]. rewrite Eq, En.
        cbn [length] in *. lia.
      * cbn [REQUEST_QUEUE set_log set_unfinished unfinished_tasks].
        rewrite Eq. cbn [length] in *. lia.
Qed.

End Counter.

(** * The claims *)

Lemma worker_loop_length env fuel w :
  length (worker_loop env fuel w).1.1 <= fuel.
Proof.
  revert w. induction fuel as [| fuel IH]; intros w; simpl; [lia |].
  destruct (REQUEST_QUEUE w) as [| job rest]; simpl; [lia |].
  destruct (run env (worker_turn env job (set_queue rest w))) as [[[] | e] w1].
  - specialize (IH w1).
    destruct (worker_loop env fuel w1) as [[jobs ending] w2]. simpl in *. lia.
  - simpl. lia.
Qed.

Lemma queue_after_puts env jobs w :
  REQUEST_QUEUE (run env (for_each jobs put w)).2 = REQUEST_QUEUE w ++ jobs.
Proof.
  revert w. induction jobs as [| job jobs IH]; intros w; simpl for_each.
  - simpl. rewrite app_nil_r. reflexivity.
  - unfold put at 1. rewrite bind_modify, IH. simpl.
    rewrite <- app_assoc. reflexivity.
Qed.

(** ** The order of the handlers *)

Section Order.

Context (env : Env).

(** The [if]/[elif] chain of [ai_worker] runs the handler of the job's
    kind. *)
Lemma dispatch_handler job : dispatch env job = handler_of env job.
Proof.
  unfold dispatch, handler_of, handlers_by_kind, handler_of_kind.
  destruct (String.eqb (default "chat" (job_type job)) "chat");
    [reflexivity |].
  destruct (String.eqb (default "chat" (job_type job)) "generate_scene");
    [reflexivity |].
  destruct (String.eqb (default "chat" (job_type job)) "generate_persona");
    [reflexivity |].
  destruct (String.eqb (default "chat" (job_type job)) "consolidate_memory");
    reflexivity.
Qed.

(** A turn of the worker is the handler of the job and then the
    accounting of the loop, when the job that was taken was counted. *)
Lemma worker_turn_closes job w :
  length (REQUEST_QUEUE w) < unfinished_tasks w ->
  exists r v w1,
    run env (handler_of env job w) = (r, v)
    /\ run env (worker_turn env job w) = (Ret tt, w1)
    /\ closes r v w1.
Proof.
  intros Hinv. rewrite <- dispatch_handler.
  pose proof (counted_dispatch env job w) as (added & Hq & Hu).
  destruct (run env (dispatch env job w)) as [[[] | e] v] eqn:E;
    cbn [snd] in Hq, Hu.
  - destruct (unfinished_tasks v) as [| n] eqn:En; [lia |].
    exists (Ret tt), v, (set_unfinished n v).
    split; [reflexivity |].
    split; [apply (run_worker_turn_returned env job w v n E En) |].
    repeat split. cbn [log set_unfinished]. rewrite app_nil_r.
    reflexivity.
  - eexists (Raise e), v, _.
    split; [reflexivity |].
    split; [apply (run_worker_turn_raised env job w e v E) |].
    destruct (REQUEST_QUEUE v) as [| next rest] eqn:Eq;
      [| destruct (unfinished_tasks v)];
      repeat split; cbn [REQUEST_QUEUE set_log set_unfinished];
      rewrite ?Eq; reflexivity.
Qed.

Lemma worker_loop_handled fuel w :
  queue_is_counted w ->
  handled env (worker_loop env fuel w).1.1 w (worker_loop env fuel w).2.
Proof.
  revert w. induction fuel as [| fuel IH]; intros w Hinv;
    [apply handled_nil |].
  cbn [worker_loop].
  destruct (REQUEST_QUEUE w) as [| job rest] eqn:Eq; [apply handled_nil |].
  assert (Hlt : length (REQUEST_QUEUE (set_queue rest w))
                < unfinished_tasks (set_queue rest w)).
  { unfold queue_is_counted in Hinv. rewrite Eq in Hinv.
    cbn [REQUEST_QUEUE unfinished_tasks set_queue length] in *. lia. }
  destruct (worker_turn_closes job (set_queue rest w) Hlt)
    as (r & v & w1 & Eh & Et & Hcl).
  pose proof (worker_turn_keeps_counted env job (set_queue rest w) Hlt)
    as Hinv1.
  unfold after in Hinv1. rewrite Et in Hinv1 |- *. cbn [snd] in Hinv1.
  specialize (IH w1 Hinv1).
  destruct (worker_loop env fuel w1) as [[jobs ending] w2].
  cbn [fst snd] in *.
  exact (handled_cons env job rest jobs w v w1 w2 r Eq Eh Hcl IH).
Qed.

Lemma puts_counted jobs w :
  queue_is_counted w ->
  queue_is_counted (run env (for_each jobs put w)).2.
Proof.
  revert w. induction jobs as [| job jobs IH]; intros w Hw; [exact Hw |].
  simpl for_each. unfold put at 1. rewrite bind_modify. apply IH.
  unfold queue_is_counted in *.
  cbn [REQUEST_QUEUE unfinished_tasks set_unfinished set_queue].
  rewrite length_app. simpl. lia.
Qed.

(** C1. Jobs put on the empty queue before the worker takes any are
    taken off it and handled in the order in which they were put,
    whatever their kinds.  A run of the worker of at least as many turns
    as there are jobs takes exactly these jobs first, in the order of the
    puts (what comes after them was put by the handlers), a run of
    exactly that many turns takes them and nothing else, and no run ends
    by an exception.  The handlers have run one after the other in that
    order: each handler, the one of its job's kind, started in the world
    the one before had left, with its job taken off the queue, and ran to
    its end; the world the run ends in is the world the last of them
    left, but for the accounting of the loop. *)
Theorem worker_takes_jobs_in_enqueue_order fuel jobs w :
  REQUEST_QUEUE w = [] ->
  length jobs <= fuel ->
  exists more ending w',
    ai_worker env fuel (run env (for_each jobs put w)).2
    = (jobs ++ more, ending, w')
    /\ (fuel = length jobs -> more = [])
    /\ (forall e, ending <> Crashed e)
    /\ handled env (jobs ++ more)
         (started (run env (for_each jobs put w)).2) w'.
Proof.
  intros Hq Hl. unfold ai_worker.
  fold (started (run env (for_each jobs put w)).2).
  set (w0 := started _).
  assert (Hq0 : REQUEST_QUEUE w0 = jobs ++ []).
  { subst w0. unfold started. cbn [REQUEST_QUEUE set_log].
    rewrite queue_after_puts, Hq, app_nil_r. reflexivity. }
  destruct (worker_loop_takes env fuel jobs [] w0 Hq0 Hl)
    as (more & ending & w' & E & Hc).
  assert (Hinv : queue_is_counted w0).
  { subst w0. apply (puts_counted jobs w).
    unfold queue_is_counted. rewrite Hq. simpl. lia. }
  pose proof (worker_loop_handled fuel w0 Hinv) as Hh.
  rewrite E in Hh. cbn [fst snd] in Hh.
  exists more, ending, w'. split; [exact E |].
  split; [| split; [exact Hc | exact Hh]].
  intros ->. pose proof (worker_loop_length env (length jobs) w0) as H.
  rewrite E in H. simpl in H. rewrite length_app in H.
  destruct more; [reflexivity | simpl in H; lia].
Qed.

End Order.

Lemma worker_takes_jobs_in_enqueue_order_witness :
  (ai_worker fine 3
     (run fine (for_each three_jobs put (world_with (stored 2) ∅))).2).1.1
  = three_jobs
  /\ handled fine three_jobs
       (started
          (run fine (for_each three_jobs put (world_with (stored 2) ∅))).2)
       (ai_worker fine 3
          (run fine (for_each three_jobs put (world_with (stored 2) ∅))).2).2
  /\ map (fun messages => content <$> last messages)
       (requested
          (ai_worker fine 3
             (run fine
                (for_each three_jobs put (world_with (stored 2) ∅))).2).2)
     = [Some consolidation_prompt; Some "hello"; Some "a forest"].
Proof.
  destruct (worker_takes_jobs_in_enqueue_order fine 3 three_jobs
              (world_with (stored 2) ∅))
    as (more & ending & w' & E & Hm & _ & Hh).
  - reflexivity.
  - simpl. lia.
  - rewrite (Hm eq_refl), app_nil_r in E, Hh. rewrite E.
    split; [reflexivity |]. split; [exact Hh |].
    rewrite <- E. vm_compute. reflexivity.
Defined.

(** C2. In every state the event loop can reach from its start (the one
    worker that [post_init_callback] creates, parked at [get()]), with
    any number of updates arriving at any moment and their handlers
    running as tasks of the loop beside the worker, every task being
    resumed in any order, the number of tasks whose thread is in a call
    of the completion endpoint, which is what an endpoint that counts its
    concurrent calls sees, is at most one; and that number rises only in
    a step that has just recorded a call of the endpoint as the last call
    of the trace. *)
Theorem at_most_one_completion_call_in_flight env front w s :
  event_loop.reachable env front (event_loop.start w) s ->
  event_loop.in_flight s <= 1
  /\ forall s',
       event_loop.step env front s s' ->
       event_loop.in_flight s < event_loop.in_flight s' ->
       ends_in_a_request (calls (event_loop.world s')).
Proof.
  intros H. split.
  - apply reachable_one_caller in H. destruct H as [Hw Hq].
    pose proof (callers_workers _ Hq) as Hc.
    change (event_loop.in_flight s) with (callers (event_loop.tasks s)).
    lia.
  - intros s' Hstep. apply (step_starts_a_recorded_call env front s s' Hstep).
    apply (reachable_recorded env front w s H).
Qed.

Lemma at_most_one_completion_call_in_flight_witness :
  event_loop.in_flight second_message_during_the_call = 1
  /\ length (event_loop.tasks second_message_during_the_call) = 2
  /\ event_loop.in_flight second_message_during_the_call <= 1.
Proof.
  split; [vm_compute; reflexivity |].
  split; [vm_compute; reflexivity |].
  apply (at_most_one_completion_call_in_flight fine server_up
           (world_with [] alice_named)).
  unfold second_message_during_the_call, hello_call_started.
  repeat first
    [ apply reachable_resume
    | apply reachable_deliver; [apply event_loop.handles_message |] ].
  apply event_loop.reach_refl.
Defined.



Lemma chat_turn_rejected env update context user_text placeholder w :
  telegram_raises env (length (calls w)) = None ->
  accepted (response_text env (backend env (length (calls w) + 2))) = false ->
  exists w1,
    same_store w w1
    /\ run env
         (process_chat_job env
            (chat_job update context user_text placeholder) w)
       = run env
           (send_final_response env update
              (response_text env (backend env (length (calls w) + 2)))
              placeholder w1)
    /\ same_store w
         (run env
            (process_chat_job env
               (chat_job update context user_text placeholder) w)).2.
Proof.
  intros Ht Hrej.
  destruct (process_chat_job_run env update context user_text placeholder w Ht)
    as (w1 & Hs & _ & E).
  rewrite finish_chat_turn_rejected in E by exact Hrej.
  exists w1. split; [exact Hs |]. split; [exact E |].
  rewrite E. etransitivity; [exact Hs |].
  apply same_store_send_final_response.
Qed.

(** The fault texts that pass the test of [process_chat_job] and those
    that do not. *)
Lemma fault_texts_accepted :
  accepted timeout_text = false /\ accepted critical_text = false
  /\ accepted connection_text = true /\ accepted no_client_text = true.
Proof. vm_compute. auto. Qed.





(** C5, at the failing input.  When the completion endpoint cannot be
    reached, the chat turn delivers the fixed text of the connection
    fault and then writes the user message and that text, as the reply of
    the assistant, to the history. *)
Theorem connection_fault_turn_is_persisted :
  last (calls
          (run unreachable
             (process_chat_job unreachable hello_job_with_placeholder
                empty_world)).2)
  = Some (edit_text 101 connection_text)
  /\ conversations
       (run unreachable
          (process_chat_job unreachable hello_job_with_placeholder
             empty_world)).2
     = [mkRow alice "user" "hello"; mkRow alice "assistant" connection_text].
Proof. vm_compute. auto. Qed.

(** The other faults of the completion call leave the history alone. *)
Lemma timeout_and_unexpected_fault_not_persisted env update context user_text
    placeholder w e :
  lm_studio_client env = true ->
  telegram_raises env (length (calls w)) = None ->
  backend env (length (calls w) + 2) = api_raises e ->
  e <> APIConnectionError ->
  same_store w
    (run env
       (process_chat_job env (chat_job update context user_text placeholder)
          w)).2.
Proof.
  intros Hclient Ht Hb He.
  destruct (chat_turn_rejected env update context user_text placeholder w Ht)
    as (_ & _ & _ & H); [| exact H].
  unfold response_text. rewrite Hclient, Hb.
  destruct e; try reflexivity. contradiction.
Qed.

(** C6. Two consolidations of a chat in a row, the first with the
    summary [a] and the second with the summary [b], both non-empty: after
    the first the stored summary ends with [a] (it is [a] when nothing was
    stored, and the old summary, two newlines and [a] when a stripped
    summary was stored); after the second it is the summary stored by the
    first, two newlines, and [b]. *)
Theorem consolidation_accumulates env chat_id context w a b :
  lm_studio_client env = true ->
  total_messages chat_id w <> 0 ->
  telegram_raises env (length (calls w)) = None ->
  telegram_raises env (length (calls w) + 3) = None ->
  answer_text (backend env (length (calls w) + 2)) = a ->
  answer_text (backend env (length (calls w) + 5)) = b ->
  pystr.truthy a = true ->
  pystr.truthy b = true ->
  exists r1 w1 r2 w2 s1 p,
    run env (process_memory_job env (consolidate_memory_job chat_id context) w)
    = (r1, w1)
    /\ run env
         (process_memory_job env (consolidate_memory_job chat_id context) w1)
       = (r2, w2)
    /\ long_term_memory w1 !! chat_id = Some s1
    /\ s1 = p +:+ a
    /\ (long_term_memory w !! chat_id = None -> s1 = a)
    /\ (forall old,
          long_term_memory w !! chat_id = Some old ->
          pystr.strip old = old -> pystr.truthy old = true ->
          s1 = old +:+ pystr.nl +:+ pystr.nl +:+ a)
    /\ long_term_memory w2 !! chat_id
       = Some (s1 +:+ pystr.nl +:+ pystr.nl +:+ b).
Proof.
  intros Hclient Hn Ht1 Ht2 Ha Hb Hta Htb.
  assert (Hsa : pystr.strip a = a) by (rewrite <- Ha; apply answer_text_stripped).
  assert (Hsb : pystr.strip b = b) by (rewrite <- Hb; apply answer_text_stripped).
  destruct (process_memory_job_run env chat_id context w Ht1 Hn)
    as (w0 & (_ & _ & Hc0 & Hm0 & _) & Hl0 & E1).
  unfold response_text in E1. rewrite Hclient, Ha in E1. rewrite Hclient in Hl0.
  destruct (finish_memory_turn_stores env chat_id a w0 Hta)
    as (r1 & w1 & F1 & Hm1 & Hc1 & _ & Hl1 & _).
  rewrite F1 in E1. rewrite Hm0 in Hm1.
  set (s1 := pystr.strip (accumulated (long_term_memory w !! chat_id) a)) in *.
  destruct (accumulated_stripped (long_term_memory w !! chat_id) a Hsa Hta)
    as (Hs1 & Hts1 & p & Hp).
  fold s1 in Hs1, Hts1, Hp.
  assert (Hlook : long_term_memory w1 !! chat_id = Some s1)
    by (rewrite Hm1; apply lookup_insert_eq).
  destruct (process_memory_job_run env chat_id context w1) as
    (w0' & (_ & _ & _ & Hm0' & _) & _ & E2).
  { rewrite Hl1, Hl0.
    replace (length (calls w) + 2 + 1) with (length (calls w) + 3) by lia.
    exact Ht2. }
  { unfold total_messages in *. rewrite Hc1, Hc0. exact Hn. }
  unfold response_text in E2. rewrite Hclient, Hl1, Hl0 in E2.
  replace (length (calls w) + 2 + 1 + 2) with (length (calls w) + 5) in E2
    by lia.
  rewrite Hb in E2.
  destruct (finish_memory_turn_stores env chat_id b w0' Htb)
    as (r2 & w2 & F2 & Hm2 & _).
  rewrite F2 in E2. rewrite Hm0', Hlook in Hm2.
  rewrite (accumulated_onto_stripped s1 b Hs1 Hts1 Hsb Htb) in Hm2.
  exists r1, w1, r2, w2, s1, p.
  repeat split; try assumption.
  - intros Hnone. subst s1. rewrite Hnone. exact Hsa.
  - intros old Hold Hso Hto. subst s1. rewrite Hold.
    apply accumulated_onto_stripped; assumption.
  - rewrite Hm2. apply lookup_insert_eq.
Qed.

Lemma consolidation_accumulates_witness :
  exists r1 w1 r2 w2,
    run first_a_then_b (process_memory_job first_a_then_b alice_memory_job
                          (world_with (stored 2) ∅))
    = (r1, w1)
    /\ run first_a_then_b (process_memory_job first_a_then_b alice_memory_job w1)
       = (r2, w2)
    /\ long_term_memory w1 !! alice = Some "A"
    /\ long_term_memory w2 !! alice
       = Some ("A" +:+ pystr.nl +:+ pystr.nl +:+ "B").
Proof.
  destruct (consolidation_accumulates first_a_then_b alice alice_context
              (world_with (stored 2) ∅) "A" "B")
    as (r1 & w1 & r2 & w2 & s1 & p & E1 & E2 & H1 & _ & Hnone & _ & H2);
    try reflexivity.
  - vm_compute. lia.
  - assert (Hs : s1 = "A") by (apply Hnone; reflexivity).
    subst s1.
    exists r1, w1, r2, w2. repeat split; assumption.
Defined.

(** C7, at the failing input.  When the completion call of a
    consolidation times out, the fixed text of the timeout is stored as
    the summary of the chat and the notice of a new memory is sent;
    nothing is put on the queue. *)
Theorem consolidation_stores_the_fault_text :
  long_term_memory (world_with (stored 2) ∅) !! alice = None
  /\ long_term_memory
       (run timing_out
          (process_memory_job timing_out alice_memory_job
             (world_with (stored 2) ∅))).2 !! alice
     = Some timeout_text
  /\ last (calls
             (run timing_out
                (process_memory_job timing_out alice_memory_job
                   (world_with (stored 2) ∅))).2)
     = Some (send_message alice memory_formed_text)
  /\ REQUEST_QUEUE
       (run timing_out
          (process_memory_job timing_out alice_memory_job
             (world_with (stored 2) ∅))).2
     = [].
Proof. vm_compute. auto. Qed.

(** The parts of C7 the code keeps: an empty completion changes nothing
    but the call trace and the log, and no consolidation puts a job on
    the queue. *)
Lemma empty_summary_is_dropped env chat_id context w :
  telegram_raises env (length (calls w)) = None ->
  total_messages chat_id w <> 0 ->
  response_text env (backend env (length (calls w) + 2)) = "" ->
  same_store w
    (run env
       (process_memory_job env (consolidate_memory_job chat_id context) w)).2.
Proof.
  intros Ht Hn He.
  destruct (process_memory_job_run env chat_id context w Ht Hn)
    as (w1 & Hs & _ & E).
  rewrite E, He, finish_memory_turn_empty. exact Hs.
Qed.

Lemma consolidation_never_requeues env job w :
  REQUEST_QUEUE (run env (process_memory_job env job w)).2 = REQUEST_QUEUE w.
Proof. apply same_queue_process_memory_job. Qed.

(** C8. [_get_ai_response] returns a text and never raises: the stripped
    content of the first choice when the call returns one, the fixed text
    of the timeout for [APITimeoutError], the fixed text of the connection
    fault for [APIConnectionError], the fixed text of the critical error
    for anything else, and the fixed text of the missing client when
    there is no client; each of these fixed texts is non-empty. *)
Theorem get_ai_response_always_returns_text env messages user_display_name w :
  exists w',
    run env (_get_ai_response env messages user_display_name w)
    = (Ret
         (if lm_studio_client env
          then
            match backend env (S (length (calls w))) with
            | completion (Some content :: _) => pystr.strip content
            | api_raises APITimeoutError => timeout_text
            | api_raises APIConnectionError => connection_text
            | _ => critical_text
            end
          else no_client_text),
       w')
    /\ pystr.truthy timeout_text = true
    /\ pystr.truthy connection_text = true
    /\ pystr.truthy critical_text = true
    /\ pystr.truthy no_client_text = true.
Proof.
  destruct (get_ai_response_run env messages user_display_name w)
    as (w' & E & _).
  exists w'. split; [exact E |]. repeat split.
Qed.

Lemma message_parts_full n text k part :
  0 < n ->
  message_parts n text !! k = Some part ->
  S k < length (message_parts n text) ->
  pystr.len part = n.
Proof.
  intros Hn Hk Hlast.
  rewrite message_parts_length in Hlast.
  rewrite message_parts_chunks in Hk.
  rewrite !list_lookup_fmap in Hk.
  destruct (seq 0 ((pystr.len text + n - 1) / n) !! k) as [i |] eqn:Ei;
    [| discriminate].
  apply lookup_seq in Ei. destruct Ei as [-> _].
  simpl in Hk. injection Hk as <-.
  rewrite len_chars, chars_str, length_take, length_drop, <- len_chars.
  pose proof (Nat.div_mod_eq (pystr.len text + n - 1) n) as H.
  pose proof (Nat.mod_upper_bound (pystr.len text + n - 1) n ltac:(lia)) as H'.
  nia.
Qed.

(** A long text whose edit into the placeholder is refused goes out in
    two parts after the attempt. *)
Example refused_edit_falls_back_to_parts :
  calls
    (run (edit_refused (completion []))
       (send_final_response (edit_refused (completion [])) alice_update
          (long_text 5000) (Some 101%Z) empty_world)).2
  = [edit_text 101 (long_text 5000);
     reply_text 100 (long_text 4096) [];
     reply_text 100 (long_text 904) []].
Proof. vm_compute. reflexivity. Qed.

(** C9.  A text longer than the maximum length of a message cannot go
    into the placeholder: Telegram refuses that edit with a [BadRequest]
    (other than "Message is not modified"), when there is a placeholder
    at all.  [send_final_response] then sends the parts of the text in
    order, one [reply_text] each, as long as no send fails; every part
    has at most the maximum length, every part but the last has exactly
    that length, the parts put together are the text, and a text of
    10,000 characters goes out in 3 parts. *)
Theorem long_text_is_posted_in_parts env update text placeholder w :
  config.TELEGRAM_MAX_MESSAGE_LENGTH < pystr.len text ->
  posts_new_message env placeholder w ->
  (forall n,
      length (calls w) + length (edit_attempt placeholder text) <= n ->
      telegram_raises env n = None) ->
  Forall (fun part => pystr.len part <= config.TELEGRAM_MAX_MESSAGE_LENGTH)
         (message_parts config.TELEGRAM_MAX_MESSAGE_LENGTH text)
  /\ (forall k part,
        message_parts config.TELEGRAM_MAX_MESSAGE_LENGTH text !! k = Some part ->
        S k < length (message_parts config.TELEGRAM_MAX_MESSAGE_LENGTH text) ->
        pystr.len part = config.TELEGRAM_MAX_MESSAGE_LENGTH)
  /\ join (message_parts config.TELEGRAM_MAX_MESSAGE_LENGTH text) = text
  /\ (pystr.len text = 10 * 1000 ->
      length (message_parts config.TELEGRAM_MAX_MESSAGE_LENGTH text) = 3)
  /\ exists w',
       run env (send_final_response env update text placeholder w)
       = (Ret tt, w')
       /\ calls w' =
          calls w ++ edit_attempt placeholder text ++
          map (fun part => reply_text (effective_message update) part [])
              (message_parts config.TELEGRAM_MAX_MESSAGE_LENGTH text).
Proof.
  intros Hlong Hpost Hok.
  assert (Hpos : 0 < config.TELEGRAM_MAX_MESSAGE_LENGTH)
    by (unfold config.TELEGRAM_MAX_MESSAGE_LENGTH; lia).
  split; [apply message_parts_bounded |].
  split; [intros k part; apply message_parts_full; exact Hpos |].
  split; [apply message_parts_join; exact Hpos |].
  split.
  - intros Hlen. rewrite message_parts_length, Hlen. vm_compute. reflexivity.
  - apply send_final_response_posts; assumption.
Qed.

Lemma long_text_is_posted_in_parts_witness :
  join (message_parts config.TELEGRAM_MAX_MESSAGE_LENGTH (long_text (10 * 1000)))
  = long_text (10 * 1000)
  /\ length (message_parts config.TELEGRAM_MAX_MESSAGE_LENGTH
               (long_text (10 * 1000))) = 3
  /\ exists w',
       run (edit_refused (completion []))
         (send_final_response (edit_refused (completion [])) alice_update
            (long_text (10 * 1000)) (Some 101%Z) empty_world)
       = (Ret tt, w')
       /\ calls w' =
          edit_text 101 (long_text (10 * 1000))
          :: map (fun part => reply_text 100 part [])
               (message_parts config.TELEGRAM_MAX_MESSAGE_LENGTH
                  (long_text (10 * 1000))).
Proof.
  destruct (long_text_is_posted_in_parts (edit_refused (completion []))
              alice_update (long_text (10 * 1000)) (Some 101%Z) empty_world)
    as (_ & _ & Hjoin & Hthree & Hrun).
  - apply Nat.ltb_lt. vm_compute. reflexivity.
  - exists "Message is too long". split; reflexivity.
  - intros [| n] Hn; [simpl in Hn; lia | reflexivity].
  - split; [exact Hjoin |]. split; [| exact Hrun].
    apply Hthree. vm_compute. reflexivity.
Defined.

(** C10. When the completion call of a chat job succeeds and the reply
    contains "error" or "timed out", the turn goes on as the delivery of
    that reply by [send_final_response] and nothing else: no message is
    written to the history and nothing is put on the queue (the stored
    data is as it was before the turn). *)
Theorem reply_with_a_fault_word_is_not_persisted
    env update context user_text placeholder w content rest :
  lm_studio_client env = true ->
  telegram_raises env (length (calls w)) = None ->
  backend env (length (calls w) + 2) = completion (Some content :: rest) ->
  pystr.contains "error" (pystr.strip content)
  || pystr.contains "timed out" (pystr.strip content) = true ->
  exists w1,
    same_store w w1
    /\ run env
         (process_chat_job env
            (chat_job update context user_text placeholder) w)
       = run env
           (send_final_response env update (pystr.strip content) placeholder
              w1)
    /\ conversations
         (run env
            (process_chat_job env
               (chat_job update context user_text placeholder) w)).2
       = conversations w
    /\ REQUEST_QUEUE
         (run env
            (process_chat_job env
               (chat_job update context user_text placeholder) w)).2
       = REQUEST_QUEUE w
    /\ long_term_memory
         (run env
            (process_chat_job env
               (chat_job update context user_text placeholder) w)).2
       = long_term_memory w.
Proof.
  intros Hclient Ht Hb Hword.
  destruct (chat_turn_rejected env update context user_text placeholder w Ht)
    as (w1 & Hs & E & (Hq & _ & Hc & Hm & _)).
  - unfold response_text. rewrite Hclient, Hb. simpl answer_text.
    unfold accepted.
    destruct (pystr.contains "error" (pystr.strip content));
      [rewrite andb_false_r; reflexivity |].
    simpl in Hword. rewrite Hword. apply andb_false_r.
  - unfold response_text in E. rewrite Hclient, Hb in E. simpl answer_text in E.
    exists w1. split; [exact Hs |]. split; [exact E |].
    split; [exact Hc |]. split; [exact Hq | exact Hm].
Qed.

Lemma reply_with_a_fault_word_is_not_persisted_witness :
  pystr.contains "error" "There was an error in my last answer." = true
  /\ conversations
       (run apologetic (process_chat_job apologetic hello_job thirteen)).2
     = conversations thirteen
  /\ REQUEST_QUEUE
       (run apologetic (process_chat_job apologetic hello_job thirteen)).2
     = REQUEST_QUEUE thirteen.
Proof.
  split; [vm_compute; reflexivity |].
  destruct (reply_with_a_fault_word_is_not_persisted apologetic alice_update
              alice_context "hello" None thirteen
              "There was an error in my last answer." [])
    as (w1 & _ & _ & Hc & Hq & _).
  - reflexivity.
  - reflexivity.
  - reflexivity.
  - vm_compute. reflexivity.
  - split; [exact Hc | exact Hq].
Defined.

(** * Further properties *)

(** ** db_utils.py *)

Section Database.

Context (env : Env).

Lemma rows_of_app chat_id (t1 t2 : list Row) :
  db_utils.rows_of chat_id (t1 ++ t2)
  = db_utils.rows_of chat_id t1 ++ db_utils.rows_of chat_id t2.
Proof. apply filter_app. Qed.

Lemma rev_reverse {A : Type} (l : list A) : rev l = reverse l.
Proof. apply rev_alt. Qed.

Lemma rows_of_rev chat_id (t : list Row) :
  db_utils.rows_of chat_id (rev t) = rev (db_utils.rows_of chat_id t).
Proof.
  unfold db_utils.rows_of. rewrite !rev_reverse. apply filter_reverse.
Qed.

Lemma rows_of_delete_first n chat_id (t : list Row) :
  db_utils.rows_of chat_id (db_utils.delete_first n chat_id t)
  = drop n (db_utils.rows_of chat_id t).
Proof.
  revert n. induction t as [| r t IH]; intros n.
  - destruct n; reflexivity.
  - destruct n as [| n]; [reflexivity |]. simpl.
    unfold db_utils.rows_of in *.
    destruct (decide (row_chat_id r = chat_id)) as [E | E].
    + rewrite filter_cons_True by exact E. simpl. apply IH.
    + rewrite !filter_cons_False by exact E.
      apply IH.
Qed.

Lemma rows_of_delete_first_other n chat_id other (t : list Row) :
  other <> chat_id ->
  db_utils.rows_of other (db_utils.delete_first n chat_id t)
  = db_utils.rows_of other t.
Proof.
  intros Hne. revert n. induction t as [| r t IH]; intros n.
  - destruct n; reflexivity.
  - destruct n as [| n]; [reflexivity |]. simpl.
    unfold db_utils.rows_of in *.
    destruct (decide (row_chat_id r = chat_id)) as [E | E].
    + rewrite filter_cons_False by congruence. apply IH.
    + destruct (decide (row_chat_id r = other)) as [E' | E'].
      * rewrite !filter_cons_True by exact E'. f_equal. apply IH.
      * rewrite !filter_cons_False by exact E'. apply IH.
Qed.

Lemma rows_of_cleared chat_id other (t : list Row) :
  db_utils.rows_of other (filter (fun r => row_chat_id r <> chat_id) t)
  = if decide (other = chat_id) then [] else db_utils.rows_of other t.
Proof.
  unfold db_utils.rows_of. induction t as [| r t IH]; simpl.
  - destruct (decide (other = chat_id)); reflexivity.
  - destruct (decide (row_chat_id r = chat_id)) as [E | E].
    + rewrite (filter_cons_False (fun r => row_chat_id r <> chat_id))
        by (intros H; apply H; exact E).
      rewrite IH. destruct (decide (other = chat_id)) as [-> | Ho];
        [reflexivity |].
      rewrite filter_cons_False by congruence. reflexivity.
    + rewrite (filter_cons_True (fun r => row_chat_id r <> chat_id))
        by exact E.
      destruct (decide (row_chat_id r = other)) as [E' | E'].
      * rewrite !filter_cons_True by exact E'. rewrite IH.
        destruct (decide (other = chat_id)); [congruence | reflexivity].
      * rewrite !filter_cons_False by exact E'. exact IH.
Qed.

Lemma history_all chat_id w :
  history chat_id 0 w
  = (map (fun r => mkMessage (row_role r) (row_content r))
         (db_utils.rows_of chat_id (conversations w)),
     length (db_utils.rows_of chat_id (conversations w))).
Proof. reflexivity. Qed.

Lemma history_limit chat_id limit w :
  history chat_id limit w
  = ((if limit =? 0 then (history chat_id 0 w).1
      else drop (length (history chat_id 0 w).1 - limit)
                (history chat_id 0 w).1),
     (history chat_id 0 w).2).
Proof.
  unfold history, db_utils.get_history_from_db, read. simpl.
  destruct (limit =? 0); [reflexivity |].
  rewrite length_map, skipn_map. reflexivity.
Qed.

(** The table after messages were added to a chat. *)
Lemma conversations_after_adds chat_id (msgs : list Message) w :
  conversations
    (after env
       (for_each msgs
          (fun m => db_utils.add_message_to_db chat_id (role m) (content m)))
       w)
  = conversations w
    ++ map (fun m => mkRow chat_id (role m) (content m)) msgs.
Proof.
  unfold after. revert w. induction msgs as [| m msgs IH]; intros w.
  - simpl. rewrite app_nil_r. reflexivity.
  - simpl for_each. unfold db_utils.add_message_to_db at 1.
    rewrite bind_modify, IH. cbn [conversations set_conversations map].
    rewrite <- app_assoc. reflexivity.
Qed.

Lemma rows_of_added chat_id (msgs : list Message) :
  db_utils.rows_of chat_id
    (map (fun m => mkRow chat_id (role m) (content m)) msgs)
  = map (fun m => mkRow chat_id (role m) (content m)) msgs.
Proof.
  unfold db_utils.rows_of. induction msgs as [| m msgs IH]; [reflexivity |].
  cbn [map]. rewrite filter_cons_True by reflexivity. rewrite IH.
  reflexivity.
Qed.

(** X1. The messages added last are the ones a bounded read returns:
    after the messages [msgs] were added to a chat, a read of the chat
    with a limit from 1 to their number returns exactly the last [limit]
    of them, in the order in which they were added, whatever was stored
    before and whatever is stored of other chats; the count it returns
    is the number of messages stored before plus their number. *)
Theorem latest_messages_are_read_back chat_id limit (msgs : list Message) w :
  0 < limit ->
  limit <= length msgs ->
  history chat_id limit
    (after env
       (for_each msgs
          (fun m => db_utils.add_message_to_db chat_id (role m) (content m)))
       w)
  = (drop (length msgs - limit) msgs,
     total_messages chat_id w + length msgs).
Proof.
  intros Hpos Hle. rewrite history_limit, !history_all.
  rewrite conversations_after_adds, rows_of_app, rows_of_added.
  destruct (limit =? 0) eqn:E; [apply Nat.eqb_eq in E; lia |].
  cbn [fst snd]. unfold total_messages.
  set (old := db_utils.rows_of chat_id (conversations w)).
  rewrite !length_map, !length_app, !length_map. f_equal.
  rewrite map_app, drop_app, length_map.
  rewrite drop_ge by (rewrite length_map; lia).
  rewrite map_map. cbn [app].
  replace (length old + length msgs - limit - length old)
    with (length msgs - limit) by lia.
  f_equal. clear. induction msgs as [| [r c] msgs IH]; [reflexivity |].
  cbn [map]. rewrite IH. reflexivity.
Qed.

(** X2. A message added to a chat is the last message of the next
    unbounded read of that chat, whose count goes up by one; what is read
    of any other chat is as before. *)
Theorem added_message_is_read_back chat_id role content other w :
  history other 0
    (after env (db_utils.add_message_to_db chat_id role content) w)
  = if decide (other = chat_id)
    then ((history other 0 w).1 ++ [mkMessage role content],
          (history other 0 w).2 + 1)
    else history other 0 w.
Proof.
  rewrite !history_all. unfold after. simpl.
  rewrite rows_of_app. unfold db_utils.rows_of at 2 4.
  destruct (decide (other = chat_id)) as [-> | Hne].
  - rewrite filter_cons_True by reflexivity. rewrite filter_nil.
    rewrite map_app, length_app. reflexivity.
  - rewrite filter_cons_False by (simpl; congruence). rewrite filter_nil.
    rewrite app_nil_r. reflexivity.
Qed.

(** X3. After [clear_history_in_db] nothing is read of the chat, neither
    messages nor a summary, whatever the bound of the read; the messages
    and the summary of any other chat are as before. *)
Theorem cleared_chat_is_empty chat_id other limit w :
  history other limit (after env (db_utils.clear_history_in_db chat_id) w)
  = (if decide (other = chat_id) then ([], 0) else history other limit w)
  /\ summary other (after env (db_utils.clear_history_in_db chat_id) w)
     = if decide (other = chat_id) then None else summary other w.
Proof.
  split.
  - rewrite (history_limit other limit w), history_limit, !history_all.
    unfold after. simpl. rewrite rows_of_cleared.
    destruct (decide (other = chat_id)); [| reflexivity].
    simpl. destruct (limit =? 0); reflexivity.
  - unfold summary, after. simpl.
    destruct (decide (other = chat_id)) as [-> | Hne].
    + apply lookup_delete_eq.
    + apply lookup_delete_ne. congruence.
Qed.

(** X4. [delete_last_interaction_from_db] removes the last two messages
    of the chat, or all of them when there are fewer, and nothing else:
    the earlier messages of the chat stay in order, the messages of any
    other chat and every summary are as before. *)
Theorem last_interaction_is_deleted chat_id other w :
  history other 0
    (after env (db_utils.delete_last_interaction_from_db chat_id) w)
  = (if decide (other = chat_id)
     then (take ((history other 0 w).2 - 2) (history other 0 w).1,
           (history other 0 w).2 - 2)
     else history other 0 w)
  /\ long_term_memory
       (after env (db_utils.delete_last_interaction_from_db chat_id) w)
     = long_term_memory w.
Proof.
  split; [| reflexivity].
  rewrite !history_all. unfold after. simpl.
  rewrite rows_of_rev.
  destruct (decide (other = chat_id)) as [-> | Hne].
  - rewrite rows_of_delete_first, rows_of_rev.
    set (rows := db_utils.rows_of chat_id (conversations w)).
    assert (E : rev (drop 2 (rev rows)) = take (length rows - 2) rows).
    { rewrite !rev_reverse, drop_reverse, reverse_involutive.
      reflexivity. }
    rewrite E, <- firstn_map. f_equal.
    rewrite length_take. lia.
  - rewrite rows_of_delete_first_other by exact Hne.
    rewrite rows_of_rev, rev_involutive. reflexivity.
Qed.


End Database.

Lemma latest_messages_are_read_back_witness :
  history alice 2
    (after fine
       (for_each
          [mkMessage "user" "x"; mkMessage "assistant" "y";
           mkMessage "user" "z"]
          (fun m => db_utils.add_message_to_db alice (role m) (content m)))
       two_chats)
  = ([mkMessage "assistant" "y"; mkMessage "user" "z"], 6).
Proof.
  apply (latest_messages_are_read_back fine alice 2
           [mkMessage "user" "x"; mkMessage "assistant" "y";
            mkMessage "user" "z"] two_chats); simpl; lia.
Defined.

(** ** send_final_response *)

Section DeliveryFaults.

Context (env : Env).

Lemma run_for_each_reply message parts w :
  run env
    (for_each parts (fun part => telegram env (reply_text message part [])) w)
  = match first_failure env (length (calls w)) (length parts) with
    | None =>
        (Ret tt,
         set_calls
           (calls w ++ map (fun part => reply_text message part []) parts) w)
    | Some (k, e) =>
        (Raise e,
         set_calls
           (calls w ++
            map (fun part => reply_text message part []) (take (S k) parts))
           w)
    end.
Proof.
  revert w. induction parts as [| part parts IH]; intros w; simpl for_each.
  - simpl. rewrite set_calls_nil. reflexivity.
  - rewrite run_bind, run_telegram. simpl first_failure.
    destruct (telegram_raises env (length (calls w))) as [e |].
    + reflexivity.
    + rewrite IH.
      match goal with
      | |- context [first_failure env (length (calls ?x))] =>
          replace (length (calls x)) with (S (length (calls w)))
            by (simpl; rewrite length_app; simpl; lia)
      end.
      destruct (first_failure env (S (length (calls w))) (length parts))
        as [[k e] |]; rewrite set_calls_twice; reflexivity.
Qed.

Lemma first_failure_found start n k e :
  k < n ->
  (forall i, i < k -> telegram_raises env (start + i) = None) ->
  telegram_raises env (start + k) = Some e ->
  first_failure env start n = Some (k, e).
Proof.
  revert start k. induction n as [| n IH]; intros start k Hk Hok He; [lia |].
  simpl. destruct k as [| k].
  - rewrite Nat.add_0_r in He. rewrite He. reflexivity.
  - rewrite <- (Nat.add_0_r start), (Hok 0) by lia.
    rewrite Nat.add_0_r, (IH (S start) k); [reflexivity | lia | |].
    + intros i Hi. replace (S start + i) with (start + S i) by lia.
      apply Hok. lia.
    + replace (S start + k) with (start + S k) by lia. exact He.
Qed.

Lemma message_parts_nonempty n text :
  0 < n -> Forall (fun part => pystr.truthy part = true) (message_parts n text).
Proof.
  intros Hn. rewrite message_parts_chunks. apply Forall_forall.
  intros part Hin.
  apply list_elem_of_In, in_map_iff in Hin. destruct Hin as (l & <- & Hin).
  apply in_map_iff in Hin. destruct Hin as (k & <- & Hk).
  apply in_seq in Hk. apply truthy_chars. rewrite chars_str.
  intros E. apply (f_equal (@length ascii)) in E.
  rewrite length_take, length_drop, <- len_chars in E. simpl in E.
  pose proof (Nat.div_mod_eq (pystr.len text + n - 1) n) as H.
  pose proof (Nat.mod_upper_bound (pystr.len text + n - 1) n ltac:(lia)) as H'.
  nia.
Qed.

Lemma truthy_text_to_send text : pystr.truthy (text_to_send text) = true.
Proof.
  unfold text_to_send. destruct (pystr.truthy text) eqn:E; [exact E |].
  reflexivity.
Qed.

(** What the second [try] block of [send_final_response] does. *)
Lemma run_post update text w :
  exists posted,
    run env
      (try_except
         (if pystr.len text <=? config.TELEGRAM_MAX_MESSAGE_LENGTH
          then telegram env (reply_text (effective_message update) text [])
          else
            for_each (message_parts config.TELEGRAM_MAX_MESSAGE_LENGTH text)
              (fun part =>
                 telegram env (reply_text (effective_message update) part [])))
         (fun e =>
            Some
              (logger ERROR
                 ("Failed to send final response as new message: "
                  +:+ str_exn e)))
         w)
    = (Ret tt,
       set_log
         (log w ++
          match
            (if pystr.len text <=? config.TELEGRAM_MAX_MESSAGE_LENGTH
             then first_failure env (length (calls w)) 1
             else
               first_failure env (length (calls w))
                 (length
                    (message_parts config.TELEGRAM_MAX_MESSAGE_LENGTH text)))
          with
          | Some (_, e) =>
              [Log ERROR
                 ("Failed to send final response as new message: "
                  +:+ str_exn e)]
          | None => []
          end)
         (set_calls (calls w ++ posted) w))
    /\ posted =
       map (fun part => reply_text (effective_message update) part [])
         (if pystr.len text <=? config.TELEGRAM_MAX_MESSAGE_LENGTH
          then [text]
          else
            match
              first_failure env (length (calls w))
                (length (message_parts config.TELEGRAM_MAX_MESSAGE_LENGTH text))
            with
            | Some (k, _) =>
                take (S k)
                  (message_parts config.TELEGRAM_MAX_MESSAGE_LENGTH text)
            | None => message_parts config.TELEGRAM_MAX_MESSAGE_LENGTH text
            end).
Proof.
  eexists. split; [| reflexivity].
  rewrite run_try.
  destruct (pystr.len text <=? config.TELEGRAM_MAX_MESSAGE_LENGTH).
  - rewrite run_telegram. simpl first_failure.
    destruct (telegram_raises env (length (calls w))) as [e |]; simpl.
    + reflexivity.
    + destruct w. unfold set_log, set_calls. simpl. rewrite app_nil_r.
      reflexivity.
  - rewrite run_for_each_reply.
    destruct (first_failure env (length (calls w)) _) as [[k e] |]; simpl.
    + reflexivity.
    + destruct w. unfold set_log, set_calls. simpl. rewrite app_nil_r.
      reflexivity.
Qed.

End DeliveryFaults.

Section DeliveryTheorems.

Context (env : Env).

Lemma Forall_carries_replies message parts :
  Forall (fun part => pystr.truthy part = true) parts ->
  Forall carries_text (map (fun part => reply_text message part []) parts).
Proof.
  intros H. apply Forall_fmap. eapply Forall_impl; [exact H |].
  intros part Hp. exact Hp.
Qed.

Lemma posted_carries_text update text w posted :
  pystr.truthy text = true ->
  posted =
    map (fun part => reply_text (effective_message update) part [])
      (if pystr.len text <=? config.TELEGRAM_MAX_MESSAGE_LENGTH
       then [text]
       else
         match
           first_failure env (length (calls w))
             (length (message_parts config.TELEGRAM_MAX_MESSAGE_LENGTH text))
         with
         | Some (k, _) =>
             take (S k) (message_parts config.TELEGRAM_MAX_MESSAGE_LENGTH text)
         | None => message_parts config.TELEGRAM_MAX_MESSAGE_LENGTH text
         end) ->
  posted <> [] /\ Forall carries_text posted.
Proof.
  intros Ht ->.
  assert (Hpos : 0 < config.TELEGRAM_MAX_MESSAGE_LENGTH)
    by (unfold config.TELEGRAM_MAX_MESSAGE_LENGTH; lia).
  pose proof (message_parts_nonempty config.TELEGRAM_MAX_MESSAGE_LENGTH text
                Hpos) as Hparts.
  pose proof (message_parts_length config.TELEGRAM_MAX_MESSAGE_LENGTH text)
    as Hlen.
  destruct (pystr.len text <=? config.TELEGRAM_MAX_MESSAGE_LENGTH) eqn:E.
  - split; [discriminate |]. apply Forall_carries_replies.
    constructor; [exact Ht | constructor].
  - apply Nat.leb_gt in E.
    assert (Hne : message_parts config.TELEGRAM_MAX_MESSAGE_LENGTH text <> []).
    { intros H0.
      pose proof (chunks_cover config.TELEGRAM_MAX_MESSAGE_LENGTH
                    (pystr.len text) Hpos) as Hc.
      rewrite <- Hlen, H0 in Hc. change (length (@nil string)) with 0 in Hc.
      lia. }
    destruct (message_parts config.TELEGRAM_MAX_MESSAGE_LENGTH text)
      as [| part parts] eqn:Ep; [contradiction |].
    destruct (first_failure env (length (calls w)) _) as [[k e] |].
    + split; [discriminate |]. apply Forall_carries_replies.
      apply Forall_take. exact Hparts.
    + split; [discriminate |]. apply Forall_carries_replies. exact Hparts.
Qed.

(** X5. [send_final_response] never sends an empty text: whatever the
    text, the placeholder and the answers of Telegram, it makes at least
    one call, and every call it makes is an edit or a reply that carries
    a text that is not empty; an empty text goes out as the notice of
    the empty response. *)
Theorem delivery_never_sends_an_empty_text update text placeholder w :
  exists new,
    calls (after env (send_final_response env update text placeholder) w)
    = calls w ++ new
    /\ new <> []
    /\ Forall carries_text new
    /\ (pystr.truthy text = false ->
        exists more,
          new = match placeholder with
                | Some p => edit_text p empty_response_text
                | None =>
                    reply_text (effective_message update) empty_response_text
                      []
                end :: more).
Proof.
  unfold after, send_final_response.
  change (if pystr.truthy text then text else empty_response_text)
    with (text_to_send text).
  pose proof (truthy_text_to_send text) as Ht.
  assert (Hshort : pystr.truthy text = false ->
                   (pystr.len (text_to_send text)
                      <=? config.TELEGRAM_MAX_MESSAGE_LENGTH) = true).
  { intros E. unfold text_to_send. rewrite E. reflexivity. }
  assert (Hsend : pystr.truthy text = false ->
                  text_to_send text = empty_response_text).
  { intros E. unfold text_to_send. rewrite E. reflexivity. }
  set (T := text_to_send text) in *.
  rewrite run_bind, run_try.
  destruct placeholder as [p |].
  - rewrite run_bind, run_telegram.
    destruct (telegram_raises env (length (calls w))) as [e |].
    + destruct e as [| | msg | key | msg | descr];
        try (cbn [run]; exists [edit_text p T]; split; [reflexivity |];
             split; [discriminate |]; split;
             [constructor; [exact Ht | constructor] |];
             intros E; exists []; rewrite <- (Hsend E); reflexivity).
      cbn [str_exn].
      destruct (pystr.contains "Message is not modified" msg).
      * cbn [negb ret run].
        exists [edit_text p T]. split; [reflexivity |].
        split; [discriminate |]. split;
          [constructor; [exact Ht | constructor] |].
        intros E; exists []; rewrite <- (Hsend E); reflexivity.
      * change (negb false) with true. cbv iota.
        unfold logger at 1. rewrite bind_modify. cbn [ret run].
        match goal with
        | |- context [run env (try_except _ _ ?x)] =>
            destruct (run_post env update T x) as (posted & -> & Hposted)
        end.
        destruct (posted_carries_text update T _ posted Ht Hposted)
          as [Hne Hall].
        exists (edit_text p T :: posted). split.
        { simpl. rewrite <- app_assoc. reflexivity. }
        split; [discriminate |]. split.
        { constructor; [exact Ht | exact Hall]. }
        intros E. exists posted. rewrite <- (Hsend E). reflexivity.
    + cbn [ret run]. exists [edit_text p T]. split; [reflexivity |].
      split; [discriminate |]. split;
        [constructor; [exact Ht | constructor] |].
      intros E; exists []; rewrite <- (Hsend E); reflexivity.
  - cbn [ret run].
    destruct (run_post env update T w) as (posted & -> & Hposted).
    destruct (posted_carries_text update T _ posted Ht Hposted) as [Hne Hall].
    exists posted. split; [reflexivity |]. split; [exact Hne |].
    split; [exact Hall |].
    intros E. rewrite Hposted, (Hshort E). simpl.
    exists []. rewrite <- (Hsend E). reflexivity.
Qed.

(** X6. [send_final_response] raises only what the edit of the
    placeholder raises when that is not a [BadRequest]: without a
    placeholder it returns whatever Telegram does, and with one it
    returns when the edit returns or raises a [BadRequest]. *)
Theorem delivery_raises_only_from_the_edit update text placeholder w :
  (run env (send_final_response env update text placeholder w)).1
  = match placeholder, telegram_raises env (length (calls w)) with
    | Some _, Some e => if is_bad_request e then Ret tt else Raise e
    | _, _ => Ret tt
    end.
Proof.
  unfold send_final_response.
  change (if pystr.truthy text then text else empty_response_text)
    with (text_to_send text).
  set (T := text_to_send text).
  rewrite run_bind, run_try.
  destruct placeholder as [p |].
  - rewrite run_bind, run_telegram.
    destruct (telegram_raises env (length (calls w))) as [e |];
      [| reflexivity].
    destruct e as [| | msg | key | msg | descr]; try reflexivity.
    cbn [str_exn is_bad_request].
    destruct (pystr.contains "Message is not modified" msg);
      [reflexivity |].
    change (negb false) with true. cbv iota.
    unfold logger at 1. rewrite bind_modify. cbn [ret run].
    match goal with
    | |- context [run env (try_except _ _ ?x)] =>
        destruct (run_post env update T x) as (posted & -> & _)
    end.
    reflexivity.
  - cbn [ret run].
    destruct (run_post env update T w) as (posted & -> & _).
    destruct (telegram_raises env (length (calls w))); reflexivity.
Qed.

(** X7. When Telegram answers the edit of the placeholder with a
    [BadRequest] that says "Message is not modified",
    [send_final_response] returns at once: the edit is its only call and
    nothing is logged. *)
Theorem unmodified_placeholder_ends_the_delivery update text p msg w :
  telegram_raises env (length (calls w)) = Some (BadRequest msg) ->
  pystr.contains "Message is not modified" msg = true ->
  run env (send_final_response env update text (Some p) w)
  = (Ret tt, set_calls (calls w ++ [edit_text p (text_to_send text)]) w).
Proof.
  intros Hraise Hmsg. unfold send_final_response.
  change (if pystr.truthy text then text else empty_response_text)
    with (text_to_send text).
  rewrite run_bind, run_try, run_bind, run_telegram, Hraise.
  cbn [str_exn]. rewrite Hmsg. reflexivity.
Qed.


(** X8. When the send of a part of a long text fails, the parts before it
    have been sent, the later parts are not sent, the failure is logged
    and [send_final_response] returns. *)
Theorem failed_part_drops_the_rest update text w k e :
  config.TELEGRAM_MAX_MESSAGE_LENGTH < pystr.len text ->
  k < length (message_parts config.TELEGRAM_MAX_MESSAGE_LENGTH text) ->
  (forall i, i < k -> telegram_raises env (length (calls w) + i) = None) ->
  telegram_raises env (length (calls w) + k) = Some e ->
  run env (send_final_response env update text None w)
  = (Ret tt,
     set_log
       (log w ++
        [Log ERROR
           ("Failed to send final response as new message: " +:+ str_exn e)])
       (set_calls
          (calls w ++
           map (fun part => reply_text (effective_message update) part [])
               (take (S k)
                  (message_parts config.TELEGRAM_MAX_MESSAGE_LENGTH text)))
          w)).
Proof.
  intros Hlong Hk Hok He.
  assert (Ht : pystr.truthy text = true) by (apply truthy_len; lia).
  unfold send_final_response. rewrite Ht.
  rewrite run_bind, run_try. cbn [ret run].
  destruct (run_post env update text w) as (posted & -> & ->).
  assert (Hleb : (pystr.len text <=? config.TELEGRAM_MAX_MESSAGE_LENGTH)
                 = false) by (apply Nat.leb_gt; exact Hlong).
  rewrite Hleb, (first_failure_found env _ _ k e Hk Hok He).
  reflexivity.
Qed.


End DeliveryTheorems.

Lemma unmodified_placeholder_ends_the_delivery_witness :
  run not_modified
    (send_final_response not_modified alice_update "Fine." (Some 101%Z)
       empty_world)
  = (Ret tt, set_calls [edit_text 101 "Fine."] empty_world).
Proof.
  apply (unmodified_placeholder_ends_the_delivery not_modified alice_update
           "Fine." 101%Z "Message is not modified: same content"
           empty_world).
  - reflexivity.
  - vm_compute. reflexivity.
Defined.

Lemma failed_part_drops_the_rest_witness :
  calls
    (after second_call_fails
       (send_final_response second_call_fails alice_update
          (long_text (10 * 1000)) None)
       empty_world)
  = [reply_text 100 (long_text 4096) []; reply_text 100 (long_text 4096) []].
Proof.
  unfold after.
  rewrite (failed_part_drops_the_rest second_call_fails alice_update
             (long_text (10 * 1000)) empty_world 1
             (OtherException "TimedOut")).
  - vm_compute. reflexivity.
  - apply Nat.ltb_lt. vm_compute. reflexivity.
  - apply Nat.ltb_lt. vm_compute. reflexivity.
  - intros i Hi. destruct i; [reflexivity | lia].
  - reflexivity.
Defined.

(** ** The accounting of the worker *)

Section Accounting.

Context (env : Env).

(** X9. Every job of the queue is counted as unfinished, and the worker
    keeps it so: when the counter of unfinished tasks is at least the
    length of the queue before a run of the worker, it is so after the
    run, however long the run is and whatever the processors do. *)
Theorem worker_keeps_the_queue_counted fuel w :
  queue_is_counted w ->
  queue_is_counted (worker_loop env fuel w).2.
Proof.
  revert w. induction fuel as [| fuel IH]; intros w Hinv; [exact Hinv |].
  simpl. destruct (REQUEST_QUEUE w) as [| job rest] eqn:Eq; [exact Hinv |].
  pose proof (worker_turn_keeps_counted env job (set_queue rest w)) as Hturn.
  unfold after in Hturn.
  destruct (run env (worker_turn env job (set_queue rest w)))
    as [[[] | e] w1].
  - specialize (IH w1).
    destruct (worker_loop env fuel w1) as [[jobs ending] w2].
    simpl in *. apply IH, Hturn.
    unfold queue_is_counted in Hinv. rewrite Eq in Hinv. simpl in Hinv. lia.
  - simpl. apply Hturn. simpl.
    unfold queue_is_counted in Hinv. rewrite Eq in Hinv. simpl in Hinv. lia.
Qed.

(** X10. In a turn whose processor returns, [task_done()] never raises
    "called too many times" when the job that was taken was counted: the
    turn ends in the world the processor left, with the counter one
    lower and nothing logged by the loop. *)
Theorem returned_job_is_marked_done job w w1 :
  length (REQUEST_QUEUE w) < unfinished_tasks w ->
  run env (dispatch env job w) = (Ret tt, w1) ->
  0 < unfinished_tasks w1
  /\ run env (worker_turn env job w)
     = (Ret tt, set_unfinished (unfinished_tasks w1 - 1) w1).
Proof.
  intros Hinv E.
  pose proof (counted_dispatch env job w) as (added & Hq & Hu).
  rewrite E in Hq, Hu. simpl in Hq, Hu.
  destruct (unfinished_tasks w1) as [| n] eqn:En; [lia |].
  split; [lia |].
  rewrite (run_worker_turn_returned env job w w1 n E En).
  replace (S n - 1) with n by lia. reflexivity.
Qed.

(** X11. A job whose processor raises is marked done only when another
    job is waiting: with an empty queue the [except] branch of the loop
    logs the error and leaves the counter of unfinished tasks as it is,
    and with a job waiting it lowers the counter by one (a counter at
    zero stays at zero, the [ValueError] being passed over). *)
Theorem failed_job_is_marked_done_only_before_another job w e w1 :
  run env (dispatch env job w) = (Raise e, w1) ->
  run env (worker_turn env job w)
  = (Ret tt,
     match REQUEST_QUEUE w1, unfinished_tasks w1 with
     | _ :: _, S n =>
         set_unfinished n
           (set_log (log w1 ++ [Log ERROR "Error in AI worker dispatcher"]) w1)
     | _, _ =>
         set_log (log w1 ++ [Log ERROR "Error in AI worker dispatcher"]) w1
     end).
Proof. apply run_worker_turn_raised. Qed.

(** X12. A job whose type is none of the four the worker knows is taken
    and marked done, and nothing else happens: no processor runs, no
    call is made and nothing is logged. *)
Theorem job_of_unknown_type_is_skipped job type w n :
  job_type job = Some type ->
  ~ In type known_types ->
  unfinished_tasks w = S n ->
  run env (worker_turn env job w) = (Ret tt, set_unfinished n w).
Proof.
  intros Ht Hnot Hu.
  assert (E : run env (dispatch env job w) = (Ret tt, w)).
  { unfold dispatch. rewrite Ht.
    change (default "chat" (Some type)) with type.
    repeat match goal with
    | |- context [String.eqb type ?s] =>
        destruct (String.eqb_spec type s) as [-> | _];
        [exfalso; apply Hnot; simpl; tauto |]
    end.
    reflexivity. }
  apply (run_worker_turn_returned env job w w n E Hu).
Qed.

End Accounting.


Lemma worker_keeps_the_queue_counted_witness :
  queue_is_counted
    (worker_loop fine 5
       (after fine (for_each three_jobs put) (world_with (stored 2) ∅))).2.
Proof.
  apply (worker_keeps_the_queue_counted fine 5).
  unfold queue_is_counted. vm_compute. lia.
Defined.

Lemma returned_job_is_marked_done_witness :
  exists w1,
    0 < unfinished_tasks w1
    /\ run fine (worker_turn fine forest_job (set_unfinished 1 empty_world))
       = (Ret tt, set_unfinished (unfinished_tasks w1 - 1) w1).
Proof.
  eexists.
  apply (returned_job_is_marked_done fine forest_job
           (set_unfinished 1 empty_world)).
  - simpl. lia.
  - vm_compute. reflexivity.
Defined.

Lemma failed_job_is_marked_done_only_before_another_witness :
  exists w1,
    run (typing_fails (completion []))
      (worker_turn (typing_fails (completion [])) hello_job
         (set_unfinished 1 empty_world))
    = (Ret tt,
       match REQUEST_QUEUE w1, unfinished_tasks w1 with
       | _ :: _, S n =>
           set_unfinished n
             (set_log (log w1 ++ [Log ERROR "Error in AI worker dispatcher"])
                w1)
       | _, _ =>
           set_log (log w1 ++ [Log ERROR "Error in AI worker dispatcher"]) w1
       end).
Proof.
  eexists.
  eapply (failed_job_is_marked_done_only_before_another
            (typing_fails (completion [])) hello_job
            (set_unfinished 1 empty_world)).
  vm_compute. reflexivity.
Defined.

Lemma job_of_unknown_type_is_skipped_witness :
  run fine (worker_turn fine odd_job (set_unfinished 1 empty_world))
  = (Ret tt, empty_world).
Proof.
  apply (job_of_unknown_type_is_skipped fine odd_job "summarize"
           (set_unfinished 1 empty_world) 0).
  - reflexivity.
  - simpl. intros [H | [H | [H | [H | []]]]]; discriminate.
  - reflexivity.
Defined.

(** ** What the processors request and what they leave alone *)

#[local] Instance no_request_preorder : PreOrder no_request.
Proof.
  split.
  - intros w. reflexivity.
  - intros a b c H1 H2. unfold no_request in *. congruence.
Qed.

#[local] Instance other_histories_kept_preorder chat_id :
  PreOrder (other_histories_kept chat_id).
Proof.
  split.
  - intros w. split; reflexivity.
  - intros a b c [H1 H1'] [H2 H2']. split.
    + intros other Ho. rewrite H2, H1 by exact Ho. reflexivity.
    + congruence.
Qed.

#[local] Instance other_summaries_kept_preorder chat_id :
  PreOrder (other_summaries_kept chat_id).
Proof.
  split.
  - intros w. split; reflexivity.
  - intros a b c [H1 H1'] [H2 H2']. split.
    + congruence.
    + intros other Ho. rewrite H2', H1' by exact Ho. reflexivity.
Qed.

Section Requests.

Context (env : Env).

Lemma requested_snoc w c :
  requested (set_calls (calls w ++ [c]) w)
  = requested w ++ match request_of c with Some m => [m] | None => [] end.
Proof.
  unfold requested. cbn [calls set_calls]. rewrite omap_app. simpl.
  destruct (request_of c); reflexivity.
Qed.

Lemma no_request_telegram c :
  request_of c = None -> preserves env no_request (telegram env c).
Proof.
  intros H w. rewrite run_telegram. cbn [snd]. unfold no_request.
  rewrite requested_snoc, H, app_nil_r. reflexivity.
Qed.

Lemma no_request_modify f :
  (forall w, calls (f w) = calls w) -> preserves env no_request (modify f).
Proof.
  intros H. apply preserves_modify. intros w. unfold no_request, requested.
  rewrite H. reflexivity.
Qed.

Lemma no_request_log_user user details :
  preserves env no_request (log_user_interaction user details).
Proof.
  destruct user; [apply no_request_modify; reflexivity |].
  apply preserves_ret. apply _.
Qed.

Ltac no_request_leaf :=
  first
    [ apply no_request_telegram; reflexivity
    | apply no_request_log_user
    | apply no_request_modify; reflexivity ].

Lemma no_request_send_final_response update text placeholder :
  preserves env no_request (send_final_response env update text placeholder).
Proof. unfold send_final_response, logger. frame; no_request_leaf. Qed.

Lemma no_request_finish_chat_turn update context user_text placeholder
    enabled total ai_response :
  preserves env no_request
    (finish_chat_turn env update context user_text placeholder enabled total
       ai_response).
Proof.
  unfold finish_chat_turn, _consolidate_memory, put, logger,
    db_utils.add_message_to_db.
  frame;
    first [apply no_request_send_final_response | no_request_leaf].
Qed.

Lemma no_request_finish_memory_turn chat_id text :
  preserves env no_request (finish_memory_turn env chat_id text).
Proof.
  unfold finish_memory_turn, db_utils.update_summary, db_utils.get_summary,
    logger.
  frame; no_request_leaf.
Qed.

(** The request [_get_ai_response] makes when there is a client. *)
Lemma get_ai_response_request messages name w :
  lm_studio_client env = true ->
  exists w',
    run env (_get_ai_response env messages name w)
    = (Ret (response_text env (backend env (S (length (calls w))))), w')
    /\ same_store w w'
    /\ requested w' = requested w ++ [messages].
Proof.
  intros Hc. unfold _get_ai_response, response_text. rewrite Hc. simpl.
  rewrite length_app. simpl. rewrite Nat.add_1_r.
  destruct (backend env (S (length (calls w)))) as [[| [c |] ?] | e]; simpl.
  4: destruct e; simpl.
  all: eexists; split; [reflexivity |].
  all: split; [repeat split |].
  all: unfold requested; simpl; rewrite omap_app; reflexivity.
Qed.

End Requests.

Section ChatRequest.

Context (env : Env).

Lemma bind_bind_read {A B C} (g : World -> A) (k : A -> M B) (f : B -> M C)
    w :
  bind (bind (read g) k) f w = bind (k (g w)) f w.
Proof. reflexivity. Qed.

Lemma chat_request update context user_text placeholder w :
  lm_studio_client env = true ->
  telegram_raises env (length (calls w)) = None ->
  let chat_id := effective_chat_id update in
  let earlier :=
    memory_message context chat_id w
    ++ (history chat_id config.MAX_HISTORY_MESSAGES w).1 in
  requested
    (after env
       (process_chat_job env (chat_job update context user_text placeholder))
       w)
  = requested w
    ++ [earlier
        ++ [mkMessage "user"
              match earlier with
              | [] => get_system_prompt context w +:+ pystr.nl +:+ pystr.nl +:+ user_text
              | _ :: _ => user_text
              end]].
Proof.
  intros Hc Ht chat_id earlier. unfold after.
  unfold process_chat_job, chat_job, job_update, job_context, job_user_text,
    job_placeholder, subscript.
  rewrite !bind_ret, (bind_telegram_ok env) by exact Ht.
  unfold db_utils.get_history_from_db. rewrite !bind_read.
  set (w0 := set_calls _ w).
  set (h := (map _ _, length _)).
  assert (Hh : h = history chat_id config.MAX_HISTORY_MESSAGES w)
    by reflexivity.
  clearbody h.
  assert (Hfinish :
    forall messages,
      requested
        (run env
           ((user_display_name <- get_user_display_name context ;;
             ai_response <- _get_ai_response env messages user_display_name ;;
             finish_chat_turn env update context user_text placeholder
               (is_memory_enabled context w) h.2 ai_response) w0)).2
      = requested w ++ [messages]).
  { intros messages. unfold get_user_display_name. rewrite bind_read.
    rewrite run_bind.
    destruct (get_ai_response_request env messages
                (default "user" (user_display_name (the_user_data context w0)))
                w0 Hc) as (w1 & -> & _ & Hr).
    rewrite (no_request_finish_chat_turn env _ _ _ _ _ _ _ w1), Hr.
    subst w0. rewrite requested_snoc. simpl. rewrite app_nil_r.
    reflexivity. }
  subst earlier. unfold memory_message, is_memory_enabled in *.
  change (summary chat_id w)
    with (long_term_memory w !! effective_chat_id update).
  rewrite <- Hh. unfold db_utils.get_summary.
  change (the_user_data context w0) with (the_user_data context w).
  destruct (default config.MASTER_MEMORY_SWITCH
              (long_term_memory_enabled (the_user_data context w))).
  - rewrite bind_bind_read.
    change (long_term_memory w0) with (long_term_memory w).
    destruct (long_term_memory w !! effective_chat_id update) as [s |];
      [destruct (pystr.truthy s) |];
      rewrite ?bind_ret; cbn [app];
      try (destruct h.1 as [| m l]; rewrite ?bind_read, ?bind_ret);
      apply Hfinish.
  - rewrite bind_ret. cbn [app].
    destruct h.1 as [| m l]; rewrite ?bind_read, ?bind_ret; apply Hfinish.
Qed.

Lemma history_length chat_id limit w :
  0 < limit -> length (history chat_id limit w).1 <= limit.
Proof.
  intros Hl. rewrite history_limit. cbn [fst].
  destruct (limit =? 0) eqn:E; [apply Nat.eqb_eq in E; lia |].
  rewrite length_drop. lia.
Qed.

Lemma history_rows chat_id limit w w' :
  db_utils.rows_of chat_id (conversations w')
  = db_utils.rows_of chat_id (conversations w) ->
  history chat_id limit w' = history chat_id limit w.
Proof.
  intros H. unfold history, db_utils.get_history_from_db, read.
  rewrite H. reflexivity.
Qed.

(** X13. The one completion request of a chat turn carries the memory
    message (when memory is on and the stored summary is not empty),
    then the last [MAX_HISTORY_MESSAGES] stored messages of the chat, then
    the user's message.  The role-play framing of [get_system_prompt]
    (persona, name, profile and scene) is put before the user's text
    only when nothing precedes it: the memory message is inserted into
    the very list [recent_history] that the test [if not recent_history]
    reads, so a stored summary alone keeps the framing out. *)
Theorem chat_request_is_memory_history_and_message update context user_text
    placeholder w :
  lm_studio_client env = true ->
  telegram_raises env (length (calls w)) = None ->
  let chat_id := effective_chat_id update in
  let earlier :=
    memory_message context chat_id w
    ++ (history chat_id config.MAX_HISTORY_MESSAGES w).1 in
  requested
    (after env
       (process_chat_job env (chat_job update context user_text placeholder))
       w)
  = requested w
    ++ [earlier
        ++ [mkMessage "user"
              match earlier with
              | [] =>
                  get_system_prompt context w +:+ pystr.nl +:+ pystr.nl
                  +:+ user_text
              | _ :: _ => user_text
              end]].
Proof. apply chat_request. Qed.

(** X14. The request of a chat turn is bounded: it has at most
    [MAX_HISTORY_MESSAGES + 2] messages, however long the stored history
    is, and its last message has the role [user]. *)
Theorem chat_request_is_bounded update context user_text placeholder w :
  lm_studio_client env = true ->
  telegram_raises env (length (calls w)) = None ->
  exists messages,
    requested
      (after env
         (process_chat_job env
            (chat_job update context user_text placeholder)) w)
    = requested w ++ [messages]
    /\ length messages <= config.MAX_HISTORY_MESSAGES + 2
    /\ role <$> last messages = Some "user".
Proof.
  intros Hc Ht. eexists. split; [apply chat_request; assumption |].
  split.
  - rewrite !length_app.
    assert (Hh : length (history (effective_chat_id update)
                           config.MAX_HISTORY_MESSAGES w).1
                 <= config.MAX_HISTORY_MESSAGES)
      by (apply history_length; unfold config.MAX_HISTORY_MESSAGES; lia).
    assert (Hm : length (memory_message context (effective_chat_id update) w)
                 <= 1).
    { unfold memory_message.
      destruct (is_memory_enabled context w); [| simpl; lia].
      destruct (summary (effective_chat_id update) w) as [s |];
        [destruct (pystr.truthy s) |]; simpl; lia. }
    unfold config.MAX_HISTORY_MESSAGES in *. cbn [length].
    lia.
  - rewrite last_snoc. reflexivity.
Qed.

End ChatRequest.

Lemma chat_request_is_memory_history_and_message_witness :
  requested (after fine (process_chat_job fine hello_job) two_chats)
  = [[mkMessage "system" "(Memory: Alice's story)";
      mkMessage "user" "a1"; mkMessage "assistant" "a2";
      mkMessage "user" "a3"; mkMessage "user" "hello"]].
Proof.
  exact (chat_request_is_memory_history_and_message fine alice_update
           alice_context "hello" None two_chats eq_refl eq_refl).
Defined.

Lemma chat_request_is_bounded_witness :
  exists messages,
    requested (after fine (process_chat_job fine hello_job) two_chats)
    = requested two_chats ++ [messages]
    /\ length messages <= config.MAX_HISTORY_MESSAGES + 2
    /\ role <$> last messages = Some "user".
Proof.
  apply (chat_request_is_bounded fine alice_update alice_context "hello" None
           two_chats); reflexivity.
Defined.

(** ** What a turn leaves alone *)

Section Isolation.

Context (env : Env).

Lemma histories_kept_same_store chat_id {A} (m : M A) :
  preserves env same_store m ->
  preserves env (other_histories_kept chat_id) m.
Proof.
  apply preserves_weaken. intros w w' (_ & _ & Hc & Hm & _).
  split; [intros other _; rewrite Hc; reflexivity | exact Hm].
Qed.

Lemma histories_kept_modify chat_id f :
  (forall w, conversations (f w) = conversations w) ->
  (forall w, long_term_memory (f w) = long_term_memory w) ->
  preserves env (other_histories_kept chat_id) (modify f).
Proof.
  intros Hc Hm. apply preserves_modify. intros w.
  split; [intros other _; rewrite Hc; reflexivity | apply Hm].
Qed.

Lemma histories_kept_add_message chat_id role content :
  preserves env (other_histories_kept chat_id)
    (db_utils.add_message_to_db chat_id role content).
Proof.
  apply preserves_modify. intros w. split; [| reflexivity].
  intros other Ho. cbn [conversations set_conversations].
  rewrite rows_of_app. unfold db_utils.rows_of at 2.
  rewrite filter_cons_False by (simpl; congruence).
  rewrite filter_nil, app_nil_r. reflexivity.
Qed.

Lemma histories_kept_log_user chat_id user details :
  preserves env (other_histories_kept chat_id)
    (log_user_interaction user details).
Proof. apply histories_kept_same_store, same_store_log_user. Qed.

Lemma histories_kept_finish_chat_turn update context user_text placeholder
    enabled total ai_response :
  preserves env (other_histories_kept (effective_chat_id update))
    (finish_chat_turn env update context user_text placeholder enabled total
       ai_response).
Proof.
  unfold finish_chat_turn, _consolidate_memory, put, logger.
  frame;
    first
      [ apply histories_kept_add_message
      | apply histories_kept_log_user
      | apply histories_kept_same_store, same_store_send_final_response
      | apply histories_kept_modify; reflexivity ].
Qed.

Lemma summaries_kept_same_store chat_id {A} (m : M A) :
  preserves env same_store m ->
  preserves env (other_summaries_kept chat_id) m.
Proof.
  apply preserves_weaken. intros w w' (_ & _ & Hc & Hm & _).
  split; [exact Hc | intros other _; rewrite Hm; reflexivity].
Qed.

Lemma summaries_kept_finish_memory_turn chat_id text :
  preserves env (other_summaries_kept chat_id)
    (finish_memory_turn env chat_id text).
Proof.
  unfold finish_memory_turn, db_utils.update_summary, db_utils.get_summary.
  frame.
  - apply preserves_modify. intros w. split; [reflexivity |].
    intros other Ho. cbn [long_term_memory set_long_term_memory].
    apply lookup_insert_ne. congruence.
  - apply summaries_kept_same_store, same_store_logger.
  - apply summaries_kept_same_store, same_store_logger.
  - apply summaries_kept_same_store, same_store_telegram.
Qed.

(** The world in which the rest of a chat turn runs. *)
Lemma process_chat_job_frame (R : World -> World -> Prop)
    `{!PreOrder R} update context user_text placeholder w :
  (forall w w', same_store w w' -> R w w') ->
  (forall enabled total ai_response,
     preserves env R
       (finish_chat_turn env update context user_text placeholder enabled
          total ai_response)) ->
  R w
    (after env
       (process_chat_job env (chat_job update context user_text placeholder))
       w).
Proof.
  intros Hs Hf. unfold after.
  destruct (telegram_raises env (length (calls w))) as [e |] eqn:Ht.
  - unfold process_chat_job, chat_job, job_update, job_context,
      job_user_text, job_placeholder, subscript.
    rewrite !bind_ret, run_bind, run_telegram, Ht. cbn [snd].
    apply Hs. repeat split.
  - destruct (process_chat_job_run env update context user_text placeholder w
                Ht) as (w1 & Hw1 & _ & ->).
    etransitivity; [apply Hs, Hw1 | apply Hf].
Qed.

(** The world in which the rest of a consolidation runs. *)
Lemma process_memory_job_frame (R : World -> World -> Prop)
    `{!PreOrder R} chat_id context w :
  (forall w w', same_store w w' -> R w w') ->
  (forall text, preserves env R (finish_memory_turn env chat_id text)) ->
  R w
    (after env
       (process_memory_job env (consolidate_memory_job chat_id context)) w).
Proof.
  intros Hs Hf. unfold after.
  destruct (telegram_raises env (length (calls w))) as [e |] eqn:Ht.
  - unfold process_memory_job, consolidate_memory_job, job_chat_id,
      job_context, subscript.
    rewrite !bind_ret. unfold logger at 1.
    rewrite bind_modify, run_bind, run_telegram.
    cbn [calls set_log]. rewrite Ht. cbn [snd].
    apply Hs. repeat split.
  - destruct (Nat.eq_dec (total_messages chat_id w) 0) as [E | E].
    + unfold process_memory_job, consolidate_memory_job, job_chat_id,
        job_context, subscript.
      rewrite !bind_ret. unfold logger at 1. rewrite bind_modify.
      rewrite (bind_telegram_ok env) by exact Ht.
      unfold db_utils.get_history_from_db. rewrite bind_read.
      cbv beta iota zeta. unfold fst at 1.
      change (0 =? 0) with true. cbv iota.
      unfold total_messages in E. apply length_zero_iff_nil in E.
      cbn [conversations set_calls set_log]. rewrite E.
      cbn [map run ret snd]. apply Hs. repeat split.
    + destruct (process_memory_job_run env chat_id context w Ht E)
        as (w1 & Hw1 & _ & ->).
      etransitivity; [apply Hs, Hw1 | apply Hf].
Qed.

(** X15. A chat turn writes only to the history of its own chat: the
    history of every other chat reads as before, and so does the
    summary of every chat, whatever Telegram and the completion endpoint
    do. *)
Theorem chat_turn_keeps_the_other_chats update context user_text placeholder
    other limit w :
  other <> effective_chat_id update ->
  let w' :=
    after env
      (process_chat_job env (chat_job update context user_text placeholder))
      w in
  history other limit w' = history other limit w
  /\ forall chat_id, summary chat_id w' = summary chat_id w.
Proof.
  intros Ho w'.
  assert (H : other_histories_kept (effective_chat_id update) w w').
  { apply process_chat_job_frame; [apply _ | |].
    - intros a b (_ & _ & Hc & Hm & _).
      split; [intros o _; rewrite Hc; reflexivity | exact Hm].
    - apply histories_kept_finish_chat_turn. }
  destruct H as [Hr Hm]. split.
  - apply history_rows, Hr, Ho.
  - intros chat_id. unfold summary, db_utils.get_summary, read.
    rewrite Hm. reflexivity.
Qed.

(** X16. A consolidation writes only the summary of its own chat: the
    history of every chat reads as before, and so does the summary of
    every other chat. *)
Theorem consolidation_keeps_histories_and_other_summaries chat_id context
    other limit w :
  other <> chat_id ->
  let w' :=
    after env
      (process_memory_job env (consolidate_memory_job chat_id context)) w in
  (forall chat, history chat limit w' = history chat limit w)
  /\ summary other w' = summary other w.
Proof.
  intros Ho w'.
  assert (H : other_summaries_kept chat_id w w').
  { apply process_memory_job_frame; [apply _ | |].
    - intros a b (_ & _ & Hc & Hm & _).
      split; [exact Hc | intros o _; rewrite Hm; reflexivity].
    - apply summaries_kept_finish_memory_turn. }
  destruct H as [Hc Hm]. split.
  - intros chat. apply history_rows. rewrite Hc. reflexivity.
  - unfold summary, db_utils.get_summary, read. apply Hm, Ho.
Qed.

(** X17. When the typing action of a chat turn raises, the turn is over
    at once with that exception: no completion request is made, the
    placeholder is not edited, no reply is sent and nothing is stored. *)
Theorem chat_turn_stops_when_the_typing_action_fails update context user_text
    placeholder w e :
  telegram_raises env (length (calls w)) = Some e ->
  run env
    (process_chat_job env (chat_job update context user_text placeholder) w)
  = (Raise e,
     set_calls (calls w ++ [send_chat_action (effective_chat_id update)]) w).
Proof.
  intros Ht.
  unfold process_chat_job, chat_job, job_update, job_context, job_user_text,
    job_placeholder, subscript.
  rewrite !bind_ret, run_bind, run_telegram, Ht. reflexivity.
Qed.

(** X18. A consolidation of a chat with no stored message makes no
    completion request and writes no summary: after the typing action it
    returns. *)
Theorem consolidation_of_an_empty_history_does_nothing chat_id context w :
  telegram_raises env (length (calls w)) = None ->
  (history chat_id 0 w).2 = 0 ->
  run env
    (process_memory_job env (consolidate_memory_job chat_id context) w)
  = (Ret tt,
     set_calls (calls w ++ [send_chat_action chat_id])
       (set_log
          (log w ++
           [Log INFO
              ("Consolidating memory for chat " +:+ pretty chat_id +:+ "...")])
          w)).
Proof.
  intros Ht E. rewrite history_all in E. cbn [snd] in E.
  apply length_zero_iff_nil in E.
  unfold process_memory_job, consolidate_memory_job, job_chat_id,
    job_context, subscript.
  rewrite !bind_ret. unfold logger at 1. rewrite bind_modify.
  rewrite (bind_telegram_ok env) by exact Ht.
  unfold db_utils.get_history_from_db. rewrite bind_read.
  cbv beta iota zeta. unfold fst at 1.
  change (0 =? 0) with true. cbv iota.
  cbn [conversations set_calls set_log]. rewrite E. reflexivity.
Qed.

(** X19. The completion request of a consolidation carries the whole
    stored history of the chat, not a window of it, followed by the
    instruction to summarise. *)
Theorem consolidation_request_is_the_whole_history chat_id context w :
  lm_studio_client env = true ->
  telegram_raises env (length (calls w)) = None ->
  (history chat_id 0 w).2 <> 0 ->
  requested
    (after env
       (process_memory_job env (consolidate_memory_job chat_id context)) w)
  = requested w
    ++ [(history chat_id 0 w).1 ++ [mkMessage "user" consolidation_prompt]].
Proof.
  intros Hc Ht Hn. rewrite history_all in Hn |- *. cbn [fst snd] in Hn |- *.
  unfold after.
  unfold process_memory_job, consolidate_memory_job, job_chat_id, job_context,
    subscript.
  rewrite !bind_ret. unfold logger at 1. rewrite bind_modify.
  rewrite (bind_telegram_ok env) by exact Ht.
  unfold db_utils.get_history_from_db. rewrite bind_read.
  cbv beta iota zeta. unfold fst at 1 2.
  set (w0 := set_calls _ _).
  change (conversations w0) with (conversations w).
  change (0 =? 0) with true. cbv iota.
  destruct (db_utils.rows_of chat_id (conversations w)) as [| r rows] eqn:Er;
    [contradiction |].
  rewrite map_cons. cbv iota.
  unfold get_user_display_name. rewrite bind_read, run_bind.
  match goal with
  | |- context [_get_ai_response env ?m ?n w0] =>
      destruct (get_ai_response_request env m n w0 Hc) as (w1 & -> & _ & Hr)
  end.
  etransitivity;
    [exact (no_request_finish_memory_turn env chat_id _ w1) |].
  rewrite Hr. subst w0. rewrite requested_snoc. simpl. rewrite app_nil_r.
  unfold requested. reflexivity.
Qed.

End Isolation.

Lemma chat_turn_keeps_the_other_chats_witness :
  history bob 0 (after fine (process_chat_job fine hello_job) two_chats)
  = history bob 0 two_chats
  /\ forall chat_id,
       summary chat_id (after fine (process_chat_job fine hello_job) two_chats)
       = summary chat_id two_chats.
Proof.
  apply (chat_turn_keeps_the_other_chats fine alice_update alice_context
           "hello" None bob 0 two_chats).
  simpl. unfold bob, alice. lia.
Defined.

Lemma consolidation_keeps_histories_and_other_summaries_witness :
  (forall chat,
     history chat 0
       (after fine (process_memory_job fine alice_memory_job) two_chats)
     = history chat 0 two_chats)
  /\ summary bob
       (after fine (process_memory_job fine alice_memory_job) two_chats)
     = summary bob two_chats.
Proof.
  apply (consolidation_keeps_histories_and_other_summaries fine alice
           alice_context bob 0 two_chats).
  unfold bob, alice. lia.
Defined.

Lemma chat_turn_stops_when_the_typing_action_fails_witness :
  run (typing_fails (completion [Some "Fine."]))
    (process_chat_job (typing_fails (completion [Some "Fine."])) hello_job
       empty_world)
  = (Raise (OtherException "NetworkError"),
     set_calls [send_chat_action alice] empty_world).
Proof.
  apply (chat_turn_stops_when_the_typing_action_fails
           (typing_fails (completion [Some "Fine."])) alice_update
           alice_context "hello" None empty_world).
  reflexivity.
Defined.

Lemma consolidation_of_an_empty_history_does_nothing_witness :
  run fine (process_memory_job fine alice_memory_job empty_world)
  = (Ret tt,
     set_calls [send_chat_action alice]
       (set_log
          [Log INFO
             ("Consolidating memory for chat " +:+ pretty alice +:+ "...")]
          empty_world)).
Proof.
  apply (consolidation_of_an_empty_history_does_nothing fine alice
           alice_context empty_world); reflexivity.
Defined.

Lemma consolidation_request_is_the_whole_history_witness :
  requested (after fine (process_memory_job fine alice_memory_job) two_chats)
  = [[mkMessage "user" "a1"; mkMessage "assistant" "a2";
      mkMessage "user" "a3"; mkMessage "user" consolidation_prompt]].
Proof.
  apply (consolidation_request_is_the_whole_history fine alice alice_context
           two_chats); [reflexivity | reflexivity |].
  simpl. lia.
Defined.

(** ** The generation jobs *)

Section Generation.

Context (env : Env).

(** X20. Whatever text [_get_ai_response] returns for a scene job, if it
    is not empty, is stored as the generated scene of the chat and sent
    back with the buttons to use it; the fault texts of
    [_get_ai_response] are such texts. *)
Theorem returned_text_becomes_the_generated_scene update context prompt w :
  let text := response_text env (backend env (S (length (calls w)))) in
  let w' :=
    after env
      (process_scene_gen_job env (generate_scene_job update context prompt))
      w in
  pystr.truthy text = true ->
  generated_scene (the_chat_data context w') = Some text
  /\ last (calls w') = Some (scene_reply update text).
Proof.
  intros text w' Ht. subst w'. unfold after.
  unfold process_scene_gen_job, generate_scene_job, job_update, job_context,
    job_prompt, subscript.
  rewrite !bind_ret. unfold get_user_display_name.
  rewrite bind_read, run_bind.
  destruct (get_ai_response_run env [mkMessage "user" prompt]
              (default "user" (user_display_name (the_user_data context w)))
              w) as (w1 & -> & _ & _).
  fold text. rewrite Ht. unfold set_generated_scene.
  rewrite bind_modify, run_telegram. cbn [snd]. split.
  - unfold the_chat_data. cbn [chat_data set_calls set_chat_data].
    rewrite lookup_insert_eq. reflexivity.
  - cbn [calls set_calls]. rewrite last_snoc. reflexivity.
Qed.

(** X21. A returned text without the separator [###], as every fault
    text of [_get_ai_response] is, is not taken for a persona: nothing is
    stored, the parse failure is logged and the user is told that the
    format was invalid. *)
Theorem text_without_separator_is_no_persona update context prompt w :
  let text := response_text env (backend env (S (length (calls w)))) in
  let w' :=
    after env
      (process_persona_gen_job env
         (generate_persona_job update context prompt)) w in
  pystr.contains "###" text = false ->
  same_store w w'
  /\ last (calls w') = Some (invalid_format_reply update)
  /\ last (log w')
     = Some
         (Log ERROR
            ("Failed to parse persona: Separator not found" +:+ pystr.nl
             +:+ "Response was:" +:+ pystr.nl +:+ text)).
Proof.
  intros text w' Ht. subst w'. unfold after.
  unfold process_persona_gen_job, generate_persona_job, job_update,
    job_context, job_prompt, subscript.
  rewrite !bind_ret. unfold get_user_display_name.
  rewrite bind_read, run_bind.
  destruct (get_ai_response_run env [mkMessage "user" prompt]
              (default "user" (user_display_name (the_user_data context w)))
              w) as (w1 & -> & Hs & _).
  fold text. rewrite run_try, run_bind, Ht.
  cbn [negb raise run]. unfold logger.
  rewrite bind_modify, run_telegram. cbn [snd]. split; [| split].
  - etransitivity; [exact Hs |]. repeat split.
  - cbn [calls set_calls set_log]. rewrite last_snoc. reflexivity.
  - cbn [log set_calls set_log]. rewrite last_snoc. reflexivity.
Qed.

(** X22. A persona is stored only with a name and a prompt that are
    not empty and carry no white space at their ends; otherwise the
    generated persona of the chat stays as it was. *)
Theorem stored_persona_has_a_name_and_a_prompt update context prompt w :
  let w' :=
    after env
      (process_persona_gen_job env
         (generate_persona_job update context prompt)) w in
  generated_persona (the_chat_data context w')
  = generated_persona (the_chat_data context w)
  \/ exists name prompt_text,
       generated_persona (the_chat_data context w')
       = Some (name, prompt_text)
       /\ pystr.truthy name = true /\ pystr.truthy prompt_text = true
       /\ pystr.strip name = name
       /\ pystr.strip prompt_text = prompt_text.
Proof.
  intros w'. subst w'. unfold after.
  unfold process_persona_gen_job, generate_persona_job, job_update,
    job_context, job_prompt, subscript.
  rewrite !bind_ret. unfold get_user_display_name.
  rewrite bind_read, run_bind.
  destruct (get_ai_response_run env [mkMessage "user" prompt]
              (default "user" (user_display_name (the_user_data context w)))
              w) as (w1 & -> & Hs & _).
  set (text := response_text env _).
  assert (Hd : the_chat_data context w1 = the_chat_data context w).
  { unfold the_chat_data. destruct Hs as (_ & _ & _ & _ & _ & ->).
    reflexivity. }
  assert (Hfail : forall msg w2,
    the_chat_data context w2 = the_chat_data context w ->
    generated_persona
      (the_chat_data context
         (run env
            ((logger ERROR msg ;;
              telegram env (invalid_format_reply update)) w2)).2)
    = generated_persona (the_chat_data context w)).
  { intros msg w2 H2. unfold logger.
    rewrite bind_modify, run_telegram. cbn [snd]. rewrite <- H2.
    reflexivity. }
  rewrite run_try, run_bind.
  destruct (pystr.contains "###" text).
  2: { cbn [negb raise run]. left. apply Hfail, Hd. }
  cbn [negb ret run]. rewrite run_bind. unfold item.
  destruct (pystr.split text "###" !! 0) as [first |].
  2: { cbn [raise run]. left. apply Hfail, Hd. }
  cbn [ret run]. rewrite run_bind.
  destruct (pystr.split text "###" !! 1) as [second |].
  2: { cbn [raise run]. left. apply Hfail, Hd. }
  cbn [ret run]. rewrite run_bind.
  set (name := pystr.strip (pystr.replace first "NAME:" "")).
  set (prompt_text := pystr.strip (pystr.replace second "PROMPT:" "")).
  destruct (pystr.truthy name) eqn:En.
  2: { cbn [negb orb raise run]. left. apply Hfail, Hd. }
  destruct (pystr.truthy prompt_text) eqn:Ep.
  2: { cbn [negb orb raise run]. left. apply Hfail, Hd. }
  cbn [negb orb ret run]. unfold set_generated_persona.
  rewrite bind_modify, run_telegram.
  right. exists name, prompt_text.
  split; [| split; [exact En | split; [exact Ep | split]]].
  - destruct (telegram_raises env _) as [e |]; cbn [snd].
    + unfold logger. rewrite bind_modify, run_telegram. cbn [snd].
      unfold the_chat_data at 1.
      cbn [chat_data set_calls set_log set_chat_data].
      rewrite lookup_insert_eq. reflexivity.
    + unfold the_chat_data at 1.
      cbn [chat_data set_calls set_log set_chat_data].
      rewrite lookup_insert_eq. reflexivity.
  - apply strip_idempotent.
  - apply strip_idempotent.
Qed.

End Generation.

Lemma returned_text_becomes_the_generated_scene_witness :
  generated_scene
    (the_chat_data alice_context
       (after unreachable (process_scene_gen_job unreachable forest_job)
          empty_world))
  = Some connection_text
  /\ last
       (calls
          (after unreachable (process_scene_gen_job unreachable forest_job)
             empty_world))
     = Some (scene_reply alice_update connection_text).
Proof.
  apply (returned_text_becomes_the_generated_scene unreachable alice_update
           alice_context "a forest" empty_world).
  reflexivity.
Defined.

Lemma text_without_separator_is_no_persona_witness :
  same_store empty_world
    (after timing_out
       (process_persona_gen_job timing_out
          (generate_persona_job alice_update alice_context "a knight"))
       empty_world)
  /\ last
       (calls
          (after timing_out
             (process_persona_gen_job timing_out
                (generate_persona_job alice_update alice_context "a knight"))
             empty_world))
     = Some (invalid_format_reply alice_update)
  /\ last
       (log
          (after timing_out
             (process_persona_gen_job timing_out
                (generate_persona_job alice_update alice_context "a knight"))
             empty_world))
     = Some
         (Log ERROR
            ("Failed to parse persona: Separator not found" +:+ pystr.nl
             +:+ "Response was:" +:+ pystr.nl +:+ timeout_text)).
Proof.
  apply (text_without_separator_is_no_persona timing_out alice_update
           alice_context "a knight" empty_world).
  reflexivity.
Defined.

(** ** The command handlers *)

Section Producers.

Context (env : Env) (front : Front).

Lemma run_log_user {B} user details (f : unit -> M B) w :
  exists w0,
    bind (log_user_interaction user details) f w = f tt w0
    /\ same_store w w0 /\ calls w0 = calls w.
Proof.
  destruct user as [u |]; eexists; (split; [reflexivity |]);
    split; try reflexivity; repeat split.
Qed.

Lemma run_is_online w :
  run env (is_lm_studio_online front w)
  = if api_base front
    then
      match head_outcome front (length (calls w)) with
      | head_returns => (Ret true, w)
      | head_unreachable =>
          (Ret false,
           set_log (log w ++ [Log WARNING "LM Studio server is offline."]) w)
      | head_raises e => (Raise e, w)
      end
    else (Ret false, w).
Proof.
  unfold is_lm_studio_online. destruct (api_base front); [| reflexivity].
  cbn [negb run]. destruct (head_outcome front (length (calls w)));
    reflexivity.
Qed.

Lemma run_online {B} (f : bool -> M B) w :
  online front w ->
  run env (bind (is_lm_studio_online front) f w) = run env (f true w).
Proof.
  intros [Ha Hh]. unfold is_lm_studio_online. rewrite Ha.
  cbn [negb]. unfold bind at 1. cbn [bind_step run]. rewrite Hh.
  reflexivity.
Qed.

(** What [chat_handler] does when it gets as far as the queue. *)
Lemma chat_handler_ready incoming context w :
  ready front incoming context w ->
  telegram_raises env (length (calls w)) = None ->
  exists w0,
    same_store w w0 /\ calls w0 = calls w
    /\ run env (chat_handler env front incoming context w)
       = (Ret tt,
          set_unfinished (S (unfinished_tasks w))
            (set_queue
               (REQUEST_QUEUE w ++
                [chat_job (incoming_update incoming) context
                   (message_text incoming) (placeholder_of front w)])
               (set_calls
                  (calls w ++
                   [reply_text (effective_message (incoming_update incoming))
                      (notice w) []])
                  w0))).
Proof.
  intros (Hp & Hn & Ho) Ht. unfold chat_handler. rewrite Hp. cbn [negb].
  destruct (run_log_user (effective_user (incoming_update incoming))
              ("Sent message: " +:+ dq +:+ message_text incoming +:+ dq)
              (fun _ =>
                 name <- read (fun w =>
                   user_display_name (the_user_data context w)) ;;
                 match name with
                 | None =>
                     telegram env
                       (reply_text
                          (effective_message (incoming_update incoming))
                          "Please run /start to set up your character first."
                          [])
                 | Some _ =>
                     online <- is_lm_studio_online front ;;
                     if negb online
                     then
                       telegram env
                         (reply_text
                            (effective_message (incoming_update incoming))
                            "AI connection is offline." [])
                     else
                       queue <- read REQUEST_QUEUE ;;
                       placeholder <-
                         match queue with
                         | [] =>
                             sent <- reply_text_message env front
                                       (effective_message
                                          (incoming_update incoming))
                                       placeholder_text ;;
                             ret (Some sent)
                         | _ :: _ =>
                             telegram env
                               (reply_text
                                  (effective_message
                                     (incoming_update incoming))
                                  ("Your request is position #"
                                   +:+ pretty (length queue + 1)
                                   +:+ " in the queue.")
                                  []) ;;
                             ret None
                         end ;;
                       put (chat_job (incoming_update incoming) context
                              (message_text incoming) placeholder)
                 end)%py w) as (w0 & E & Hs & Hc).
  rewrite E. clear E. exists w0. split; [exact Hs |]. split; [exact Hc |].
  pose proof Hs as (Hq & Hu & _ & _ & Hud & _).
  rewrite bind_read.
  assert (Hname : user_display_name (the_user_data context w0)
                  = user_display_name (the_user_data context w))
    by (unfold the_user_data; rewrite Hud; reflexivity).
  rewrite Hname.
  destruct (user_display_name (the_user_data context w)) as [name |];
    [| contradiction].
  rewrite run_online by (unfold online in *; rewrite Hc; exact Ho).
  cbn [negb]. rewrite bind_read.
  unfold notice, placeholder_of. rewrite Hq.
  destruct (REQUEST_QUEUE w) as [| j q].
  - unfold reply_text_message.
    rewrite run_bind, run_bind. cbv beta.
    rewrite run_bind, run_telegram, Hc, Ht. cbn [ret run].
    unfold put, modify. cbn [run].
    cbn [REQUEST_QUEUE unfinished_tasks set_calls]. rewrite Hq, Hu.
    reflexivity.
  - rewrite run_bind, run_bind, run_telegram, Hc, Ht. cbn [ret run].
    unfold put, modify. cbn [run].
    cbn [REQUEST_QUEUE unfinished_tasks set_calls]. rewrite Hq, Hu.
    reflexivity.
Qed.

(** X24. [chat_handler] changes the queue only when the chat is private,
    the user has set a name, the server answers the probe and Telegram
    accepts the notice: in every other case, a raised exception
    included, the queue is as it was. *)
Theorem message_is_enqueued_only_when_ready incoming context w :
  REQUEST_QUEUE (after env (chat_handler env front incoming context) w)
  <> REQUEST_QUEUE w ->
  ready front incoming context w
  /\ telegram_raises env (length (calls w)) = None.
Proof.
  unfold after, chat_handler, ready, online.
  destruct (private_chat incoming); cbn [negb];
    [| intros H; exfalso; apply H; reflexivity].
  match goal with
  | |- context [bind (log_user_interaction ?u ?d) ?f w] =>
      destruct (run_log_user u d f w) as (w0 & -> & Hs & Hc)
  end.
  pose proof Hs as (Hq & _ & _ & _ & Hud & _).
  rewrite bind_read.
  assert (Hname : user_display_name (the_user_data context w0)
                  = user_display_name (the_user_data context w))
    by (unfold the_user_data; rewrite Hud; reflexivity).
  rewrite Hname.
  destruct (user_display_name (the_user_data context w)) as [name |].
  2: { rewrite run_telegram. intros H. exfalso. apply H. exact Hq. }
  rewrite run_bind, run_is_online, Hc.
  destruct (api_base front).
  2: { cbn [negb]. rewrite run_telegram.
       intros H. exfalso. apply H. exact Hq. }
  destruct (head_outcome front (length (calls w))) as [| | e].
  - cbn [negb]. rewrite bind_read.
    destruct (telegram_raises env (length (calls w))) as [e |] eqn:Ht.
    2: { intros _. repeat split; congruence. }
    intros H. exfalso. apply H.
    destruct (REQUEST_QUEUE w0) as [| j q] eqn:Eq.
    + unfold reply_text_message. rewrite run_bind, run_bind. cbv beta.
      rewrite run_bind, run_telegram, Hc, Ht. cbn [snd REQUEST_QUEUE set_calls].
      congruence.
    + rewrite run_bind, run_bind, run_telegram, Hc, Ht.
      cbn [snd REQUEST_QUEUE set_calls]. congruence.
  - cbn [negb]. rewrite run_telegram.
    intros H. exfalso. apply H. exact Hq.
  - intros H. exfalso. apply H. exact Hq.
Qed.

(** X23. A message that passes the three gates of [chat_handler] (private
    chat, name set, server online) and whose notice Telegram accepts puts
    exactly one chat job at the tail of the queue.  When the queue is
    empty the notice is the placeholder and the job carries the message
    that was sent; otherwise the notice gives the position, one more
    than the number of waiting jobs, and the job carries no
    placeholder. *)
Theorem ready_message_is_enqueued incoming context w :
  ready front incoming context w ->
  telegram_raises env (length (calls w)) = None ->
  let w' := after env (chat_handler env front incoming context) w in
  REQUEST_QUEUE w'
  = REQUEST_QUEUE w
    ++ [chat_job (incoming_update incoming) context (message_text incoming)
          (placeholder_of front w)]
  /\ unfinished_tasks w' = S (unfinished_tasks w)
  /\ calls w'
     = calls w
       ++ [reply_text (effective_message (incoming_update incoming))
             (notice w) []].
Proof.
  intros Hr Ht w'. subst w'. unfold after.
  destruct (chat_handler_ready incoming context w Hr Ht)
    as (w0 & _ & _ & ->).
  repeat split.
Qed.

(** The rows of a chat after its last two were deleted. *)
Lemma rows_of_after_delete chat_id (t : list Row) :
  db_utils.rows_of chat_id
    (rev (db_utils.delete_first 2 chat_id (rev t)))
  = take (length (db_utils.rows_of chat_id t) - 2)
         (db_utils.rows_of chat_id t).
Proof.
  rewrite rows_of_rev, rows_of_delete_first, rows_of_rev.
  rewrite !rev_reverse, drop_reverse, reverse_involutive. reflexivity.
Qed.

(** [regenerate_command] once its test has let it through: the last
    interaction is deleted and the assignment to the frozen message
    raises. *)
Lemma regenerate_run incoming context w m1 m2 :
  private_chat incoming = true ->
  (history (effective_chat_id (incoming_update incoming)) 2 w).1 = [m1; m2] ->
  role m2 = "assistant" ->
  exists w1,
    db_utils.rows_of (effective_chat_id (incoming_update incoming))
      (conversations w1)
    = take
        (length
           (db_utils.rows_of (effective_chat_id (incoming_update incoming))
              (conversations w)) - 2)
        (db_utils.rows_of (effective_chat_id (incoming_update incoming))
           (conversations w))
    /\ REQUEST_QUEUE w1 = REQUEST_QUEUE w
    /\ unfinished_tasks w1 = unfinished_tasks w
    /\ calls w1 = calls w
    /\ run env (regenerate_command env front incoming context w)
       = (Raise (OtherException "AttributeError"), w1).
Proof.
  intros Hp Hh Hr. unfold regenerate_command. rewrite Hp. cbn [negb].
  match goal with
  | |- context [bind (log_user_interaction ?u ?d) ?f w] =>
      destruct (run_log_user u d f w) as (w0 & -> & Hs & Hc)
  end.
  destruct Hs as (Hq & Hu & Hconv & _ & Hud & _).
  unfold db_utils.get_history_from_db at 1. rewrite bind_read.
  set (h := (map _ _, length _)).
  assert (Hw0 : h = history (effective_chat_id (incoming_update incoming)) 2 w)
    by (subst h; rewrite Hconv; reflexivity).
  clearbody h. subst h.
  rewrite Hh. cbn [length last fmap option_fmap option_map default].
  rewrite Hr. cbn [Nat.ltb Nat.leb orb negb String.eqb Ascii.eqb Bool.eqb].
  change (negb (id "assistant" =? "assistant")%string) with false.
  cbv iota.
  unfold db_utils.delete_last_interaction_from_db, logger.
  rewrite run_bind, run_bind. cbn [modify run].
  unfold set_message_text. rewrite run_bind. cbn [raise run].
  eexists. split; [| split; [| split; [| split; [| reflexivity]]]].
  - cbn [conversations set_conversations set_log]. rewrite Hconv.
    apply rows_of_after_delete.
  - exact Hq.
  - exact Hu.
  - exact Hc.
Qed.

(** X25. Once the last stored message of the chat is an assistant
    message and the chat has two stored messages, [/regenerate] deletes
    the last two, in every environment: the deletion comes before
    everything that can fail. *)
Theorem regenerate_deletes_the_last_interaction incoming context w m1 m2 :
  private_chat incoming = true ->
  let chat_id := effective_chat_id (incoming_update incoming) in
  (history chat_id 2 w).1 = [m1; m2] ->
  role m2 = "assistant" ->
  history chat_id 0
    (after env (regenerate_command env front incoming context) w)
  = (take ((history chat_id 0 w).2 - 2) (history chat_id 0 w).1,
     (history chat_id 0 w).2 - 2).
Proof.
  intros Hp chat_id Hh Hr. unfold after.
  destruct (regenerate_run incoming context w m1 m2 Hp Hh Hr)
    as (w1 & Hrows & _ & _ & _ & ->).
  rewrite !history_all. cbn [snd]. fold chat_id in Hrows. rewrite Hrows.
  cbn [fst snd]. rewrite <- firstn_map. f_equal.
  rewrite length_take. lia.
Qed.

(** X26. [/regenerate] never asks again: once its test has let it
    through it deletes the last two stored messages of the chat and then
    raises [AttributeError] at the assignment to [update.message.text],
    so that [chat_handler] is not reached; no job is put on the queue
    and no reply is sent, whatever the server and Telegram would have
    done. *)
Theorem regenerate_raises_after_the_deletion incoming context w m1 m2 :
  private_chat incoming = true ->
  let chat_id := effective_chat_id (incoming_update incoming) in
  (history chat_id 2 w).1 = [m1; m2] ->
  role m2 = "assistant" ->
  exists w',
    run env (regenerate_command env front incoming context w)
    = (Raise (OtherException "AttributeError"), w')
    /\ (history chat_id 0 w').2 = (history chat_id 0 w).2 - 2
    /\ REQUEST_QUEUE w' = REQUEST_QUEUE w
    /\ unfinished_tasks w' = unfinished_tasks w
    /\ calls w' = calls w.
Proof.
  intros Hp chat_id Hh Hr.
  destruct (regenerate_run incoming context w m1 m2 Hp Hh Hr)
    as (w1 & Hrows & Hq & Hu & Hc & E).
  exists w1. split; [exact E |].
  split; [| split; [exact Hq | split; [exact Hu | exact Hc]]].
  rewrite !history_all. cbn [snd]. fold chat_id in Hrows.
  rewrite Hrows, length_take. lia.
Qed.

(** X27. With the server offline, [/regenerate] leaves the last two
    stored messages of the chat deleted and enqueues nothing: the
    deletion comes before anything that could ask again. *)
Theorem regenerate_while_offline_loses_the_interaction incoming context w
    m1 m2 :
  private_chat incoming = true ->
  let chat_id := effective_chat_id (incoming_update incoming) in
  (history chat_id 2 w).1 = [m1; m2] ->
  role m2 = "assistant" ->
  offline front w ->
  let w' := after env (regenerate_command env front incoming context) w in
  REQUEST_QUEUE w' = REQUEST_QUEUE w
  /\ (history chat_id 0 w').2 = (history chat_id 0 w).2 - 2.
Proof.
  intros Hp chat_id Hh Hr Hoff w'. subst w'. unfold after.
  destruct (regenerate_run incoming context w m1 m2 Hp Hh Hr)
    as (w1 & Hrows & Hq & _ & _ & ->).
  split; [exact Hq |].
  rewrite !history_all. cbn [snd]. fold chat_id in Hrows.
  rewrite Hrows, length_take. lia.
Qed.

Lemma history_empty chat_id limit w :
  db_utils.rows_of chat_id (conversations w) = [] ->
  history chat_id limit w = ([], 0).
Proof.
  intros H. unfold history, db_utils.get_history_from_db, read.
  rewrite H. destruct (limit =? 0); reflexivity.
Qed.

(** X28. [/clear] in a private chat empties the history of the chat,
    drops its summary and empties the chat's settings, even when the
    confirmation cannot be sent; it leaves the user's data and the queue
    as they are, so a job of the chat that waits in the queue is still
    processed afterwards. *)
Theorem clear_empties_the_chat incoming context limit w :
  private_chat incoming = true ->
  let chat_id := effective_chat_id (incoming_update incoming) in
  let w' := after env (clear_history env incoming context) w in
  history chat_id limit w' = ([], 0)
  /\ summary chat_id w' = None
  /\ chat_data w' !! context_chat context = None
  /\ user_data w' = user_data w
  /\ REQUEST_QUEUE w' = REQUEST_QUEUE w.
Proof.
  intros Hp chat_id w'. subst w'. unfold after, clear_history.
  rewrite Hp. cbn [negb].
  match goal with
  | |- context [bind (log_user_interaction ?u ?d) ?f w] =>
      destruct (run_log_user u d f w) as (w0 & -> & Hs & Hc)
  end.
  destruct Hs as (Hq & _ & Hconv & Hm & Hud & _).
  unfold db_utils.clear_history_in_db, logger.
  rewrite run_bind, run_bind. cbn [modify run].
  rewrite bind_modify, run_telegram. cbn [snd].
  split; [| split; [| split; [| split]]].
  - apply history_empty.
    cbn [conversations set_calls set_chat_data set_log set_long_term_memory
         set_conversations].
    rewrite rows_of_cleared. rewrite decide_True by reflexivity.
    reflexivity.
  - unfold summary, db_utils.get_summary, read.
    cbn [long_term_memory set_calls set_chat_data set_log
         set_long_term_memory set_conversations].
    apply lookup_delete_eq.
  - cbn [chat_data set_calls set_chat_data]. apply lookup_delete_eq.
  - exact Hud.
  - exact Hq.
Qed.

End Producers.

Lemma ready_message_is_enqueued_witness :
  REQUEST_QUEUE
    (after fine (chat_handler fine server_up (alice_says "hello")
                   alice_context) (world_with [] alice_named))
  = [chat_job alice_update alice_context "hello" (Some 500%Z)]
  /\ unfinished_tasks
       (after fine (chat_handler fine server_up (alice_says "hello")
                      alice_context) (world_with [] alice_named))
     = 1
  /\ calls
       (after fine (chat_handler fine server_up (alice_says "hello")
                      alice_context) (world_with [] alice_named))
     = [reply_text 100 placeholder_text []].
Proof.
  apply (ready_message_is_enqueued fine server_up (alice_says "hello")
           alice_context (world_with [] alice_named)).
  - repeat split. vm_compute. discriminate.
  - reflexivity.
Defined.

Lemma message_is_enqueued_only_when_ready_witness :
  ready server_up (alice_says "hello") alice_context
    (world_with [] alice_named)
  /\ telegram_raises fine
       (length (calls (world_with [] alice_named))) = None.
Proof.
  apply (message_is_enqueued_only_when_ready fine server_up
           (alice_says "hello") alice_context (world_with [] alice_named)).
  vm_compute. discriminate.
Defined.

Lemma regenerate_deletes_the_last_interaction_witness :
  history alice 0
    (after fine
       (regenerate_command fine server_up (alice_says "/regenerate")
          alice_context)
       (world_with one_turn alice_named))
  = ([], 0).
Proof.
  exact (regenerate_deletes_the_last_interaction fine server_up
           (alice_says "/regenerate") alice_context
           (world_with one_turn alice_named)
           (mkMessage "user" "hello") (mkMessage "assistant" "Fine.")
           eq_refl eq_refl eq_refl).
Defined.

Lemma regenerate_raises_after_the_deletion_witness :
  exists w',
    run fine
      (regenerate_command fine server_up (alice_says "/regenerate")
         alice_context (world_with one_turn alice_named))
    = (Raise (OtherException "AttributeError"), w')
    /\ (history alice 0 w').2
       = (history alice 0 (world_with one_turn alice_named)).2 - 2
    /\ REQUEST_QUEUE w' = []
    /\ unfinished_tasks w' = 0
    /\ calls w' = [].
Proof.
  apply (regenerate_raises_after_the_deletion fine server_up
           (alice_says "/regenerate") alice_context
           (world_with one_turn alice_named)
           (mkMessage "user" "hello") (mkMessage "assistant" "Fine."));
    reflexivity.
Defined.

Lemma regenerate_while_offline_loses_the_interaction_witness :
  REQUEST_QUEUE
    (after fine
       (regenerate_command fine server_down (alice_says "/regenerate")
          alice_context)
       (world_with one_turn alice_named))
  = []
  /\ (history alice 0
        (after fine
           (regenerate_command fine server_down (alice_says "/regenerate")
              alice_context)
           (world_with one_turn alice_named))).2
     = 0.
Proof.
  apply (regenerate_while_offline_loses_the_interaction fine server_down
           (alice_says "/regenerate") alice_context
           (world_with one_turn alice_named)
           (mkMessage "user" "hello") (mkMessage "assistant" "Fine."));
    try reflexivity.
  right. reflexivity.
Defined.

Lemma clear_empties_the_chat_witness :
  history alice 0
    (after fine (clear_history fine (alice_says "/clear") alice_context)
       two_chats)
  = ([], 0)
  /\ summary alice
       (after fine (clear_history fine (alice_says "/clear") alice_context)
          two_chats)
     = None
  /\ chat_data
       (after fine (clear_history fine (alice_says "/clear") alice_context)
          two_chats) !! context_chat alice_context
     = None
  /\ user_data
       (after fine (clear_history fine (alice_says "/clear") alice_context)
          two_chats)
     = user_data two_chats
  /\ REQUEST_QUEUE
       (after fine (clear_history fine (alice_says "/clear") alice_context)
          two_chats)
     = REQUEST_QUEUE two_chats.
Proof.
  apply (clear_empties_the_chat fine (alice_says "/clear") alice_context 0
           two_chats).
  reflexivity.
Defined.

(** ** Shutdown and the removal of a user *)

Section Shutdown.

Context (env : Env).

Lemma drain_run queue w :
  length queue <= unfinished_tasks w ->
  run env (bot.drain queue w)
  = (Ret tt,
     set_unfinished (unfinished_tasks w - length queue)
       (set_queue
          match queue with [] => REQUEST_QUEUE w | _ :: _ => [] end w)).
Proof.
  revert w. induction queue as [| job rest IH]; intros w Hl.
  - simpl. rewrite Nat.sub_0_r. destruct w; reflexivity.
  - simpl in Hl. cbn [bot.drain]. rewrite bind_modify, run_bind.
    unfold task_done. cbn [unfinished_tasks set_queue].
    destruct (unfinished_tasks w) as [| n] eqn:En; [lia |].
    cbn [run]. rewrite IH by (simpl; lia).
    cbn [length]. f_equal.
    destruct rest; destruct w; simpl in *; subst; reflexivity.
Qed.

(** X29. When every job of the queue is counted as unfinished, which
    the producers and the worker keep true, the loop of the shutdown
    callback empties the queue without an exception and lowers the
    counter by the number of jobs it dropped; the dropped jobs are never
    processed. *)
Theorem shutdown_drains_a_counted_queue w :
  queue_is_counted w ->
  run env (bot.drain_queue w)
  = (Ret tt,
     set_log (log w ++ [Log INFO "AI request worker stopped."])
       (set_unfinished (unfinished_tasks w - length (REQUEST_QUEUE w))
          (set_queue [] w))).
Proof.
  intros Hc. unfold bot.drain_queue. rewrite bind_read, run_bind.
  rewrite drain_run by exact Hc.
  unfold logger. cbn [modify run]. f_equal.
  destruct w as [q u c m ud cd cs l]. simpl in *.
  destruct q; reflexivity.
Qed.

(** X30. [delete_from_sqlite] removes every stored message of the chat
    and those only, and reports how many there were; it leaves the
    table of summaries alone, so the long-term memory of the deleted
    chat is still there. *)
Theorem deleted_user_keeps_the_summary chat_id other limit w :
  let result := run env (delete_user.delete_from_sqlite chat_id w) in
  history other limit result.2
  = (if decide (other = chat_id) then ([], 0) else history other limit w)
  /\ (forall chat, summary chat result.2 = summary chat w)
  /\ result.1
     = Ret
         (if 0 <? (history chat_id 0 w).2
          then
            "[SUCCESS] Deleted " +:+ pretty (history chat_id 0 w).2
            +:+ " message(s) for chat_id " +:+ pretty chat_id
            +:+ " from SQLite database."
          else
            "[INFO] No message history found for chat_id "
            +:+ pretty chat_id +:+ " in the database.").
Proof.
  intros result. subst result. unfold delete_user.delete_from_sqlite.
  rewrite bind_read, bind_modify. rewrite history_all. cbn [snd].
  set (n := length (db_utils.rows_of chat_id (conversations w))).
  assert (E : forall a b : string,
    run env ((if 0 <? n then ret a else ret b)
               (set_conversations
                  (filter (fun r => row_chat_id r <> chat_id)
                     (conversations w)) w))
    = (Ret (if 0 <? n then a else b),
       set_conversations
         (filter (fun r => row_chat_id r <> chat_id) (conversations w)) w))
    by (intros a b; destruct (0 <? n); reflexivity).
  rewrite E. cbn [fst snd]. split; [| split; [| reflexivity]].
  - destruct (decide (other = chat_id)) as [-> | Hne].
    + apply history_empty. cbn [conversations set_conversations].
      rewrite rows_of_cleared, decide_True by reflexivity. reflexivity.
    + apply history_rows. cbn [conversations set_conversations].
      rewrite rows_of_cleared, decide_False by exact Hne. reflexivity.
  - intros chat. reflexivity.
Qed.

End Shutdown.

Lemma shutdown_drains_a_counted_queue_witness :
  run fine
    (bot.drain_queue
       (after fine (for_each three_jobs put) (world_with (stored 2) ∅)))
  = (Ret tt,
     set_log [Log INFO "AI request worker stopped."]
       (world_with (stored 2) ∅)).
Proof.
  rewrite (shutdown_drains_a_counted_queue fine).
  - vm_compute. reflexivity.
  - unfold queue_is_counted. vm_compute. lia.
Defined.
